(** Verification of smart-connections-mcp: the path guard (security.ts),
    the append-log loader (data.ts), the similarity engine (search.ts) and
    the tool handlers (tools.ts), as a shallow embedding.

    Conventions of the embedding.
    - A JavaScript string is a [string]: a sequence of code units, here
      restricted to code units below 256.
    - A JavaScript number holding a score or a vector coordinate is an IEEE
      754 binary64 value, [float]; a number holding a count or an index is
      a [nat] or a [Z].
    - A function that can throw returns an [Outcome]; a function that also
      touches the file system or the log returns an [Eff], which pairs the
      outcome with the trace of the events it performed, in order.
    - The host (node:fs, node:path, JSON.parse) is not code of the
      repository: the file system and the JSON parser are arguments of the
      functions that use them, and node:path is a record [PathModule] with
      its POSIX instance [posix]. *)

From Stdlib Require Import String Ascii List Bool Arith ZArith Lia.
From Stdlib Require Import Floats DecimalString Permutation Sorted.
Import ListNotations.

Set Warnings "-abstract-large-number,-register-all,-inexact-float".

Local Open Scope list_scope.
Local Open Scope string_scope.

(* ------------------------------------------------------------------ *)
(** * JavaScript strings *)
(* ------------------------------------------------------------------ *)

(** [s.startsWith(p)] *)
Fixpoint startsWith (s p : string) {struct p} : bool :=
  match p, s with
  | EmptyString, _ => true
  | String _ _, EmptyString => false
  | String a p', String b s' => Ascii.eqb a b && startsWith s' p'
  end.

(** [s.includes(p)] *)
Fixpoint includes (s p : string) : bool :=
  startsWith s p ||
  match s with
  | EmptyString => false
  | String _ s' => includes s' p
  end.

Fixpoint rev_string_onto (s acc : string) : string :=
  match s with
  | EmptyString => acc
  | String c s' => rev_string_onto s' (String c acc)
  end.

Definition rev_string (s : string) : string := rev_string_onto s EmptyString.

(** [s.endsWith(p)] *)
Definition endsWith (s p : string) : bool :=
  startsWith (rev_string s) (rev_string p).

(** [s.slice(0, n)] for a count [n] *)
Fixpoint slice0 (n : nat) (s : string) : string :=
  match n, s with
  | O, _ => EmptyString
  | S _, EmptyString => EmptyString
  | S n', String c s' => String c (slice0 n' s')
  end.

(** [s.slice(n)] for a count [n] *)
Fixpoint sliceFrom (n : nat) (s : string) : string :=
  match n, s with
  | O, _ => s
  | S _, EmptyString => EmptyString
  | S n', String _ s' => sliceFrom n' s'
  end.

(** White space and line terminators of ECMAScript among the code units
    below 256: TAB, LF, VT, FF, CR, SP and NBSP. *)
Definition isWhiteSpace (c : ascii) : bool :=
  let n := nat_of_ascii c in
  (((9 <=? n) && (n <=? 13)) || (n =? 32) || (n =? 160))%nat.

Fixpoint trimStart (s : string) : string :=
  match s with
  | EmptyString => EmptyString
  | String c s' => if isWhiteSpace c then trimStart s' else s
  end.

(** [s.trim()] *)
Definition trim (s : string) : string :=
  rev_string (trimStart (rev_string (trimStart s))).

Definition lowerChar (c : ascii) : ascii :=
  let n := nat_of_ascii c in
  if ((65 <=? n) && (n <=? 90))%nat then ascii_of_nat (n + 32) else c.

(** [s.toLowerCase()] on the code units the [.md] test can see: only the
    letters A to Z map into the ASCII range. *)
Fixpoint toLowerCase (s : string) : string :=
  match s with
  | EmptyString => EmptyString
  | String c s' => String (lowerChar c) (toLowerCase s')
  end.

(** [s.split(sep)] for a separator of one code unit *)
Fixpoint split (sep : ascii) (s : string) : list string :=
  match s with
  | EmptyString => [EmptyString]
  | String c s' =>
      if Ascii.eqb c sep then EmptyString :: split sep s'
      else match split sep s' with
           | [] => [String c EmptyString]
           | seg :: segs => String c seg :: segs
           end
  end.

(** [parts.join(sep)] *)
Fixpoint joinWith (sep : string) (parts : list string) : string :=
  match parts with
  | [] => EmptyString
  | [p] => p
  | p :: ps => p ++ sep ++ joinWith sep ps
  end.

(** [s.replace(/_/g, ' ')] and the like: every [a] becomes [b]. *)
Fixpoint replaceAll (a b : ascii) (s : string) : string :=
  match s with
  | EmptyString => EmptyString
  | String c s' => String (if Ascii.eqb c a then b else c) (replaceAll a b s')
  end.

(** [s.replace(/[\x00-\x1F\x7F]/g, '')] *)
Fixpoint stripControl (s : string) : string :=
  match s with
  | EmptyString => EmptyString
  | String c s' =>
      let n := nat_of_ascii c in
      if ((n <=? 31) || (n =? 127))%nat then stripControl s'
      else String c (stripControl s')
  end.

(** [s.replace(/^\/+/, '')] *)
Fixpoint stripLeadingSlashes (s : string) : string :=
  match s with
  | String "/" s' => stripLeadingSlashes s'
  | _ => s
  end.

(** Template literal [`${n}`] for a count *)
Definition showNat (n : nat) : string := NilZero.string_of_uint (Nat.to_uint n).

(** Number of bytes of the UTF-8 encoding of a string of code units below
    256: one byte below 128, two bytes from 128 on. *)
Fixpoint utf8ByteLength (s : string) : nat :=
  match s with
  | EmptyString => 0
  | String c s' => (if (nat_of_ascii c <? 128)%nat then 1 else 2) + utf8ByteLength s'
  end.

(* ------------------------------------------------------------------ *)
(** * Outcomes, events and effects *)
(* ------------------------------------------------------------------ *)

(** A call either returns a value or throws an [Error] with a message. *)
Inductive Outcome (A : Type) : Type :=
| Returned (a : A)
| Thrown (message : string).
Arguments Returned {A} a.
Arguments Thrown {A} message.

(** What a call does to the world: file-system calls and log lines. *)
Inductive Event : Type :=
| FsExists (p : string)
| FsRealpath (p : string)
| FsStat (p : string)
| FsReadFile (p : string)
| FsReaddir (p : string)
| SecurityLog (event reason input : string)
| Log (level event : string).

Definition isFsEvent (e : Event) : bool :=
  match e with
  | SecurityLog _ _ _ | Log _ _ => false
  | _ => true
  end.

(** The file-system calls of a trace. *)
Definition fsCalls (t : list Event) : list Event := filter isFsEvent t.

Definition Eff (A : Type) : Type := (list Event * Outcome A)%type.

Definition ret {A} (a : A) : Eff A := ([], Returned a).

Definition throw {A} (message : string) : Eff A := ([], Thrown message).

Definition bind {A B} (m : Eff A) (k : A -> Eff B) : Eff B :=
  match m with
  | (t, Returned a) => let (t', r) := k a in ((t ++ t')%list, r)
  | (t, Thrown e) => (t, Thrown e)
  end.

(** [try { m } catch { h }] *)
Definition tryCatch {A} (m : Eff A) (h : string -> Eff A) : Eff A :=
  match m with
  | (t, Thrown e) => let (t', r) := h e in ((t ++ t')%list, r)
  | (t, Returned a) => (t, Returned a)
  end.

Definition emit (e : Event) : Eff unit := ([e], Returned tt).

(** A pure call that can throw, seen as an effect with no event. *)
Definition liftOutcome {A} (o : Outcome A) : Eff A := ([], o).

Declare Scope eff_scope.
Delimit Scope eff_scope with eff.
Notation "x <- m ;; k" := (bind m (fun x => k))
  (at level 61, m at next level, right associativity) : eff_scope.
Notation "m ;;; k" := (bind m (fun _ => k))
  (at level 61, right associativity) : eff_scope.

Definition trace {A} (m : Eff A) : list Event := fst m.
Definition outcome {A} (m : Eff A) : Outcome A := snd m.

(* ------------------------------------------------------------------ *)
(** * node:path *)
(* ------------------------------------------------------------------ *)

(** The part of node:path the repository uses. *)
Record PathModule : Type := {
  sep : ascii;
  isAbsolute : string -> bool;
  normalize : string -> string;
  join : string -> string -> string;
  basename : string -> string -> string;
  (** [path.resolve(p)] in a process whose working directory is [cwd] *)
  resolve : string -> string -> string
}.

Definition sepString (nodePath : PathModule) : string := String (sep nodePath) EmptyString.

(** normalizeString of node:path, on the segments between separators; [res]
    is the stack of kept segments, last kept first. An empty segment and [.]
    are dropped; [..] removes the last kept segment unless there is none or
    it is [..] itself, and is then kept when the path is relative. *)
Fixpoint normalizeSegments (allowAboveRoot : bool) (segs res : list string) : list string :=
  match segs with
  | [] => res
  | seg :: segs' =>
      if (seg =? "") || (seg =? ".") then normalizeSegments allowAboveRoot segs' res
      else if seg =? ".." then
        match res with
        | last :: res' =>
            if last =? ".." then
              normalizeSegments allowAboveRoot segs'
                (if allowAboveRoot then ".." :: res else res)
            else normalizeSegments allowAboveRoot segs' res'
        | [] =>
            normalizeSegments allowAboveRoot segs'
              (if allowAboveRoot then [".."] else [])
        end
      else normalizeSegments allowAboveRoot segs' (seg :: res)
  end.

Definition posix_normalize (p : string) : string :=
  if p =? "" then "." else
  let absolute := startsWith p "/" in
  let trailingSeparator := endsWith p "/" in
  let body := joinWith "/" (rev (normalizeSegments (negb absolute) (split "/" p) [])) in
  if body =? "" then
    if absolute then "/" else if trailingSeparator then "./" else "."
  else
    let body' := if trailingSeparator then body ++ "/" else body in
    if absolute then "/" ++ body' else body'.

Definition posix_join (a b : string) : string :=
  if a =? "" then (if b =? "" then "." else posix_normalize b)
  else if b =? "" then posix_normalize a
  else posix_normalize (a ++ "/" ++ b).

Fixpoint lastNonEmpty (segs : list string) (acc : string) : string :=
  match segs with
  | [] => acc
  | seg :: segs' => lastNonEmpty segs' (if seg =? "" then acc else seg)
  end.

Definition posix_basename (p suffix : string) : string :=
  if p =? suffix then "" else
  let name := lastNonEmpty (split "/" p) "" in
  if negb (suffix =? "") && endsWith name suffix && negb (name =? suffix)
  then slice0 (String.length name - String.length suffix) name
  else name.

Definition posix_resolve (cwd p : string) : string :=
  let full := if startsWith p "/" then p else if p =? "" then cwd else cwd ++ "/" ++ p in
  "/" ++ joinWith "/" (rev (normalizeSegments false (split "/" full) [])).

Definition posix : PathModule := {|
  sep := "/"%char;
  isAbsolute := fun p => startsWith p "/";
  normalize := posix_normalize;
  join := posix_join;
  basename := posix_basename;
  resolve := posix_resolve
|}.


(* ------------------------------------------------------------------ *)
(** * node:fs *)
(* ------------------------------------------------------------------ *)

Record Stats : Type := {
  isFile : bool;
  isDirectory : bool
}.

(** The file system as the calls of one request see it: what each call
    answers for each path. A [Thrown] answer is a file-system error (ENOENT,
    EACCES, ELOOP, ...). The answers of different calls are independent, as
    they are on a file system other processes change between two calls. *)
Record FileSystem : Type := {
  fs_exists : string -> Outcome bool;
  fs_realpath : string -> Outcome string;
  fs_stat : string -> Outcome Stats;
  fs_readFile : string -> Outcome string;
  fs_readdir : string -> Outcome (list string)
}.

Definition existsSync (fs : FileSystem) (p : string) : Eff bool :=
  ([FsExists p], fs_exists fs p).

Definition realpathSync (fs : FileSystem) (p : string) : Eff string :=
  ([FsRealpath p], fs_realpath fs p).

Definition statSync (fs : FileSystem) (p : string) : Eff Stats :=
  ([FsStat p], fs_stat fs p).

Definition readFileSync (fs : FileSystem) (p : string) : Eff string :=
  ([FsReadFile p], fs_readFile fs p).

Definition readdirSync (fs : FileSystem) (p : string) : Eff (list string) :=
  ([FsReaddir p], fs_readdir fs p).

(* ------------------------------------------------------------------ *)
(** * security.ts *)
(* ------------------------------------------------------------------ *)

Record Limits : Type := {
  maxQueryLength : nat;
  maxResults : Z;
  maxContentLength : nat
}.

Record Config : Type := {
  vaultPath : string;
  resolvedVaultPath : string;
  limits : Limits
}.

Record ValidationResult : Type := {
  valid : bool;
  error : option string;
  resolvedPath : option string
}.

(** [{ valid: false, error }] *)
Definition invalid (message : string) : ValidationResult :=
  {| valid := false; error := Some message; resolvedPath := None |}.

(** [{ valid: true, resolvedPath }] *)
Definition validAt (p : string) : ValidationResult :=
  {| valid := true; error := None; resolvedPath := Some p |}.

(** [{ valid: true }] *)
Definition validPlain : ValidationResult :=
  {| valid := true; error := None; resolvedPath := None |}.

Definition sanitizeForLog (value : string) : string :=
  slice0 100 (stripControl value).

Definition logSecurityEvent (event reason input : string) : Eff unit :=
  emit (SecurityLog ("security:" ++ event) reason input).

Definition log (level event : string) : Eff unit :=
  emit (Log level event).

Local Open Scope eff_scope.

(** [validateConfig]; [cwd] and [home] are the process's working directory
    and its HOME variable. *)
Definition validateConfig (nodePath : PathModule) (fs : FileSystem)
    (cwd : string) (home : option string) (vaultPath : option string) : Eff Config :=
  match vaultPath with
  | None => throw "VAULT_PATH environment variable is required"
  | Some "" => throw "VAULT_PATH environment variable is required"
  | Some vaultPath =>
      let absolutePath := resolve nodePath cwd vaultPath in
      ex <- existsSync fs absolutePath ;;
      if negb ex then throw ("Vault path does not exist: " ++ absolutePath) else
      stats <- statSync fs absolutePath ;;
      if negb (isDirectory stats) then
        throw ("Vault path is not a directory: " ++ absolutePath) else
      let homeDir := match home with
                     | None | Some "" => "/"
                     | Some h => h
                     end in
      if (absolutePath =? "/") || (absolutePath =? homeDir) then
        throw ("Vault path too broad (security risk): " ++ absolutePath) else
      let smartEnvPath := join nodePath absolutePath ".smart-env" in
      ex' <- existsSync fs smartEnvPath ;;
      if negb ex' then
        throw ("No .smart-env directory found at " ++ absolutePath ++ ". " ++
               "Is Smart Connections plugin installed and has it built embeddings?") else
      resolvedVaultPath <- tryCatch (realpathSync fs absolutePath)
                             (fun _ => throw ("Cannot resolve vault path: " ++ absolutePath)) ;;
      ret {| vaultPath := absolutePath;
             resolvedVaultPath := resolvedVaultPath;
             limits := {| maxQueryLength := 1000;
                          maxResults := 50;
                          maxContentLength := 10240 |} |}
  end.

(** [part.startsWith('.') && part !== '.'] *)
Definition isHiddenPart (part : string) : bool :=
  startsWith part "." && negb (part =? ".").

(** [validateNotePath]. The [try] block covers [existsSync] and
    [realpathSync]; [statSync] comes after it. *)
Definition validateNotePath (nodePath : PathModule) (fs : FileSystem)
    (config : Config) (relativePath : string) : Eff ValidationResult :=
  if relativePath =? "" then ret (invalid "Path is required") else
  let trimmed := trim relativePath in
  if (String.length trimmed =? 0)%nat then ret (invalid "Path cannot be empty") else
  if isAbsolute nodePath trimmed then
    logSecurityEvent "path_traversal_blocked" "absolute_path" (sanitizeForLog trimmed) ;;;
    ret (invalid "Absolute paths not allowed")
  else
  let normalized := normalize nodePath trimmed in
  if startsWith normalized ".." || includes normalized (".." ++ sepString nodePath) then
    logSecurityEvent "path_traversal_blocked" "dot_dot" (sanitizeForLog trimmed) ;;;
    ret (invalid "Path traversal not allowed")
  else
  let parts := split (sep nodePath) normalized in
  if existsb isHiddenPart parts then
    logSecurityEvent "path_traversal_blocked" "hidden_path" (sanitizeForLog trimmed) ;;;
    ret (invalid "Hidden files/directories not accessible")
  else
  if negb (endsWith (toLowerCase normalized) ".md") then
    ret (invalid "Only .md files can be retrieved")
  else
  let fullPath := join nodePath (resolvedVaultPath config) normalized in
  r <- tryCatch
         (ex <- existsSync fs fullPath ;;
          if negb ex then ret (inl (invalid "Note not found"))
          else (resolved <- realpathSync fs fullPath ;; ret (inr resolved)))
         (fun _ => ret (inl (invalid "Cannot resolve path"))) ;;
  match r with
  | inl rejection => ret rejection
  | inr resolvedPath =>
      if negb (startsWith resolvedPath (resolvedVaultPath config ++ sepString nodePath)) then
        logSecurityEvent "path_traversal_blocked" "symlink_escape" (sanitizeForLog trimmed) ;;;
        ret (invalid "Path resolves outside vault")
      else
        fileStats <- statSync fs resolvedPath ;;
        if negb (isFile fileStats) then ret (invalid "Path is not a file")
        else ret (validAt resolvedPath)
  end.

(** [validateQuery] *)
Definition validateQuery (query : string) (maxLength : nat) : ValidationResult :=
  if query =? "" then invalid "Query is required" else
  let trimmed := trim query in
  if (String.length trimmed =? 0)%nat then invalid "Query cannot be empty" else
  if (maxLength <? String.length trimmed)%nat then
    invalid ("Query exceeds maximum length of " ++ showNat maxLength)
  else validPlain.

(* ------------------------------------------------------------------ *)
(** * JavaScript numbers and values *)
(* ------------------------------------------------------------------ *)

Local Open Scope float_scope.

Definition two52 : float := 0x1p52.

(** [Math.floor]: below 2^52 in magnitude, adding and subtracting 2^52
    rounds to the nearest integer, which is then corrected downwards. *)
Definition Math_floor (x : float) : float :=
  if is_nan x || (two52 <=? abs x) then x
  else
    let t := if 0 <=? x then (x + two52) - two52 else (x - two52) + two52 in
    if x <? t then t - 1 else t.

(** [Math.round]: the nearest integer, a tie going towards +Infinity; a
    zero result has the sign of the argument. *)
Definition Math_round (x : float) : float :=
  if is_nan x || is_infinity x then x
  else
    let f := Math_floor x in
    let r := if 0.5 <=? x - f then f + 1 else f in
    if r =? 0 then (if get_sign x then neg_zero else zero) else r.

(** [Math.round(score * 1000) / 1000] *)
Definition round3 (score : float) : float := Math_round (score * 1000) / 1000.

(** The integer a number denotes when [Number.isInteger] holds of it. *)
Definition integerValue (x : float) : option Z :=
  match Prim2SF x with
  | S754_zero _ => Some 0%Z
  | S754_finite s m e =>
      let magnitude :=
        if (0 <=? e)%Z then Some (Z.pos m * 2 ^ e)%Z
        else if (Z.pos m mod 2 ^ (- e) =? 0)%Z then Some (Z.pos m / 2 ^ (- e))%Z
        else None in
      option_map (fun z => if s then (- z)%Z else z) magnitude
  | _ => None
  end.

(** A JavaScript value as JSON.parse and the protocol deliver it;
    [undefined] is the [None] of an [option JSValue]. *)
Inductive JSValue : Type :=
| JSNull
| JSBool (b : bool)
| JSNumber (x : float)
| JSString (s : string)
| JSArray (items : list JSValue)
| JSObject (properties : list (string * JSValue)).

(** Truthiness, the test of [if (!v)]. *)
Definition isTruthy (v : option JSValue) : bool :=
  match v with
  | None | Some JSNull => false
  | Some (JSBool b) => b
  | Some (JSNumber x) => negb ((x =? 0) || is_nan x)
  | Some (JSString s) => negb (s =? "")%string
  | Some (JSArray _) | Some (JSObject _) => true
  end.

Fixpoint lookupProperty (k : string) (properties : list (string * JSValue)) : option JSValue :=
  match properties with
  | [] => None
  | (k', v) :: rest => if (k' =? k)%string then Some v else lookupProperty k rest
  end.

Fixpoint indexed {A} (i : nat) (l : list A) : list (string * A) :=
  match l with
  | [] => []
  | x :: l' => (showNat i, x) :: indexed (S i) l'
  end.

Fixpoint charsOf (s : string) : list JSValue :=
  match s with
  | EmptyString => []
  | String c s' => JSString (String c EmptyString) :: charsOf s'
  end.

(** The number [n] as a JavaScript number. *)
Definition numberOfNat (n : nat) : float :=
  PrimFloat.of_uint63 (Uint63.of_Z (Z.of_nat n)).

(** The own properties of an array or of a string: the elements under
    their indices, written in decimal, and the length. *)
Definition lookupElement (k : string) (items : list JSValue) : option JSValue :=
  if (k =? "length")%string then Some (JSNumber (numberOfNat (List.length items)))
  else lookupProperty k (indexed 0 items).

(** [v.k] and [v[k]]: reading a property of [null] throws; an object
    answers with its own property, an array with its element at the index
    [k] or with its length, a string likewise with its character; a number
    and a boolean have no own property. Inherited properties are not
    modelled: no prototype has a member [embeddings], [blocks] or [vec],
    and a member of a prototype read under the model key has no [vec], so
    the loader goes on from it as from [undefined]. *)
Definition getProperty (v : JSValue) (k : string) : Outcome (option JSValue) :=
  match v with
  | JSNull => Thrown "TypeError: Cannot read properties of null"
  | JSObject properties => Returned (lookupProperty k properties)
  | JSArray items => Returned (lookupElement k items)
  | JSString s => Returned (lookupElement k (charsOf s))
  | _ => Returned None
  end.

(** [Object.entries(v)]; the properties of a parsed object come in the
    order of [Object.entries]. *)
Definition Object_entries (v : JSValue) : Outcome (list (string * JSValue)) :=
  match v with
  | JSNull => Thrown "TypeError: Cannot convert undefined or null to object"
  | JSObject properties => Returned properties
  | JSArray items => Returned (indexed 0 items)
  | JSString s => Returned (indexed 0 (charsOf s))
  | _ => Returned []
  end.

(** A [Map<string, V>]: the keys are distinct and kept in insertion order. *)
Definition JSMap (V : Type) : Type := list (string * V).

Fixpoint Map_get {V} (k : string) (m : JSMap V) : option V :=
  match m with
  | [] => None
  | (k', v) :: m' => if (k' =? k)%string then Some v else Map_get k m'
  end.

Definition Map_has {V} (k : string) (m : JSMap V) : bool :=
  match Map_get k m with Some _ => true | None => false end.

(** [m.set(k, v)]: a present key keeps its place and takes the new value; a
    new key goes last. *)
Fixpoint Map_set {V} (k : string) (v : V) (m : JSMap V) : JSMap V :=
  match m with
  | [] => [(k, v)]
  | (k', v') :: m' =>
      if (k' =? k)%string then (k, v) :: m' else (k', v') :: Map_set k v m'
  end.

(** [arr.slice(0, n)] for an integer [n]: a negative [n] counts from the end. *)
Definition Array_slice0 {A} (n : Z) (l : list A) : list A :=
  if (n <? 0)%Z then firstn (Z.to_nat (Z.max (Z.of_nat (List.length l) + n) 0)) l
  else firstn (Z.to_nat n) l.

(** [arr.sort(compareFn)]. The sort of ECMAScript is stable; the model is
    the stable insertion sort: an element moves behind exactly the elements
    the comparator puts strictly before it ([compareFn(x, y) > 0]). *)
Fixpoint insertSorted {A} (compareFn : A -> A -> float) (x : A) (l : list A) : list A :=
  match l with
  | [] => [x]
  | y :: l' =>
      if 0 <? compareFn x y then y :: insertSorted compareFn x l'
      else x :: y :: l'
  end.

Definition Array_sort {A} (compareFn : A -> A -> float) (l : list A) : list A :=
  fold_right (insertSorted compareFn) [] l.

(* ------------------------------------------------------------------ *)
(** * security.ts, continued: arguments *)
(* ------------------------------------------------------------------ *)

(** [typeof v !== 'number' || !isFinite(v)] *)
Definition isInvalidCoordinate (v : JSValue) : bool :=
  match v with
  | JSNumber x => negb (is_finite x)
  | _ => true
  end.

(** The first index from [i] on whose element fails the test of the loop. *)
Fixpoint firstInvalidIndex (i : nat) (items : list JSValue) : option nat :=
  match items with
  | [] => None
  | v :: rest => if isInvalidCoordinate v then Some i else firstInvalidIndex (S i) rest
  end.

(** [validateEmbedding] *)
Definition validateEmbedding (embedding : JSValue) (expectedDimensions : nat) : ValidationResult :=
  match embedding with
  | JSArray items =>
      if negb (List.length items =? expectedDimensions)%nat then
        invalid ("Embedding must have " ++ showNat expectedDimensions ++
                 " dimensions, got " ++ showNat (List.length items))
      else
        match firstInvalidIndex 0 items with
        | Some i => invalid ("Invalid value at index " ++ showNat i)
        | None => validPlain
        end
  | _ => invalid "Embedding must be an array"
  end.

Definition showZ (z : Z) : string :=
  match z with
  | Z0 => "0"
  | Zpos p => showNat (Pos.to_nat p)
  | Zneg p => "-" ++ showNat (Pos.to_nat p)
  end.

(** [validateLimit]; [value] is [None] for [undefined] and [null]. *)
Definition validateLimit (value : option float) (min max : Z) (name : string) : Outcome Z :=
  match value with
  | None => Returned min
  | Some num =>
      match integerValue num with
      | None => Thrown (name ++ " must be an integer")
      | Some n =>
          if ((n <? min) || (max <? n))%Z then
            Thrown (name ++ " must be between " ++ showZ min ++ " and " ++ showZ max)
          else Returned n
      end
  end.

(* ------------------------------------------------------------------ *)
(** * data.ts *)
(* ------------------------------------------------------------------ *)

Local Open Scope string_scope.

(** An entry of the index. The loader stores the array it finds under
    [vec] as it is (the cast to [number[]] is not checked), so its entries
    carry [JSValue] coordinates; the search works on entries whose
    coordinates are numbers, as the declared type says. *)
Record EmbeddingEntry (V : Type) : Type := {
  entryPath : string;
  embedding : list V;
  blocks : option JSValue
}.
Arguments entryPath {V} e.
Arguments embedding {V} e.
Arguments blocks {V} e.

Record ModelInfo : Type := {
  modelKey : string;
  dimensions : nat;
  adapter : string
}.

Record SmartConnectionsData : Type := {
  entries : JSMap (EmbeddingEntry float);
  modelInfo : ModelInfo
}.

(** [getModelDimensions] *)
Definition getModelDimensions (modelKey : string) : Eff nat :=
  if modelKey =? "TaylorAI/bge-micro-v2" then ret 384%nat
  else if modelKey =? "sentence-transformers/all-MiniLM-L6-v2" then ret 384%nat
  else if modelKey =? "BAAI/bge-small-en-v1.5" then ret 384%nat
  else if modelKey =? "BAAI/bge-base-en-v1.5" then ret 768%nat
  else if modelKey =? "BAAI/bge-large-en-v1.5" then ret 1024%nat
  else log "WARN" "unknown_model_dimensions" ;;; ret 384%nat.

Definition isArray (v : option JSValue) : bool :=
  match v with
  | Some (JSArray _) => true
  | _ => false
  end.

Definition arrayItems (v : option JSValue) : list JSValue :=
  match v with
  | Some (JSArray items) => items
  | _ => []
  end.

(** [modelData?.vec] *)
Definition optionalVec (modelData : option JSValue) : option JSValue :=
  match modelData with
  | None | Some JSNull => None
  | Some (JSObject properties) => lookupProperty "vec" properties
  | Some _ => None
  end.

(** One turn of the loop of [parseAjsonFile] over [Object.entries(parsed)]:
    the map after the record [(fullKey, value)]. Reading [embeddings] off a
    [null] record throws. *)
Definition parseAjsonRecord (modelKey : string) (entries : JSMap (EmbeddingEntry JSValue))
    (fullKey : string) (value : JSValue) : Outcome (JSMap (EmbeddingEntry JSValue)) :=
  if negb (startsWith fullKey "smart_sources:") then Returned entries else
  let notePath := sliceFrom 14 fullKey in
  if includes notePath "#" then Returned entries else
  match getProperty value "embeddings" with
  | Thrown e => Thrown e
  | Returned embeddings =>
      if negb (isTruthy embeddings) then Returned entries else
      match embeddings with
      | None => Returned entries
      | Some embeddingsValue =>
          match getProperty embeddingsValue modelKey with
          | Thrown e => Thrown e
          | Returned modelData =>
              let vec := optionalVec modelData in
              if negb (isTruthy vec) || negb (isArray vec) then Returned entries else
              match getProperty value "blocks" with
              | Thrown e => Thrown e
              | Returned blocks =>
                  Returned (Map_set notePath
                              {| entryPath := notePath;
                                 embedding := arrayItems vec;
                                 blocks := blocks |} entries)
              end
          end
      end
  end.

Fixpoint parseAjsonRecords (modelKey : string) (records : list (string * JSValue))
    (entries : JSMap (EmbeddingEntry JSValue)) : Outcome (JSMap (EmbeddingEntry JSValue)) :=
  match records with
  | [] => Returned entries
  | (fullKey, value) :: rest =>
      match parseAjsonRecord modelKey entries fullKey value with
      | Thrown e => Thrown e
      | Returned entries' => parseAjsonRecords modelKey rest entries'
      end
  end.

(** The repair of a fragment: one trailing comma goes, braces come around. *)
Definition wrapFragment (content : string) : string :=
  let jsonContent :=
    if endsWith content "," then slice0 (String.length content - 1) content
    else content in
  "{" ++ jsonContent ++ "}".

(** [parseAjsonFile]; [JSON_parse] is the host's JSON.parse. *)
Definition parseAjsonFile (fs : FileSystem) (JSON_parse : string -> Outcome JSValue)
    (filePath modelKey : string) : Eff (JSMap (EmbeddingEntry JSValue)) :=
  (raw <- readFileSync fs filePath ;;
   let content := trim raw in
   if content =? "" then ret [] else
   match JSON_parse (wrapFragment content) with
   | Thrown e => log "WARN" "ajson_json_parse_failed" ;;; ret []
   | Returned parsed =>
       records <- liftOutcome (Object_entries parsed) ;;
       liftOutcome (parseAjsonRecords modelKey records [])
   end)%eff.

(** [for (const [key, entry] of fileEntries) entries.set(key, entry)] *)
Definition mergeEntries {V} (fileEntries entries : JSMap V) : JSMap V :=
  fold_left (fun acc kv => Map_set (fst kv) (snd kv) acc) fileEntries entries.

(** The loop of [loadEmbeddings] over the fragment files. *)
Fixpoint loadFragments (nodePath : PathModule) (fs : FileSystem)
    (JSON_parse : string -> Outcome JSValue) (multiPath modelKey : string)
    (files : list string) (entries : JSMap (EmbeddingEntry JSValue))
    : Eff (JSMap (EmbeddingEntry JSValue)) :=
  match files with
  | [] => ret entries
  | file :: rest =>
      (entries' <- tryCatch
                     (fileEntries <- parseAjsonFile fs JSON_parse
                                       (join nodePath multiPath file) modelKey ;;
                      ret (mergeEntries fileEntries entries))
                     (fun _ => log "WARN" "ajson_parse_error" ;;; ret entries) ;;
       loadFragments nodePath fs JSON_parse multiPath modelKey rest entries')%eff
  end.

(** [loadEmbeddings] *)
Definition loadEmbeddings (nodePath : PathModule) (fs : FileSystem)
    (JSON_parse : string -> Outcome JSValue) (smartEnvPath modelKey : string)
    : Eff (JSMap (EmbeddingEntry JSValue)) :=
  (let multiPath := join nodePath smartEnvPath "multi" in
   ex <- existsSync fs multiPath ;;
   if negb ex then log "WARN" "no_multi_directory" ;;; ret [] else
   names <- readdirSync fs multiPath ;;
   let files := filter (fun f => endsWith f ".ajson") names in
   loadFragments nodePath fs JSON_parse multiPath modelKey files [])%eff.

(** [extractTitle] *)
Definition extractTitle (nodePath : PathModule) (notePath : string) : string :=
  replaceAll "_" " " (basename nodePath notePath ".md").

(* ------------------------------------------------------------------ *)
(** * search.ts *)
(* ------------------------------------------------------------------ *)

Record SearchResult : Type := {
  path : string;
  title : string;
  score : float
}.

Local Open Scope float_scope.

(** The loop of [cosineSimilarity] over two arrays of one length. *)
Fixpoint cosineSums (a b : list float) (dot normA normB : float) : float * float * float :=
  match a, b with
  | x :: a', y :: b' => cosineSums a' b' (dot + x * y) (normA + x * x) (normB + y * y)
  | _, _ => (dot, normA, normB)
  end.

(** [cosineSimilarity] *)
Definition cosineSimilarity (a b : list float) : Outcome float :=
  if negb (List.length a =? List.length b)%nat then
    Thrown ("Vector dimension mismatch: " ++ showNat (List.length a) ++
            " vs " ++ showNat (List.length b))%string
  else
    let '(dot, normA, normB) := cosineSums a b 0 0 0 in
    let denominator := sqrt normA * sqrt normB in
    if denominator =? 0 then Returned 0
    else Returned (dot / denominator).

(** [excludePath && notePath === excludePath] *)
Definition isExcluded (excludePath : option string) (notePath : string) : bool :=
  match excludePath with
  | None => false
  | Some e => negb (e =? "")%string && (notePath =? e)%string
  end.

(** The loop of [findSimilar] over the entries of the map, in its
    iteration order; [results] is the array built so far. *)
Fixpoint collectResults (nodePath : PathModule) (queryEmbedding : list float)
    (threshold : float) (excludePath : option string)
    (entries : JSMap (EmbeddingEntry float)) (results : list SearchResult)
    : Outcome (list SearchResult) :=
  match entries with
  | [] => Returned results
  | (notePath, entry) :: rest =>
      if isExcluded excludePath notePath then
        collectResults nodePath queryEmbedding threshold excludePath rest results
      else
        match cosineSimilarity queryEmbedding (embedding entry) with
        | Thrown e => Thrown e
        | Returned score =>
            if threshold <=? score then
              collectResults nodePath queryEmbedding threshold excludePath rest
                (results ++ [ {| path := notePath;
                                 title := extractTitle nodePath notePath;
                                 score := round3 score |} ])%list
            else
              collectResults nodePath queryEmbedding threshold excludePath rest results
        end
  end.

(** [(a, b) => b.score - a.score] *)
Definition byScoreDescending (a b : SearchResult) : float := score b - score a.

(** [findSimilar] *)
Definition findSimilar (nodePath : PathModule) (queryEmbedding : list float)
    (entries : JSMap (EmbeddingEntry float))
    (limit : Z) (threshold : float) (excludePath : option string)
    : Outcome (list SearchResult) :=
  match collectResults nodePath queryEmbedding threshold excludePath entries [] with
  | Thrown e => Thrown e
  | Returned results => Returned (Array_slice0 limit (Array_sort byScoreDescending results))
  end.

(** [findSimilarToNote]; [None] is the [null] answer. *)
Definition findSimilarToNote (nodePath : PathModule) (notePath : string)
    (entries : JSMap (EmbeddingEntry float)) (limit : Z) (threshold : float)
    : Outcome (option (list SearchResult)) :=
  match Map_get notePath entries with
  | None => Returned None
  | Some entry =>
      match findSimilar nodePath (embedding entry) entries limit threshold (Some notePath) with
      | Thrown e => Thrown e
      | Returned results => Returned (Some results)
      end
  end.

(* ------------------------------------------------------------------ *)
(** * tools.ts *)
(* ------------------------------------------------------------------ *)

Local Open Scope string_scope.

Record ToolContext : Type := {
  config : Config;
  data : SmartConnectionsData
}.

(** The data a handler answers with, before [JSON.stringify]. *)
Inductive Payload : Type :=
| ErrorPayload (message : string)
| SearchPayload (query : option string) (results : list SearchResult)
| NotePayload (notePath noteTitle content : string).

Record ToolResult : Type := {
  payload : Payload;
  isError : bool
}.

Definition successResult (d : Payload) : ToolResult :=
  {| payload := d; isError := false |}.

Definition errorResult (message : string) : ToolResult :=
  {| payload := ErrorPayload message; isError := true |}.

(** The answer of a zod schema's [safeParse]; the schemas are the host's,
    the handlers are modelled from this answer on. *)
Inductive SafeParse (A : Type) : Type :=
| ParseSuccess (parsed : A)
| ParseFailure (message : string).
Arguments ParseSuccess {A} parsed.
Arguments ParseFailure {A} message.

Record SearchSimilarArgs : Type := {
  similarNotePath : string;
  similarLimit : float;
  similarThreshold : float
}.

Record SearchByEmbeddingArgs : Type := {
  queryEmbedding : list float;
  queryLimit : float;
  queryThreshold : float
}.

Local Open Scope eff_scope.

(** [handleSearchSimilar] *)
Definition handleSearchSimilar (nodePath : PathModule)
    (args : SafeParse SearchSimilarArgs) (ctx : ToolContext) : Eff ToolResult :=
  match args with
  | ParseFailure message => ret (errorResult ("Invalid arguments: " ++ message))
  | ParseSuccess parsed =>
      let notePath := similarNotePath parsed in
      let normalizedPath := stripLeadingSlashes notePath in
      if negb (Map_has normalizedPath (entries (data ctx))) then
        ret (errorResult ("Note not found in index: " ++ notePath))
      else
        limit <- liftOutcome (validateLimit (Some (similarLimit parsed)) 1
                                (maxResults (limits (config ctx))) "limit") ;;
        results <- liftOutcome (findSimilarToNote nodePath normalizedPath
                                  (entries (data ctx)) limit (similarThreshold parsed)) ;;
        match results with
        | None => ret (errorResult ("Note not found in index: " ++ notePath))
        | Some results =>
            log "INFO" "search_similar" ;;;
            ret (successResult (SearchPayload (Some notePath) results))
        end
  end.

(** [handleSearchByEmbedding] *)
Definition handleSearchByEmbedding (nodePath : PathModule)
    (args : SafeParse SearchByEmbeddingArgs) (ctx : ToolContext) : Eff ToolResult :=
  match args with
  | ParseFailure message => ret (errorResult ("Invalid arguments: " ++ message))
  | ParseSuccess parsed =>
      let embedding := queryEmbedding parsed in
      let validation := validateEmbedding (JSArray (map JSNumber embedding))
                          (dimensions (modelInfo (data ctx))) in
      if negb (valid validation) then
        ret (errorResult (match error validation with Some e => e | None => "" end))
      else
        limit <- liftOutcome (validateLimit (Some (queryLimit parsed)) 1
                                (maxResults (limits (config ctx))) "limit") ;;
        results <- liftOutcome (findSimilar nodePath embedding (entries (data ctx))
                                  limit (queryThreshold parsed) None) ;;
        log "INFO" "search_by_embedding" ;;;
        ret (successResult (SearchPayload None results))
  end.

Definition newline : string := String "010"%char EmptyString.

Definition truncationMarker : string :=
  newline ++ newline ++ "[Content truncated - exceeded maximum length]".

(** [handleGetNote]; the file system answers [readFileSync] with the text
    decoded from the file. *)
Definition handleGetNote (nodePath : PathModule) (fs : FileSystem)
    (args : SafeParse string) (ctx : ToolContext) : Eff ToolResult :=
  match args with
  | ParseFailure message => ret (errorResult ("Invalid arguments: " ++ message))
  | ParseSuccess notePath =>
      validation <- validateNotePath nodePath fs (config ctx) notePath ;;
      if negb (valid validation) then
        ret (errorResult (match error validation with Some e => e | None => "" end))
      else
        read <- tryCatch
                  (content <- readFileSync fs
                                (match resolvedPath validation with Some p => p | None => "" end) ;;
                   ret (Some content))
                  (fun _ => ret None) ;;
        match read with
        | None => ret (errorResult "Failed to read note")
        | Some content =>
            let cap := maxContentLength (limits (config ctx)) in
            let content :=
              if (cap <? String.length content)%nat
              then slice0 cap content ++ truncationMarker
              else content in
            log "INFO" "get_note" ;;;
            ret (successResult
                   (NotePayload notePath (extractTitle nodePath notePath) content))
        end
  end.


(* ------------------------------------------------------------------ *)
(** * data.ts, continued: the model descriptor *)
(* ------------------------------------------------------------------ *)

Local Open Scope string_scope.
Local Open Scope eff_scope.

(** [normalizeNotePath] *)
Definition normalizeNotePath (notePath : string) : string :=
  stripLeadingSlashes notePath.

(** [v?.k], and [v.k] for a [v] known not to be [null]: only an object
    answers with a property. *)
Definition optionalProperty (v : option JSValue) (k : string) : option JSValue :=
  match v with
  | Some (JSObject properties) => lookupProperty k properties
  | _ => None
  end.

(** [typeof v === 'object'] *)
Definition isObjectTyped (v : JSValue) : bool :=
  match v with
  | JSNull | JSArray _ | JSObject _ => true
  | _ => false
  end.

(** [extractModelKey]; [None] is the [null] answer. *)
Definition extractModelKey (config : JSValue) : option string :=
  if negb (isTruthy (Some config)) || negb (isObjectTyped config) then None else
  let smartSources := optionalProperty (Some config) "smart_sources" in
  let embedModel := optionalProperty smartSources "embed_model" in
  if isTruthy embedModel then
    let transformers := optionalProperty embedModel "transformers" in
    if isTruthy transformers then
      match optionalProperty transformers "model_key" with
      | Some (JSString modelKey) => Some modelKey
      | _ => None
      end
    else None
  else None.

(** [loadModelInfo]; in the second message [e] is the text of the error
    that was caught. [getModelDimensions] reads its table with
    [knownModels[modelKey]]: for a model key that is the name of a member
    of [Object.prototype] ([constructor], [toString], ...) the code returns
    that member, which the model does not follow. *)
Definition loadModelInfo (nodePath : PathModule) (fs : FileSystem)
    (JSON_parse : string -> Outcome JSValue) (smartEnvPath : string) : Eff ModelInfo :=
  let configPath := join nodePath smartEnvPath "smart_env.json" in
  ex <- existsSync fs configPath ;;
  if negb ex then throw ("Smart env config not found: " ++ configPath) else
  config <- tryCatch
              (content <- readFileSync fs configPath ;; liftOutcome (JSON_parse content))
              (fun e => throw ("Failed to parse smart_env.json: " ++ e)) ;;
  match extractModelKey config with
  | None | Some "" => throw "Could not determine embedding model from smart_env.json"
  | Some modelKey =>
      dimensions <- getModelDimensions modelKey ;;
      ret {| modelKey := modelKey; dimensions := dimensions; adapter := "transformers" |}
  end.

(** What the loader hands over: the index holds the arrays as they were
    found, before the unchecked cast to [number[]]. *)
Record LoadedData : Type := {
  loadedEntries : JSMap (EmbeddingEntry JSValue);
  loadedModelInfo : ModelInfo
}.

(** [loadSmartConnectionsData] *)
Definition loadSmartConnectionsData (nodePath : PathModule) (fs : FileSystem)
    (JSON_parse : string -> Outcome JSValue) (config : Config) : Eff LoadedData :=
  let smartEnvPath := join nodePath (resolvedVaultPath config) ".smart-env" in
  modelInfo <- loadModelInfo nodePath fs JSON_parse smartEnvPath ;;
  log "INFO" "model_loaded" ;;;
  entries <- loadEmbeddings nodePath fs JSON_parse smartEnvPath (modelKey modelInfo) ;;
  log "INFO" "embeddings_loaded" ;;;
  ret {| loadedEntries := entries; loadedModelInfo := modelInfo |}.

(* ------------------------------------------------------------------ *)
(** * tools.ts, continued: the listing *)
(* ------------------------------------------------------------------ *)

Record ListedNote : Type := {
  listedPath : string;
  listedTitle : string
}.

(** The answer of [handleListIndexed], before [JSON.stringify]. *)
Inductive ListingResult : Type :=
| ListingError (message : string)
| Listing (count : nat) (notes : list ListedNote).

(** [pattern && !notePath.startsWith(pattern)] *)
Definition filteredOut (pattern : option string) (notePath : string) : bool :=
  match pattern with
  | None => false
  | Some p => negb (p =? "") && negb (startsWith notePath p)
  end.

(** The loop of [handleListIndexed] over the entries of the map. *)
Fixpoint collectNotes {V} (nodePath : PathModule) (pattern : option string)
    (entries : JSMap V) (notes : list ListedNote) : list ListedNote :=
  match entries with
  | [] => notes
  | (notePath, _) :: rest =>
      if filteredOut pattern notePath then collectNotes nodePath pattern rest notes
      else collectNotes nodePath pattern rest
             (notes ++ [ {| listedPath := notePath;
                            listedTitle := extractTitle nodePath notePath |} ])%list
  end.

(** [handleListIndexed]; [localeCompare] is the host's
    [String.prototype.localeCompare]. *)
Definition handleListIndexed (nodePath : PathModule)
    (localeCompare : string -> string -> float)
    (args : SafeParse (option string)) (ctx : ToolContext) : ListingResult :=
  match args with
  | ParseFailure message => ListingError ("Invalid arguments: " ++ message)
  | ParseSuccess pattern =>
      let notes := collectNotes nodePath pattern (entries (data ctx)) [] in
      let sorted := Array_sort (fun a b => localeCompare (listedPath a) (listedPath b)) notes in
      Listing (List.length sorted) sorted
  end.

(* ------------------------------------------------------------------ *)
(** * index.ts *)
(* ------------------------------------------------------------------ *)

(** [args.indexOf(x)]; [None] is the answer [-1]. *)
Fixpoint indexOf (x : string) (args : list string) : option nat :=
  match args with
  | [] => None
  | a :: rest =>
      if a =? x then Some 0%nat
      else match indexOf x rest with
           | Some i => Some (S i)
           | None => None
           end
  end.

(** [getVaultPath]; [argv] is [process.argv] and [envVaultPath] is
    [process.env.VAULT_PATH]. *)
Definition getVaultPath (argv : list string) (envVaultPath : option string) : option string :=
  let args := skipn 2 argv in
  match indexOf "--vault" args with
  | Some vaultIdx =>
      match nth_error args (S vaultIdx) with
      | Some value => if value =? "" then envVaultPath else Some value
      | None => envVaultPath
      end
  | None => envVaultPath
  end.
(* ------------------------------------------------------------------ *)
(** * A vault, for the examples *)
(* ------------------------------------------------------------------ *)

Local Open Scope string_scope.

Definition isOneOf (p : string) (ps : list string) : bool :=
  existsb (String.eqb p) ps.

Definition regularFile : Stats := {| isFile := true; isDirectory := false |}.
Definition directory : Stats := {| isFile := false; isDirectory := true |}.

(** 5121 times the letter e with an acute accent (code unit 233): 5121 code
    units, 10242 bytes of UTF-8. *)
Definition accentedText : string :=
  fold_right (fun c s => String c s) EmptyString
    (repeat (ascii_of_nat 233) (Z.to_nat 5121)).

(** 10241 times the letter a: one code unit, and one byte, over the cap. *)
Definition longText : string :=
  fold_right (fun c s => String c s) EmptyString
    (repeat "a"%char (Z.to_nat 10241)).

Definition vaultDirectories : list string :=
  ["/vault"; "/vault/.smart-env"; "/vault/notes"].

Definition vaultNotes : list string :=
  ["/vault/notes/a.md"; "/vault/b.md"; "/vault/accents.md"; "/vault/long.md";
   "/vault/locked.md"].

(** The vault [/vault]: the notes [notes/a.md], [b.md], [accents.md],
    [long.md] and [locked.md] (which this process may not open), the link
    [link.md] to [notes/a.md] and the link [escape.md] to [/etc/passwd]. *)
Definition vaultFs : FileSystem := {|
  fs_exists := fun p =>
    Returned (isOneOf p (vaultDirectories ++ vaultNotes
                         ++ ["/vault/link.md"; "/vault/escape.md"])%list);
  fs_realpath := fun p =>
    if p =? "/vault/link.md" then Returned "/vault/notes/a.md"
    else if p =? "/vault/escape.md" then Returned "/etc/passwd"
    else if isOneOf p (vaultDirectories ++ vaultNotes)%list then Returned p
    else Thrown ("ENOENT: no such file or directory, realpath '" ++ p ++ "'");
  fs_stat := fun p =>
    if isOneOf p vaultDirectories then Returned directory
    else if isOneOf p ("/etc/passwd" :: vaultNotes) then Returned regularFile
    else Thrown ("ENOENT: no such file or directory, stat '" ++ p ++ "'");
  fs_readFile := fun p =>
    if p =? "/vault/notes/a.md" then Returned "# A"
    else if p =? "/vault/b.md" then Returned "# B"
    else if p =? "/vault/accents.md" then Returned accentedText
    else if p =? "/vault/long.md" then Returned longText
    else if p =? "/vault/locked.md"
    then Thrown "EACCES: permission denied, open '/vault/locked.md'"
    else Thrown ("ENOENT: no such file or directory, open '" ++ p ++ "'");
  fs_readdir := fun p =>
    Thrown ("ENOENT: no such file or directory, scandir '" ++ p ++ "'")
|}.

(** The same vault when [notes/a.md] is unlinked by another process after
    the guard resolved it and before the guard inspects it. *)
Definition racyFs : FileSystem := {|
  fs_exists := fs_exists vaultFs;
  fs_realpath := fs_realpath vaultFs;
  fs_stat := fun p =>
    if p =? "/vault/notes/a.md"
    then Thrown "ENOENT: no such file or directory, stat '/vault/notes/a.md'"
    else fs_stat vaultFs p;
  fs_readFile := fs_readFile vaultFs;
  fs_readdir := fs_readdir vaultFs
|}.

(** The configuration [validateConfig] builds for [/vault]. *)
Definition vaultConfig : Config := {|
  vaultPath := "/vault";
  resolvedVaultPath := "/vault";
  limits := {| maxQueryLength := 1000; maxResults := 50; maxContentLength := 10240 |}
|}.


Local Open Scope float_scope.

Definition entryOf (p : string) (v : list float) : string * EmbeddingEntry float :=
  (p, {| entryPath := p; embedding := v; blocks := None |}).

Definition microModel : ModelInfo :=
  {| modelKey := "TaylorAI/bge-micro-v2"; dimensions := 384; adapter := "transformers" |}.

(** A context on [/vault] whose index holds no entry. *)
Definition vaultContext : ToolContext :=
  {| config := vaultConfig;
     data := {| entries := []; modelInfo := microModel |} |}.

(** Two notes whose cosines with the query [(1, 0)] differ and round to the
    same three decimals: 25 / sqrt 626 = 0.99920... for [A.md] and
    30 / sqrt 901 = 0.99944... for [B.md]. *)
Definition closeIndex : JSMap (EmbeddingEntry float) :=
  [entryOf "A.md" [25; 1]; entryOf "B.md" [30; 1]].

(** One note whose cosine with the query [(1, 0)] is 12 / 13 = 0.92307... *)
Definition steepIndex : JSMap (EmbeddingEntry float) :=
  [entryOf "A.md" [12; 5]].

(** Four notes, of cosines 0.6, 0.8, 1 and 0 with the query [(1, 0)]. *)
Definition smallIndex : JSMap (EmbeddingEntry float) :=
  [entryOf "A.md" [3; 4]; entryOf "B_x.md" [4; 3]; entryOf "C.md" [1; 0];
   entryOf "D.md" [0; 1]].

Definition searchHit (p t : string) (s : float) : SearchResult :=
  {| path := p; title := t; score := s |}.

(** A context whose model has 384 dimensions and whose index holds a vector
    of two coordinates: the loader keeps whatever array it finds under
    [vec]. *)
Definition staleContext : ToolContext :=
  {| config := vaultConfig;
     data := {| entries := steepIndex; modelInfo := microModel |} |}.

(** An index whose two vectors have two and three coordinates. *)
Definition mixedIndex : JSMap (EmbeddingEntry float) :=
  [entryOf "A.md" [1; 0]; entryOf "B.md" [1; 0; 0]].

Definition mixedContext : ToolContext :=
  {| config := vaultConfig;
     data := {| entries := mixedIndex; modelInfo := microModel |} |}.

(** A query of 384 coordinates, all 1. *)
Definition onesQuery : SearchByEmbeddingArgs :=
  {| queryEmbedding := repeat 1 384; queryLimit := 10; queryThreshold := 0.3 |}.

Local Open Scope string_scope.

(** The double quote, and a string between double quotes. *)
Definition doubleQuote : string := String (ascii_of_nat 34) EmptyString.
Definition quoted (s : string) : string := doubleQuote ++ s ++ doubleQuote.

(** The one record of the fragment [a.ajson]; the file ends with a comma
    and a line feed. *)
Definition recordA : string :=
  quoted "smart_sources:A.md" ++ ": {" ++ quoted "embeddings" ++ ": {"
  ++ quoted "TaylorAI/bge-micro-v2" ++ ": {" ++ quoted "vec" ++ ": [1, 0]}}}".

(** The fragment [broken.ajson]: a write that stopped inside a record. *)
Definition recordCut : string :=
  quoted "smart_sources:B.md" ++ ": {" ++ quoted "embeddings" ++ ": {".

Definition parsedA : JSValue :=
  JSObject [("smart_sources:A.md",
             JSObject [("embeddings",
                        JSObject [("TaylorAI/bge-micro-v2",
                                   JSObject [("vec", JSArray [JSNumber 1; JSNumber 0])])])])].

(** What JSON.parse answers on the texts of this vault. *)
Definition fragmentParse (text : string) : Outcome JSValue :=
  if text =? "{" ++ recordA ++ "}" then Returned parsedA
  else Thrown "SyntaxError: Unexpected end of JSON input".

(** The store of the vault: the fragments [a.ajson] and [broken.ajson]. *)
Definition fragmentFs : FileSystem := {|
  fs_exists := fun p =>
    Returned (isOneOf p ["/vault/.smart-env/multi";
                         "/vault/.smart-env/multi/a.ajson";
                         "/vault/.smart-env/multi/broken.ajson"]);
  fs_realpath := fun p => Returned p;
  fs_stat := fun p =>
    if p =? "/vault/.smart-env/multi" then Returned directory else Returned regularFile;
  fs_readFile := fun p =>
    if p =? "/vault/.smart-env/multi/a.ajson" then Returned (recordA ++ "," ++ newline)
    else if p =? "/vault/.smart-env/multi/broken.ajson" then Returned recordCut
    else Thrown ("ENOENT: no such file or directory, open '" ++ p ++ "'");
  fs_readdir := fun p =>
    if p =? "/vault/.smart-env/multi"
    then Returned ["a.ajson"; "broken.ajson"; "README.txt"]
    else Thrown ("ENOENT: no such file or directory, scandir '" ++ p ++ "'")
|}.

(** A context on the four notes of [smallIndex]. *)
Definition smallContext : ToolContext :=
  {| config := vaultConfig;
     data := {| entries := smallIndex; modelInfo := microModel |} |}.

(** A search for the notes similar to [A.md], two at most. *)
Definition similarToA : SearchSimilarArgs :=
  {| similarNotePath := "A.md"; similarLimit := 2%float; similarThreshold := 0.3%float |}.

(** A comparator of strings by their code units: -1, 0 or 1. It stands in
    for [localeCompare] in the examples. *)
Definition codeUnitCompare (a b : string) : float :=
  match String.compare a b with
  | Lt => (-1)%float
  | Eq => 0%float
  | Gt => 1%float
  end.

Local Open Scope string_scope.

(** A record that marks the note [Gone.md] as deleted. *)
Definition recordGone : string := quoted "smart_sources:Gone.md" ++ ": null".

(** The text of a fragment with the record of [A.md] and then the mark of
    the deleted note. *)
Definition tombstoneText : string :=
  recordA ++ "," ++ newline ++ recordGone ++ "," ++ newline.

Definition parsedTombstone : JSValue :=
  JSObject [("smart_sources:A.md",
             JSObject [("embeddings",
                        JSObject [("TaylorAI/bge-micro-v2",
                                   JSObject [("vec", JSArray [JSNumber 1; JSNumber 0])])])]);
            ("smart_sources:Gone.md", JSNull)].

(** What JSON.parse answers on the repaired text of that fragment. *)
Definition tombstoneParse (text : string) : Outcome JSValue :=
  if text =? "{" ++ recordA ++ "," ++ newline ++ recordGone ++ "}"
  then Returned parsedTombstone
  else Thrown "SyntaxError: Unexpected end of JSON input".

(** A store whose one fragment is that text. *)
Definition tombstoneFs : FileSystem := {|
  fs_exists := fun p =>
    Returned (isOneOf p ["/vault/.smart-env/multi"; "/vault/.smart-env/multi/a.ajson"]);
  fs_realpath := fun p => Returned p;
  fs_stat := fun p =>
    if p =? "/vault/.smart-env/multi" then Returned directory else Returned regularFile;
  fs_readFile := fun p =>
    if p =? "/vault/.smart-env/multi/a.ajson" then Returned tombstoneText
    else Thrown ("ENOENT: no such file or directory, open '" ++ p ++ "'");
  fs_readdir := fun p =>
    if p =? "/vault/.smart-env/multi" then Returned ["a.ajson"]
    else Thrown ("ENOENT: no such file or directory, scandir '" ++ p ++ "'")
|}.

(** The entry the loader makes of the record of [A.md]. *)
Definition loadedA : string * EmbeddingEntry JSValue :=
  ("A.md", {| entryPath := "A.md"; embedding := [JSNumber 1; JSNumber 0]; blocks := None |}).

(** The text of [smart_env.json] in the vault of the examples, and what
    JSON.parse answers on it. *)
Definition smartEnvText : string :=
  "{" ++ quoted "smart_sources" ++ ": {" ++ quoted "embed_model" ++ ": {"
  ++ quoted "transformers" ++ ": {" ++ quoted "model_key" ++ ": "
  ++ quoted "TaylorAI/bge-micro-v2" ++ "}}}}".

Definition parsedSmartEnv : JSValue :=
  JSObject [("smart_sources",
             JSObject [("embed_model",
                        JSObject [("transformers",
                                   JSObject [("model_key",
                                              JSString "TaylorAI/bge-micro-v2")])])])].

Definition envParse (text : string) : Outcome JSValue :=
  if text =? smartEnvText then Returned parsedSmartEnv else fragmentParse text.

(** The store of the fragments, with the model descriptor. *)
Definition envFs : FileSystem := {|
  fs_exists := fun p =>
    if p =? "/vault/.smart-env/smart_env.json" then Returned true
    else fs_exists fragmentFs p;
  fs_realpath := fs_realpath fragmentFs;
  fs_stat := fs_stat fragmentFs;
  fs_readFile := fun p =>
    if p =? "/vault/.smart-env/smart_env.json" then Returned smartEnvText
    else fs_readFile fragmentFs p;
  fs_readdir := fs_readdir fragmentFs
|}.

(** The same search with the path written with two leading slashes. *)
Definition similarToSlashedA : SearchSimilarArgs :=
  {| similarNotePath := "//A.md"; similarLimit := 2%float; similarThreshold := 0.3%float |}.

(** A record whose [embeddings] is an array, read under the model key [0]. *)
Definition arrayRecord : JSValue :=
  JSObject [("embeddings", JSArray [JSObject [("vec", JSArray [JSNumber 1; JSNumber 0])]])].
(* ------------------------------------------------------------------ *)
(** * Vocabulary of the properties *)
(* ------------------------------------------------------------------ *)

Local Close Scope float_scope.
Local Open Scope string_scope.

(** The candidate passes the checks made on the string alone: it is not
    empty, not blank, not absolute, its normal form neither starts with
    [..] nor contains [..] before a separator, no part of it is hidden, and
    it ends in [.md]. *)
Definition passesStringChecks (nodePath : PathModule) (relativePath : string) : bool :=
  let trimmed := trim relativePath in
  let normalized := normalize nodePath trimmed in
  negb (relativePath =? "")
  && negb (String.length trimmed =? 0)%nat
  && negb (isAbsolute nodePath trimmed)
  && negb (startsWith normalized ".." || includes normalized (".." ++ sepString nodePath))
  && negb (existsb isHiddenPart (split (sep nodePath) normalized))
  && endsWith (toLowerCase normalized) ".md".

(** The path the guard hands to the file system. *)
Definition candidatePath (nodePath : PathModule) (config : Config) (relativePath : string) : string :=
  join nodePath (resolvedVaultPath config) (normalize nodePath (trim relativePath)).

(** [p] starts with the canonical root followed by the separator. *)
Definition insideVault (nodePath : PathModule) (config : Config) (p : string) : bool :=
  startsWith p (resolvedVaultPath config ++ sepString nodePath).

(** The checks of the guard that consult the file system, from the
    existence test on. *)
Definition resolveCandidate (nodePath : PathModule) (fs : FileSystem)
    (config : Config) (relativePath : string) : Eff ValidationResult :=
  (let fullPath := candidatePath nodePath config relativePath in
   r <- tryCatch
          (ex <- existsSync fs fullPath ;;
           if negb ex then ret (inl (invalid "Note not found"))
           else (resolved <- realpathSync fs fullPath ;; ret (inr resolved)))
          (fun _ => ret (inl (invalid "Cannot resolve path"))) ;;
   match r with
   | inl rejection => ret rejection
   | inr resolvedPath =>
       if negb (insideVault nodePath config resolvedPath) then
         logSecurityEvent "path_traversal_blocked" "symlink_escape"
           (sanitizeForLog (trim relativePath)) ;;;
         ret (invalid "Path resolves outside vault")
       else
         fileStats <- statSync fs resolvedPath ;;
         if negb (isFile fileStats) then ret (invalid "Path is not a file")
         else ret (validAt resolvedPath)
   end)%eff.

(** A rejection that was decided without any call to the file system. *)
Definition rejectedUnseen (m : Eff ValidationResult) : Prop :=
  exists t message, m = (t, Returned (invalid message)) /\ fsCalls t = [].


(** The sum of the squares of a vector, as the loop of [cosineSimilarity]
    accumulates it from [start]. *)
Definition squaresFrom (start : float) (v : list float) : float :=
  fold_left (fun acc x => (acc + x * x)%float) v start.

(** The dot product of two vectors, accumulated the same way. *)
Fixpoint dotFrom (start : float) (a b : list float) : float :=
  match a, b with
  | x :: a', y :: b' => dotFrom (start + x * y)%float a' b'
  | _, _ => start
  end.

(** The computed norm of a vector: the square root of the sum of squares. *)
Definition computedNorm (v : list float) : float := sqrt (squaresFrom 0%float v).

(** Every coordinate is a zero, of either sign. *)
Definition isZeroVector (v : list float) : Prop :=
  Forall (fun x => (x =? 0)%float = true) v.

(** The hit [hit] stands for an entry of the index that is not the excluded
    one, whose cosine with the query is at least the threshold, and shows
    that cosine rounded to three decimals. *)
Definition hitOf (nodePath : PathModule) (queryEmbedding : list float)
    (threshold : float) (excludePath : option string)
    (entries : JSMap (EmbeddingEntry float)) (hit : SearchResult) : Prop :=
  exists entry cosine,
    In (path hit, entry) entries
    /\ isExcluded excludePath (path hit) = false
    /\ cosineSimilarity queryEmbedding (embedding entry) = Returned cosine
    /\ (threshold <=? cosine)%float = true
    /\ title hit = extractTitle nodePath (path hit)
    /\ score hit = round3 cosine.

(** The comparator of [findSimilar] does not put [b] strictly before [a]. *)
Definition notRankedBefore (a b : SearchResult) : Prop :=
  (0 <? byScoreDescending a b)%float = false.

(** The hits that show the score [s], bit for bit. *)
Definition showing (s : float) (hits : list SearchResult) : list SearchResult :=
  filter (fun hit => PrimFloat.Leibniz.eqb (score hit) s) hits.

(** The message of the error [cosineSimilarity] throws on the lengths [a]
    and [b]. *)
Definition dimensionMismatch (a b : nat) : string :=
  "Vector dimension mismatch: " ++ showNat a ++ " vs " ++ showNat b.

(** The entry [kv] takes part in the comparison and its vector has not the
    length of the query. *)
Definition mismatches (queryEmbedding : list float) (excludePath : option string)
    (kv : string * EmbeddingEntry float) : Prop :=
  isExcluded excludePath (fst kv) = false
  /\ List.length (embedding (snd kv)) <> List.length queryEmbedding.



(** The index after the fragment [file]: its entries merged in when
    [parseAjsonFile] returns them, the index as it was when it throws. *)
Definition afterFragment (nodePath : PathModule) (fs : FileSystem)
    (JSON_parse : string -> Outcome JSValue) (multiPath modelKey : string)
    (entries : JSMap (EmbeddingEntry JSValue)) (file : string)
    : JSMap (EmbeddingEntry JSValue) :=
  match outcome (parseAjsonFile fs JSON_parse (join nodePath multiPath file) modelKey) with
  | Returned fileEntries => mergeEntries fileEntries entries
  | Thrown _ => entries
  end.

(** The binary64 value [r] is NaN or carries the sign [s]. *)
Definition signedAs (s : bool) (r : spec_float) : Prop :=
  r = S754_nan \/ r = S754_zero s \/ r = S754_infinity s
  \/ exists m e, r = S754_finite s m e.

(** The code unit [c] is a control character: below 32, or 127. *)
Definition isControl (c : ascii) : bool :=
  ((nat_of_ascii c <=? 31) || (nat_of_ascii c =? 127))%nat.

(** The event [ev] is a line of the security log about the candidate
    [relativePath]: a blocked traversal, under one of the four reasons, with
    the sanitized candidate. *)
Definition securityLine (relativePath : string) (ev : Event) : Prop :=
  exists reason,
    In reason ["absolute_path"; "dot_dot"; "hidden_path"; "symlink_escape"]
    /\ ev = SecurityLog "security:path_traversal_blocked" reason
              (sanitizeForLog (trim relativePath)).

(** The home directory [validateConfig] compares the root with. *)
Definition homeDirectory (home : option string) : string :=
  match home with
  | None | Some "" => "/"
  | Some h => h
  end.

(** The string is empty or starts with a code unit that is not white
    space. *)
Definition startsInk (s : string) : Prop :=
  match s with
  | EmptyString => True
  | String c _ => isWhiteSpace c = false
  end.

(** The listing keeps the note [notePath] under the pattern [pattern]. *)
Definition listedUnder (pattern : option string) (notePath : string) : bool :=
  negb (filteredOut pattern notePath).

(** The listed note has the title of its path. *)
Definition titled (nodePath : PathModule) (note : ListedNote) : Prop :=
  listedTitle note = extractTitle nodePath (listedPath note).

(** The entry of the index sits under its own path, and this path names a
    note, not a block of a note. *)
Definition keyedByPath (kv : string * EmbeddingEntry JSValue) : Prop :=
  entryPath (snd kv) = fst kv /\ includes (fst kv) "#" = false.

(** The read of the fragment [file] of the directory [multiPath]. *)
Definition fragmentRead (nodePath : PathModule) (multiPath file : string) : Event :=
  FsReadFile (join nodePath multiPath file).

(** The record [(fullKey, value)] is indexed under [notePath] with the
    vector [vec]: its key is [smart_sources:] followed by a path without
    [#], its value is an object, and the read [embeddings[modelKey]] of its
    property [embeddings] (an own property of an object, or the element of
    an array when the model key is an index) is an object that holds the
    array [vec] under [vec]. *)
Definition vectorRecord (modelKey fullKey : string) (value : JSValue)
    (notePath : string) (vec : list JSValue) : Prop :=
  fullKey = "smart_sources:" ++ notePath
  /\ includes notePath "#" = false
  /\ exists properties embeddings modelData,
       value = JSObject properties
       /\ lookupProperty "embeddings" properties = Some embeddings
       /\ getProperty embeddings modelKey = Returned (Some (JSObject modelData))
       /\ lookupProperty "vec" modelData = Some (JSArray vec).
(* ------------------------------------------------------------------ *)
(** * The path guard *)
(* ------------------------------------------------------------------ *)

(** The goal is a rejection the guard returns on the spot. *)
Ltac rejected_on_the_spot := intros _; eexists _, _; split; reflexivity.

Section PathGuard.

Variable nodePath : PathModule.
Variable fs : FileSystem.
Variable config : Config.

(** A candidate the lexical checks turn down is rejected before the file
    system is consulted. *)
Lemma validateNotePath_lexical_rejection (relativePath : string) :
  passesStringChecks nodePath relativePath = false ->
  rejectedUnseen (validateNotePath nodePath fs config relativePath).
Proof.
  unfold passesStringChecks, validateNotePath, rejectedUnseen.
  set (trimmed := trim relativePath).
  set (normalized := normalize nodePath trimmed).
  destruct (relativePath =? "");
    [rejected_on_the_spot|].
  destruct (String.length trimmed =? 0)%nat;
    [rejected_on_the_spot|].
  destruct (isAbsolute nodePath trimmed);
    [rejected_on_the_spot|].
  destruct (startsWith normalized ".." || includes normalized (".." ++ sepString nodePath));
    [rejected_on_the_spot|].
  destruct (existsb isHiddenPart (split (sep nodePath) normalized));
    [rejected_on_the_spot|].
  destruct (endsWith (toLowerCase normalized) ".md");
    [discriminate|].
  rejected_on_the_spot.
Qed.

(** A candidate the lexical checks let through is decided by the checks on
    the file system. *)
Lemma validateNotePath_lexical_pass (relativePath : string) :
  passesStringChecks nodePath relativePath = true ->
  validateNotePath nodePath fs config relativePath
  = resolveCandidate nodePath fs config relativePath.
Proof.
  unfold passesStringChecks, validateNotePath, resolveCandidate, candidatePath, insideVault.
  set (trimmed := trim relativePath).
  set (normalized := normalize nodePath trimmed).
  destruct (relativePath =? ""); [discriminate|].
  destruct (String.length trimmed =? 0)%nat; [discriminate|].
  destruct (isAbsolute nodePath trimmed); [discriminate|].
  destruct (startsWith normalized ".." || includes normalized (".." ++ sepString nodePath));
    [discriminate|].
  destruct (existsb isHiddenPart (split (sep nodePath) normalized)); [discriminate|].
  destruct (endsWith (toLowerCase normalized) ".md"); [|discriminate].
  reflexivity.
Qed.

(** What the file-system checks answer, case by case. *)
Lemma resolveCandidate_cases (relativePath : string) :
  let fullPath := candidatePath nodePath config relativePath in
  let m := outcome (resolveCandidate nodePath fs config relativePath) in
  match fs_exists fs fullPath with
  | Thrown _ => m = Returned (invalid "Cannot resolve path")
  | Returned false => m = Returned (invalid "Note not found")
  | Returned true =>
      match fs_realpath fs fullPath with
      | Thrown _ => m = Returned (invalid "Cannot resolve path")
      | Returned rp =>
          if insideVault nodePath config rp then
            match fs_stat fs rp with
            | Thrown e => m = Thrown e
            | Returned st =>
                m = Returned (if isFile st then validAt rp else invalid "Path is not a file")
            end
          else m = Returned (invalid "Path resolves outside vault")
      end
  end.
Proof.
  unfold resolveCandidate, existsSync, realpathSync, statSync; simpl.
  destruct (fs_exists fs (candidatePath nodePath config relativePath)) as [[|]|e]; simpl;
    try reflexivity.
  destruct (fs_realpath fs (candidatePath nodePath config relativePath)) as [rp|e]; simpl;
    try reflexivity.
  destruct (insideVault nodePath config rp); simpl; try reflexivity.
  destruct (fs_stat fs rp) as [st|e]; simpl; try reflexivity.
  destruct (isFile st); reflexivity.
Qed.

End PathGuard.

(** C1. When the guard answers valid, the path it returns is the real path
    the file system resolved the candidate to, and that path starts with the
    canonical root followed by the separator. A candidate whose real path
    lies outside the canonical root is rejected, as a returned outcome; a
    candidate that passes the checks on the string and resolves to a regular
    file inside the root is accepted with that real path. *)
Theorem validateNotePath_symlink_confinement
    (nodePath : PathModule) (fs : FileSystem) (config : Config) (relativePath : string) :
  let fullPath := candidatePath nodePath config relativePath in
  let answer := outcome (validateNotePath nodePath fs config relativePath) in
  (forall r, answer = Returned r -> valid r = true ->
     exists rp, resolvedPath r = Some rp
                /\ fs_realpath fs fullPath = Returned rp
                /\ insideVault nodePath config rp = true)
  /\ (forall rp, fs_realpath fs fullPath = Returned rp ->
        insideVault nodePath config rp = false ->
        exists message, answer = Returned (invalid message))
  /\ (forall rp st, passesStringChecks nodePath relativePath = true ->
        fs_exists fs fullPath = Returned true ->
        fs_realpath fs fullPath = Returned rp ->
        insideVault nodePath config rp = true ->
        fs_stat fs rp = Returned st ->
        isFile st = true ->
        answer = Returned (validAt rp)).
Proof.
  intros fullPath answer. subst answer.
  destruct (passesStringChecks nodePath relativePath) eqn:Hlex.
  - rewrite (validateNotePath_lexical_pass nodePath fs config relativePath Hlex).
    pose proof (resolveCandidate_cases nodePath fs config relativePath) as Hc.
    cbv zeta in Hc. fold fullPath in Hc.
    repeat split.
    + intros r Hr Hv.
      destruct (fs_exists fs fullPath) as [[|]|e];
        try (rewrite Hc in Hr; inversion Hr; subst r; discriminate).
      destruct (fs_realpath fs fullPath) as [rp|e];
        try (rewrite Hc in Hr; inversion Hr; subst r; discriminate).
      destruct (insideVault nodePath config rp) eqn:Hin;
        try (rewrite Hc in Hr; inversion Hr; subst r; discriminate).
      destruct (fs_stat fs rp) as [st|e]; rewrite Hc in Hr; try discriminate.
      destruct (isFile st); inversion Hr; subst r; try discriminate.
      exists rp. repeat split; auto.
    + intros rp Hrp Hout.
      destruct (fs_exists fs fullPath) as [[|]|e]; try (eexists; exact Hc).
      rewrite Hrp in Hc. rewrite Hout in Hc. eexists; exact Hc.
    + intros rp st _ Hex Hrp Hin Hst Hfile.
      rewrite Hex, Hrp, Hin, Hst, Hfile in Hc. exact Hc.
  - destruct (validateNotePath_lexical_rejection nodePath fs config relativePath Hlex)
      as (t & message & Heq & _).
    rewrite Heq. unfold outcome; simpl.
    repeat split.
    + intros r Hr Hv. inversion Hr; subst r. discriminate.
    + intros. eexists; reflexivity.
    + intros; discriminate.
Qed.

(** On the vault of the examples: the link [link.md] to [notes/a.md] is
    accepted with the real path, and the link [escape.md] to [/etc/passwd]
    is rejected. *)
Lemma validateNotePath_symlink_confinement_witness :
  outcome (validateNotePath posix vaultFs vaultConfig "link.md")
  = Returned (validAt "/vault/notes/a.md")
  /\ (exists rp,
        fs_realpath vaultFs "/vault/link.md" = Returned rp
        /\ insideVault posix vaultConfig rp = true)
  /\ exists message,
       outcome (validateNotePath posix vaultFs vaultConfig "escape.md")
       = Returned (invalid message).
Proof.
  split; [|split].
  - apply (proj2 (proj2 (validateNotePath_symlink_confinement
                           posix vaultFs vaultConfig "link.md"))
             "/vault/notes/a.md" regularFile); reflexivity.
  - destruct (proj1 (validateNotePath_symlink_confinement
                       posix vaultFs vaultConfig "link.md")
                (validAt "/vault/notes/a.md") eq_refl eq_refl)
      as (rp & _ & Hreal & Hinside).
    exists rp. split; [exact Hreal | exact Hinside].
  - apply (proj1 (proj2 (validateNotePath_symlink_confinement
                           posix vaultFs vaultConfig "escape.md"))
             "/etc/passwd"); reflexivity.
Defined.

(** A candidate that is absolute once trimmed, or whose normal form keeps a
    [..], does not pass the checks on the string. *)
Lemma traversal_fails_string_checks (nodePath : PathModule) (relativePath : string) :
  isAbsolute nodePath (trim relativePath) = true
  \/ startsWith (normalize nodePath (trim relativePath)) ".." = true
  \/ includes (normalize nodePath (trim relativePath)) (".." ++ sepString nodePath) = true ->
  passesStringChecks nodePath relativePath = false.
Proof.
  intros H. unfold passesStringChecks.
  destruct H as [H | [H | H]]; rewrite H;
    repeat rewrite ?andb_false_r, ?andb_false_l, ?orb_true_r, ?orb_true_l; simpl;
    repeat rewrite ?andb_false_r, ?andb_false_l; reflexivity.
Qed.

(** C2, as the guard does it. A candidate whose trimmed form is absolute,
    or whose normal form still starts with [..] or contains [..] before a
    separator, is rejected and no call to the file system is made. *)
Theorem validateNotePath_traversal_rejected_unseen
    (nodePath : PathModule) (fs : FileSystem) (config : Config) (relativePath : string) :
  isAbsolute nodePath (trim relativePath) = true
  \/ startsWith (normalize nodePath (trim relativePath)) ".." = true
  \/ includes (normalize nodePath (trim relativePath)) (".." ++ sepString nodePath) = true ->
  rejectedUnseen (validateNotePath nodePath fs config relativePath).
Proof.
  intros H. apply validateNotePath_lexical_rejection.
  apply traversal_fails_string_checks. exact H.
Qed.

Lemma validateNotePath_traversal_rejected_unseen_witness :
  rejectedUnseen (validateNotePath posix vaultFs vaultConfig "../../etc/passwd")
  /\ rejectedUnseen (validateNotePath posix vaultFs vaultConfig "/etc/passwd").
Proof.
  split.
  - apply validateNotePath_traversal_rejected_unseen. right; left; reflexivity.
  - apply validateNotePath_traversal_rejected_unseen. left; reflexivity.
Defined.

(** C2 fails as stated: [notes/../b.md] contains [../], its normal form is
    [b.md], and the guard asks the file system three times and accepts. *)
Lemma traversal_cancelled_inside_vault_reaches_fs :
  includes "notes/../b.md" "../" = true
  /\ validateNotePath posix vaultFs vaultConfig "notes/../b.md"
     = ([FsExists "/vault/b.md"; FsRealpath "/vault/b.md"; FsStat "/vault/b.md"],
        Returned (validAt "/vault/b.md")).
Proof. split; reflexivity. Qed.

(** C3 fails on the code: [statSync] is called after the [try] block. When
    the note is unlinked between [realpathSync] and [statSync], the error
    of [statSync] leaves the guard, and [handleGetNote], as a thrown error
    that carries the path. *)
Lemma validateNotePath_stat_error_escapes :
  validateNotePath posix racyFs vaultConfig "notes/a.md"
  = ([FsExists "/vault/notes/a.md"; FsRealpath "/vault/notes/a.md";
      FsStat "/vault/notes/a.md"],
     Thrown "ENOENT: no such file or directory, stat '/vault/notes/a.md'")
  /\ outcome (handleGetNote posix racyFs (ParseSuccess "notes/a.md") vaultContext)
     = Thrown "ENOENT: no such file or directory, stat '/vault/notes/a.md'".
Proof. split; reflexivity. Qed.

(** The errors of the two calls inside the [try] block are rejections. *)
Lemma validateNotePath_try_block_fails_closed
    (nodePath : PathModule) (fs : FileSystem) (config : Config) (relativePath : string) :
  (exists e, fs_exists fs (candidatePath nodePath config relativePath) = Thrown e)
  \/ (exists e, fs_realpath fs (candidatePath nodePath config relativePath) = Thrown e) ->
  exists message,
    outcome (validateNotePath nodePath fs config relativePath) = Returned (invalid message).
Proof.
  intros H.
  destruct (passesStringChecks nodePath relativePath) eqn:Hlex.
  - rewrite (validateNotePath_lexical_pass nodePath fs config relativePath Hlex).
    pose proof (resolveCandidate_cases nodePath fs config relativePath) as Hc.
    cbv zeta in Hc.
    destruct (fs_exists fs (candidatePath nodePath config relativePath)) as [[|]|e0];
      try (eexists; exact Hc).
    destruct H as [[e H] | [e H]]; [discriminate|].
    rewrite H in Hc. eexists; exact Hc.
  - destruct (validateNotePath_lexical_rejection nodePath fs config relativePath Hlex)
      as (t & message & Heq & _).
    rewrite Heq. eexists; reflexivity.
Qed.

(** ** Leading traversal under POSIX *)

Lemma startsWith_prefix (s p : string) :
  startsWith s p = true -> exists rest, s = p ++ rest.
Proof.
  revert s. induction p as [|a p IH]; intros s H.
  - exists s. reflexivity.
  - destruct s as [|b s]; simpl in H; [discriminate|].
    apply andb_true_iff in H. destruct H as [Hab Hs].
    apply Ascii.eqb_eq in Hab. subst b.
    destruct (IH s Hs) as [rest ->]. exists rest. reflexivity.
Qed.

(** Once [..] is the first kept segment it stays: nothing removes it. *)
Lemma normalizeSegments_keeps_leading_dotdot (segs : list string) :
  forall kept, exists kept',
    normalizeSegments true segs (kept ++ [".."])%list = (kept' ++ [".."])%list.
Proof.
  induction segs as [|seg segs IH]; intros kept; simpl.
  - exists kept. reflexivity.
  - destruct ((seg =? "") || (seg =? ".")); [apply IH|].
    destruct (seg =? "..").
    + destruct kept as [|last kept]; simpl.
      * apply (IH [".."]).
      * destruct (last =? "..").
        -- apply (IH (".." :: last :: kept)).
        -- apply IH.
    + apply (IH (seg :: kept)).
Qed.

Lemma posix_normalize_leading_dotdot (rest : string) :
  startsWith (posix_normalize ("../" ++ rest)) ".." = true.
Proof.
  unfold posix_normalize.
  change (("../" ++ rest) =? "") with false.
  change (startsWith ("../" ++ rest) "/") with false.
  cbv iota.
  assert (Hsplit : split "/" ("../" ++ rest) = ".." :: split "/" rest).
  { simpl. destruct (split "/" rest); reflexivity. }
  rewrite Hsplit. simpl negb.
  change (normalizeSegments true (".." :: split "/" rest) [])
    with (normalizeSegments true (split "/" rest) ([] ++ [".."])%list).
  destruct (normalizeSegments_keeps_leading_dotdot (split "/" rest) []) as [kept' ->].
  rewrite rev_app_distr. simpl rev. simpl app.
  destruct (rev kept') as [|k ks]; simpl joinWith.
  - change (".." =? "") with false. cbv iota.
    match goal with |- context [endsWith ?a ?b] => destruct (endsWith a b) end;
      reflexivity.
  - change ((".." ++ "/" ++ joinWith "/" (k :: ks)) =? "") with false.
    cbv iota.
    match goal with |- context [endsWith ?a ?b] => destruct (endsWith a b) end;
      reflexivity.
Qed.

(** Under POSIX every candidate that, once trimmed, begins with [../] is
    rejected without a call to the file system, whatever follows. *)
Lemma posix_leading_traversal_rejected_unseen
    (fs : FileSystem) (config : Config) (relativePath : string) :
  startsWith (trim relativePath) "../" = true ->
  rejectedUnseen (validateNotePath posix fs config relativePath).
Proof.
  intros H. apply validateNotePath_lexical_rejection.
  apply traversal_fails_string_checks. right; left.
  destruct (startsWith_prefix _ _ H) as [rest ->].
  apply posix_normalize_leading_dotdot.
Qed.

(** The configuration of the examples is the one [validateConfig] builds
    for [/vault], and the model of the examples has 384 dimensions. *)
Lemma vaultConfig_validated :
  outcome (validateConfig posix vaultFs "/" (Some "/home/user") (Some "/vault"))
  = Returned vaultConfig
  /\ outcome (getModelDimensions (modelKey microModel)) = Returned (dimensions microModel).
Proof. split; reflexivity. Qed.

(* ------------------------------------------------------------------ *)
(** * The query vector *)
(* ------------------------------------------------------------------ *)

Local Open Scope string_scope.

(** The loop of [validateEmbedding] stops at the first element that is not
    a finite number, and when it stops nowhere every element is one. *)
Lemma firstInvalidIndex_first (items : list JSValue) :
  forall start,
    match firstInvalidIndex start items with
    | Some j =>
        exists k, j = start + k
                  /\ (exists v, nth_error items k = Some v /\ isInvalidCoordinate v = true)
                  /\ (forall k' v', k' < k -> nth_error items k' = Some v' ->
                                    isInvalidCoordinate v' = false)
    | None => Forall (fun v => isInvalidCoordinate v = false) items
    end.
Proof.
  induction items as [|v items IH]; intros start; simpl.
  - constructor.
  - destruct (isInvalidCoordinate v) eqn:Hv.
    + exists 0. repeat split.
      * lia.
      * exists v. split; [reflexivity | exact Hv].
      * intros k' v' Hk. lia.
    + specialize (IH (S start)).
      destruct (firstInvalidIndex (S start) items) as [j|].
      * destruct IH as (k & Hj & (w & Hw & Hbad) & Hbefore).
        exists (S k). repeat split.
        -- lia.
        -- exists w. split; assumption.
        -- intros [|k'] v' Hk Hn; simpl in Hn.
           ++ inversion Hn; subst v'. exact Hv.
           ++ apply (Hbefore k' v'); [lia | exact Hn].
      * constructor; assumption.
Qed.

Lemma firstInvalidIndex_none_inv (items : list JSValue) (start : nat) :
  firstInvalidIndex start items = None ->
  exists coords, items = map JSNumber coords /\ Forall (fun c => is_finite c = true) coords.
Proof.
  revert start. induction items as [|v items IH]; intros start H; simpl in H.
  - exists []. split; constructor.
  - destruct (isInvalidCoordinate v) eqn:Hv; [discriminate|].
    destruct (IH _ H) as (coords & -> & Hall).
    destruct v as [| |x| | |]; simpl in Hv; try discriminate.
    exists (x :: coords). split; [reflexivity|].
    constructor; [|exact Hall].
    destruct (is_finite x); [reflexivity | discriminate].
Qed.

Lemma nth_error_map_JSNumber (items : list float) (k : nat) (v : JSValue) :
  nth_error (map JSNumber items) k = Some v ->
  exists y, nth_error items k = Some y /\ v = JSNumber y.
Proof.
  rewrite nth_error_map. destruct (nth_error items k) as [y|]; simpl; intros H.
  - inversion H. exists y. split; reflexivity.
  - discriminate.
Qed.

(** C10. An array of numbers of the expected length that holds a value that
    is not finite (NaN, +Infinity or -Infinity) at the index [i] is answered
    with an invalid outcome that names the index of the first such value,
    which is [i] when no earlier element is one, and the handler of the
    vector search returns that message as an error result; a valid outcome
    is only given to an array of the expected length whose elements are all
    finite numbers. *)
Theorem validateEmbedding_rejects_non_finite
    (items : list float) (expectedDimensions i : nat) (x : float) :
  List.length items = expectedDimensions ->
  nth_error items i = Some x ->
  is_finite x = false ->
  (exists j,
      j <= i
      /\ ((forall k y, k < i -> nth_error items k = Some y -> is_finite y = true) -> j = i)
      /\ (exists y, nth_error items j = Some y /\ is_finite y = false)
      /\ (forall k y, k < j -> nth_error items k = Some y -> is_finite y = true)
      /\ validateEmbedding (JSArray (map JSNumber items)) expectedDimensions
         = invalid ("Invalid value at index " ++ showNat j)
      /\ forall nodePath ctx limit threshold,
           dimensions (modelInfo (data ctx)) = expectedDimensions ->
           handleSearchByEmbedding nodePath
             (ParseSuccess {| queryEmbedding := items;
                              queryLimit := limit;
                              queryThreshold := threshold |}) ctx
           = ([], Returned (errorResult ("Invalid value at index " ++ showNat j))))
  /\ (forall embedding dims,
        valid (validateEmbedding embedding dims) = true ->
        exists coords,
          embedding = JSArray (map JSNumber coords)
          /\ List.length coords = dims
          /\ Forall (fun c => is_finite c = true) coords).
Proof.
  intros Hlen Hnth Hx. split.
  - assert (Hval : exists j,
               j <= i
               /\ (exists y, nth_error items j = Some y /\ is_finite y = false)
               /\ (forall k y, k < j -> nth_error items k = Some y -> is_finite y = true)
               /\ validateEmbedding (JSArray (map JSNumber items)) expectedDimensions
                  = invalid ("Invalid value at index " ++ showNat j)).
    { unfold validateEmbedding. rewrite length_map, Hlen, Nat.eqb_refl. simpl negb. cbv iota.
      pose proof (firstInvalidIndex_first (map JSNumber items) 0) as Hfirst.
      destruct (firstInvalidIndex 0 (map JSNumber items)) as [j|].
      - destruct Hfirst as (k & Hj & (v & Hv & Hbad) & Hbefore). simpl in Hj. subst k.
        exists j. repeat split.
        + destruct (Nat.le_gt_cases j i) as [Hle|Hgt]; [exact Hle|].
          exfalso.
          assert (Hi : nth_error (map JSNumber items) i = Some (JSNumber x))
            by (rewrite nth_error_map, Hnth; reflexivity).
          specialize (Hbefore i (JSNumber x) Hgt Hi). simpl in Hbefore.
          rewrite Hx in Hbefore. discriminate.
        + destruct (nth_error_map_JSNumber _ _ _ Hv) as (y & Hy & ->).
          exists y. split; [exact Hy|]. simpl in Hbad.
          destruct (is_finite y); [discriminate | reflexivity].
        + intros k y Hk Hy.
          assert (Hk' : nth_error (map JSNumber items) k = Some (JSNumber y))
            by (rewrite nth_error_map, Hy; reflexivity).
          specialize (Hbefore k (JSNumber y) Hk Hk'). simpl in Hbefore.
          destruct (is_finite y); [reflexivity | discriminate].
      - exfalso. rewrite Forall_forall in Hfirst.
        assert (Hin : In (JSNumber x) (map JSNumber items)).
        { apply in_map. eapply nth_error_In; exact Hnth. }
        specialize (Hfirst _ Hin). simpl in Hfirst. rewrite Hx in Hfirst. discriminate. }
    destruct Hval as (j & Hle & Hbad & Hbefore & Hval).
    exists j. split; [exact Hle|]. split.
    { intros Hfirst. destruct (Nat.eq_dec j i) as [Heq|Hne]; [exact Heq|].
      exfalso. destruct Hbad as (y & Hy & Hinf).
      assert (Hlt : j < i) by lia.
      rewrite (Hfirst j y Hlt Hy) in Hinf. discriminate. }
    split; [exact Hbad|]. split; [exact Hbefore|]. split; [exact Hval|].
    intros nodePath ctx limit threshold Hdims.
    unfold handleSearchByEmbedding. simpl queryEmbedding.
    rewrite Hdims, Hval. reflexivity.
  - intros embedding dims Hvalid. unfold validateEmbedding in Hvalid.
    destruct embedding as [| | | |elements|]; try discriminate.
    destruct (List.length elements =? dims)%nat eqn:Hl; simpl in Hvalid; [|discriminate].
    destruct (firstInvalidIndex 0 elements) eqn:Hf; [discriminate|].
    destruct (firstInvalidIndex_none_inv _ _ Hf) as (coords & -> & Hall).
    exists coords. repeat split; [|exact Hall].
    apply Nat.eqb_eq in Hl. rewrite length_map in Hl. exact Hl.
Qed.

(** A query of three coordinates whose second is NaN and whose third is
    +Infinity: the outcome names index 1. *)
Lemma validateEmbedding_rejects_non_finite_witness :
  exists j,
    j <= 2
    /\ validateEmbedding (JSArray (map JSNumber [1; nan; infinity]%float)) 3
       = invalid ("Invalid value at index " ++ showNat j).
Proof.
  destruct (validateEmbedding_rejects_non_finite [1; nan; infinity]%float 3 2 infinity
              eq_refl eq_refl eq_refl) as [(j & Hle & _ & _ & _ & Hval & _) _].
  exists j. split; assumption.
Defined.

(* ------------------------------------------------------------------ *)
(** * Reading a note *)
(* ------------------------------------------------------------------ *)

(** For text of code units below 128 the length is the number of bytes. *)
Lemma utf8ByteLength_ascii (s : string) :
  (forall c, In c (list_ascii_of_string s) -> nat_of_ascii c < 128) ->
  utf8ByteLength s = String.length s.
Proof.
  induction s as [|c s IH]; intros H; simpl.
  - reflexivity.
  - assert (Hc : nat_of_ascii c < 128) by (apply H; left; reflexivity).
    apply Nat.ltb_lt in Hc. rewrite Hc.
    rewrite IH; [reflexivity|].
    intros c' Hin. apply H. right. exact Hin.
Qed.

(** The answer of [handleGetNote] once the guard has accepted the path. *)
Lemma handleGetNote_after_guard
    (nodePath : PathModule) (fs : FileSystem) (ctx : ToolContext)
    (notePath : string) (t : list Event) (v : ValidationResult) (p : string) :
  validateNotePath nodePath fs (config ctx) notePath = (t, Returned v) ->
  valid v = true ->
  resolvedPath v = Some p ->
  outcome (handleGetNote nodePath fs (ParseSuccess notePath) ctx)
  = match fs_readFile fs p with
    | Thrown _ => Returned (errorResult "Failed to read note")
    | Returned content =>
        let cap := maxContentLength (limits (config ctx)) in
        Returned (successResult
          (NotePayload notePath (extractTitle nodePath notePath)
             (if (cap <? String.length content)%nat
              then slice0 cap content ++ truncationMarker
              else content)))
    end.
Proof.
  intros Hguard Hvalid Hpath.
  unfold handleGetNote. rewrite Hguard. unfold bind at 1.
  rewrite Hvalid, Hpath. simpl negb. cbv iota.
  unfold readFileSync.
  destruct (fs_readFile fs p) as [content|e]; reflexivity.
Qed.

(** The read of a note, as the handler does it. Once the guard has accepted
    the path: a failed read is answered with the fixed message
    [Failed to read note], whatever the error of the file system says; text
    longer than the cap, counted in code units, comes back as its first
    [maxContentLength] code units followed by the marker; shorter text comes
    back whole. *)
Theorem handleGetNote_truncates_by_length
    (nodePath : PathModule) (fs : FileSystem) (ctx : ToolContext)
    (notePath : string) (t : list Event) (v : ValidationResult) (p : string) :
  validateNotePath nodePath fs (config ctx) notePath = (t, Returned v) ->
  valid v = true ->
  resolvedPath v = Some p ->
  let cap := maxContentLength (limits (config ctx)) in
  let answer := outcome (handleGetNote nodePath fs (ParseSuccess notePath) ctx) in
  (forall e, fs_readFile fs p = Thrown e ->
     answer = Returned (errorResult "Failed to read note"))
  /\ (forall content, fs_readFile fs p = Returned content ->
        cap < String.length content ->
        answer = Returned (successResult
                   (NotePayload notePath (extractTitle nodePath notePath)
                      (slice0 cap content ++ truncationMarker))))
  /\ (forall content, fs_readFile fs p = Returned content ->
        String.length content <= cap ->
        answer = Returned (successResult
                   (NotePayload notePath (extractTitle nodePath notePath) content))).
Proof.
  intros Hguard Hvalid Hpath cap answer. subst answer.
  rewrite (handleGetNote_after_guard nodePath fs ctx notePath t v p Hguard Hvalid Hpath).
  split; [|split].
  - intros e He. rewrite He. reflexivity.
  - intros content Hc Hlen. rewrite Hc. cbv zeta. fold cap.
    apply Nat.ltb_lt in Hlen. rewrite Hlen. reflexivity.
  - intros content Hc Hlen. rewrite Hc. cbv zeta. fold cap.
    apply Nat.ltb_ge in Hlen. rewrite Hlen. reflexivity.
Qed.

(** On the vault of the examples: [locked.md] cannot be opened and the
    answer does not repeat the error; [long.md] is one letter over the cap
    and is cut to 10240 letters plus the marker. *)
Lemma handleGetNote_truncates_by_length_witness :
  outcome (handleGetNote posix vaultFs (ParseSuccess "locked.md") vaultContext)
  = Returned (errorResult "Failed to read note")
  /\ outcome (handleGetNote posix vaultFs (ParseSuccess "long.md") vaultContext)
     = Returned (successResult
                   (NotePayload "long.md" (extractTitle posix "long.md")
                      (slice0 10240 longText ++ truncationMarker))).
Proof.
  split.
  - apply (proj1 (handleGetNote_truncates_by_length posix vaultFs vaultContext
                    "locked.md" _ _ "/vault/locked.md" eq_refl eq_refl eq_refl)
             "EACCES: permission denied, open '/vault/locked.md'").
    reflexivity.
  - apply (proj1 (proj2 (handleGetNote_truncates_by_length posix vaultFs vaultContext
                    "long.md" _ _ "/vault/long.md" eq_refl eq_refl eq_refl))
             longText).
    + reflexivity.
    + apply Nat.ltb_lt. vm_compute. reflexivity.
Defined.

(** C9. The cap is a size in bytes ([maxContentLength: 10240], 10KB per
    note, says the configuration), and the handler compares it with the
    number of code units of the decoded text: the note [accents.md] holds
    10242 bytes, more than the cap of 10240, in 5121 code units, and comes
    back whole, without the marker. *)
Lemma accented_note_over_byte_cap_not_truncated :
  maxContentLength (limits (config vaultContext)) = 10240
  /\ utf8ByteLength accentedText = 10242
  /\ String.length accentedText = 5121
  /\ fs_readFile vaultFs "/vault/accents.md" = Returned accentedText
  /\ outcome (handleGetNote posix vaultFs (ParseSuccess "accents.md") vaultContext)
     = Returned (successResult (NotePayload "accents.md" "accents" accentedText)).
Proof. repeat split; vm_compute; reflexivity. Qed.

(* ------------------------------------------------------------------ *)
(** * Facts of binary64 arithmetic *)
(* ------------------------------------------------------------------ *)

Section Binary64.

Local Open Scope float_scope.

(** The product does not depend on the order of its factors. *)
Lemma float_mul_comm (x y : float) : x * y = y * x.
Proof.
  apply Prim2SF_inj. rewrite !mul_spec. unfold SF64mul, SFmul.
  destruct (Prim2SF x) as [sx|sx| |sx mx ex], (Prim2SF y) as [sy|sy| |sy my ey];
    try reflexivity; try (rewrite xorb_comm; reflexivity).
  rewrite xorb_comm, Pos.mul_comm, Z.add_comm. reflexivity.
Qed.

Lemma binary_round_aux_signed (s : bool) (m e : Z) (l : location) :
  signedAs s (binary_round_aux prec emax s m e l).
Proof.
  unfold signedAs, binary_round_aux.
  destruct (shr_fexp prec emax m e l) as [mrs e'].
  destruct (shr_fexp prec emax _ e' loc_Exact) as [mrs' e''].
  destruct (shr_m mrs') as [|q|q].
  - right; left; reflexivity.
  - destruct (e'' <=? emax - prec)%Z.
    + right; right; right. eexists _, _. reflexivity.
    + right; right; left; reflexivity.
  - left; reflexivity.
Qed.

Lemma binary_round_signed (s : bool) (m : positive) (e : Z) :
  signedAs s (binary_round prec emax s m e).
Proof.
  unfold binary_round.
  destruct (shl_align m e _) as [mz ez]. apply binary_round_aux_signed.
Qed.

Lemma signedAs_negative_not_positive (r : spec_float) :
  signedAs true r -> SFltb (S754_zero false) r = false.
Proof.
  intros [-> | [-> | [-> | (m & e & ->)]]]; reflexivity.
Qed.

Lemma binary_normalize_positive (d e : Z) :
  SFltb (S754_zero false) (binary_normalize prec emax d e false) = true ->
  (0 < d)%Z.
Proof.
  destruct d as [|q|q]; simpl; intros H.
  - discriminate.
  - lia.
  - rewrite (signedAs_negative_not_positive _ (binary_round_signed true q e)) in H.
    discriminate.
Qed.

Lemma binary_normalize_negative (d e : Z) :
  (d < 0)%Z ->
  SFltb (S754_zero false) (binary_normalize prec emax d e false) = false.
Proof.
  destruct d as [|q|q]; simpl; intros H; try lia.
  apply signedAs_negative_not_positive, binary_round_signed.
Qed.

Lemma SFsub_positive_asym (x y : spec_float) :
  SFltb (S754_zero false) (SFsub prec emax x y) = true ->
  SFltb (S754_zero false) (SFsub prec emax y x) = false.
Proof.
  destruct x as [[|]|[|]| |sx mx ex], y as [[|]|[|]| |sy my ey];
    try (cbv [SFsub SFltb SFcompare negb]; congruence);
    try (destruct sx; cbv [SFsub SFltb SFcompare negb]; congruence);
    try (destruct sy; cbv [SFsub SFltb SFcompare negb]; congruence).
  unfold SFsub. intros H.
  apply binary_normalize_positive in H.
  apply binary_normalize_negative.
  rewrite (Z.min_comm ey ex). lia.
Qed.

(** When [x - y] is positive, [y - x] is not. *)
Lemma float_sub_positive_asym (x y : float) :
  (0 <? x - y) = true -> (0 <? y - x) = false.
Proof.
  rewrite !ltb_spec, !sub_spec.
  change (Prim2SF 0) with (S754_zero false).
  apply SFsub_positive_asym.
Qed.

(** [x - x] is never positive. *)
Lemma float_sub_self_not_positive (x : float) : (0 <? x - x) = false.
Proof.
  destruct (0 <? x - x) eqn:H; [|reflexivity].
  rewrite (float_sub_positive_asym x x H) in H. discriminate.
Qed.

Lemma is_finite_cases (y : float) :
  is_finite y = true ->
  (exists s, Prim2SF y = S754_zero s) \/ (exists s m e, Prim2SF y = S754_finite s m e).
Proof.
  unfold is_finite, is_nan, is_infinity.
  rewrite !eqb_spec, abs_spec.
  change (Prim2SF infinity) with (S754_infinity false).
  destruct (Prim2SF y) as [s|[|]| |s m e]; simpl; intros H;
    try discriminate.
  - left. exists s. reflexivity.
  - right. exists s, m, e. reflexivity.
Qed.

(** A zero times a finite number compares equal to zero. *)
Lemma float_zero_mul_finite (x y : float) :
  (x =? 0) = true -> is_finite y = true -> (x * y =? 0) = true.
Proof.
  intros Hx Hy. rewrite eqb_spec in Hx |- *. rewrite mul_spec.
  change (Prim2SF 0) with (S754_zero false) in *.
  destruct (is_finite_cases y Hy) as [(s & ->) | (s & m & e & ->)];
    destruct (Prim2SF x) as [sx|[|]| |[|] mx ex]; try discriminate; reflexivity.
Qed.

End Binary64.

(* ------------------------------------------------------------------ *)
(** * Sorting and slicing *)
(* ------------------------------------------------------------------ *)

Section Sorting.

Context {A : Type}.
Variable compareFn : A -> A -> float.

Lemma insertSorted_permutation (x : A) (l : list A) :
  Permutation (x :: l) (insertSorted compareFn x l).
Proof.
  induction l as [|y l IH]; simpl.
  - apply Permutation_refl.
  - destruct (0 <? compareFn x y)%float.
    + eapply perm_trans; [apply perm_swap|]. apply perm_skip. exact IH.
    + apply Permutation_refl.
Qed.

Lemma Array_sort_permutation (l : list A) :
  Permutation l (Array_sort compareFn l).
Proof.
  induction l as [|x l IH]; simpl.
  - apply perm_nil.
  - eapply perm_trans; [apply perm_skip; exact IH|].
    apply insertSorted_permutation.
Qed.

(** The order the comparator asks for between neighbours. *)
Let inOrder (a b : A) : Prop := (0 <? compareFn a b)%float = false.

Hypothesis compareFn_asym :
  forall a b, (0 <? compareFn a b)%float = true -> (0 <? compareFn b a)%float = false.

Lemma insertSorted_head (x : A) (l : list A) (y : A) :
  inOrder y x -> HdRel inOrder y l -> HdRel inOrder y (insertSorted compareFn x l).
Proof.
  intros Hyx Hl. destruct l as [|z l]; simpl.
  - constructor. exact Hyx.
  - destruct (0 <? compareFn x z)%float.
    + inversion Hl; subst. constructor. assumption.
    + constructor. exact Hyx.
Qed.

Lemma insertSorted_sorted (x : A) (l : list A) :
  Sorted inOrder l -> Sorted inOrder (insertSorted compareFn x l).
Proof.
  induction l as [|y l IH]; intros Hs; simpl.
  - repeat constructor.
  - destruct (0 <? compareFn x y)%float eqn:Hxy.
    + inversion Hs; subst. constructor.
      * apply IH. assumption.
      * apply insertSorted_head; [|assumption].
        apply compareFn_asym. exact Hxy.
    + constructor; [exact Hs|]. constructor. exact Hxy.
Qed.

Lemma Array_sort_sorted (l : list A) : Sorted inOrder (Array_sort compareFn l).
Proof.
  induction l as [|x l IH]; simpl.
  - constructor.
  - apply insertSorted_sorted. exact IH.
Qed.

(** Stability: elements the comparator never separates keep their order. *)
Variable tied : A -> bool.
Hypothesis tied_not_separated :
  forall a b, tied a = true -> tied b = true -> (0 <? compareFn a b)%float = false.

Lemma insertSorted_filter (x : A) (l : list A) :
  filter tied (insertSorted compareFn x l) = filter tied (x :: l).
Proof.
  induction l as [|y l IH]; simpl.
  - reflexivity.
  - destruct (0 <? compareFn x y)%float eqn:Hxy; [|reflexivity].
    simpl. rewrite IH. simpl.
    destruct (tied x) eqn:Hx; [|reflexivity].
    destruct (tied y) eqn:Hy; [|reflexivity].
    rewrite (tied_not_separated x y Hx Hy) in Hxy. discriminate.
Qed.

Lemma Array_sort_filter (l : list A) :
  filter tied (Array_sort compareFn l) = filter tied l.
Proof.
  induction l as [|x l IH]; simpl.
  - reflexivity.
  - rewrite insertSorted_filter. simpl. rewrite IH. reflexivity.
Qed.

End Sorting.

Lemma Array_slice0_length {A} (n : Z) (l : list A) :
  (0 <= n)%Z -> (Z.of_nat (List.length (Array_slice0 n l)) <= n)%Z.
Proof.
  intros Hn. unfold Array_slice0.
  destruct (n <? 0)%Z eqn:Hneg; [apply Z.ltb_lt in Hneg; lia|].
  rewrite length_firstn. lia.
Qed.

Lemma firstn_incl {A} (k : nat) (l : list A) (x : A) :
  In x (firstn k l) -> In x l.
Proof.
  intros H. rewrite <- (firstn_skipn k l). apply in_or_app. left. exact H.
Qed.

Lemma Array_slice0_incl {A} (n : Z) (l : list A) (x : A) :
  In x (Array_slice0 n l) -> In x l.
Proof.
  unfold Array_slice0. destruct (n <? 0)%Z; apply firstn_incl.
Qed.

(* ------------------------------------------------------------------ *)
(** * The similarity engine *)
(* ------------------------------------------------------------------ *)

Section Cosine.

Local Open Scope float_scope.

Lemma cosineSums_split (a b : list float) :
  List.length a = List.length b ->
  forall dot normA normB,
    cosineSums a b dot normA normB
    = (dotFrom dot a b, squaresFrom normA a, squaresFrom normB b).
Proof.
  revert b. induction a as [|x a IH]; intros [|y b] Hlen dot normA normB;
    simpl in *; try discriminate; try reflexivity.
  apply IH. lia.
Qed.

(** The value [cosineSimilarity] returns on vectors of one length. *)
Lemma cosineSimilarity_value (a b : list float) :
  List.length a = List.length b ->
  cosineSimilarity a b
  = Returned (if computedNorm a * computedNorm b =? 0 then 0
              else dotFrom 0 a b / (computedNorm a * computedNorm b)).
Proof.
  intros Hlen. unfold cosineSimilarity.
  rewrite Hlen, Nat.eqb_refl. simpl negb. cbv iota.
  rewrite (cosineSums_split a b Hlen). unfold computedNorm.
  destruct (sqrt (squaresFrom 0 a) * sqrt (squaresFrom 0 b) =? 0); reflexivity.
Qed.

Lemma dotFrom_comm (a b : list float) : forall start, dotFrom start a b = dotFrom start b a.
Proof.
  revert b. induction a as [|x a IH]; intros [|y b] start; simpl; try reflexivity.
  rewrite (float_mul_comm x y). apply IH.
Qed.

Lemma dotFrom_self (a : list float) : forall start, dotFrom start a a = squaresFrom start a.
Proof.
  induction a as [|x a IH]; intros start; simpl; [reflexivity | apply IH].
Qed.

Lemma zero_square (x : float) : (x =? 0) = true -> x * x = 0.
Proof.
  rewrite eqb_spec. change (Prim2SF 0) with (S754_zero false). intros H.
  apply Prim2SF_inj. rewrite mul_spec.
  change (Prim2SF 0) with (S754_zero false).
  destruct (Prim2SF x) as [[|]|[|]| |[|] m e]; try discriminate; reflexivity.
Qed.

Lemma squaresFrom_zero_vector (v : list float) :
  isZeroVector v -> squaresFrom 0 v = 0.
Proof.
  induction 1 as [|x v Hx Hv IH]; simpl.
  - reflexivity.
  - unfold squaresFrom in *. simpl. rewrite (zero_square x Hx).
    change (0 + 0) with 0. exact IH.
Qed.

Lemma computedNorm_zero_vector (v : list float) :
  isZeroVector v -> computedNorm v = 0.
Proof.
  intros H. unfold computedNorm. rewrite (squaresFrom_zero_vector v H). reflexivity.
Qed.

End Cosine.

Section FindSimilar.

Variable nodePath : PathModule.
Variable queryEmbedding : list float.
Variable threshold : float.
Variable excludePath : option string.

Lemma hitOf_incl (entries entries' : JSMap (EmbeddingEntry float)) (hit : SearchResult) :
  incl entries entries' ->
  hitOf nodePath queryEmbedding threshold excludePath entries hit ->
  hitOf nodePath queryEmbedding threshold excludePath entries' hit.
Proof.
  intros Hincl (entry & cosine & Hin & Hrest).
  exists entry, cosine. split; [apply Hincl; exact Hin | exact Hrest].
Qed.

(** Every hit the loop adds stands for an entry it has passed. *)
Lemma collectResults_hits (entries : JSMap (EmbeddingEntry float)) :
  forall results collected,
    collectResults nodePath queryEmbedding threshold excludePath entries results
    = Returned collected ->
    exists added,
      collected = (results ++ added)%list
      /\ Forall (hitOf nodePath queryEmbedding threshold excludePath entries) added.
Proof.
  induction entries as [|[notePath entry] entries IH]; intros results collected H;
    simpl in H.
  - inversion H; subst. exists []. split; [rewrite app_nil_r; reflexivity | constructor].
  - assert (Hweak : forall added,
               Forall (hitOf nodePath queryEmbedding threshold excludePath entries) added ->
               Forall (hitOf nodePath queryEmbedding threshold excludePath
                         ((notePath, entry) :: entries)) added).
    { intros added. apply Forall_impl. intros hit. apply hitOf_incl.
      apply incl_tl, incl_refl. }
    destruct (isExcluded excludePath notePath) eqn:Hex.
    + destruct (IH _ _ H) as (added & -> & Hall). exists added. split; auto.
    + destruct (cosineSimilarity queryEmbedding (embedding entry)) as [cosine|e] eqn:Hcos;
        [|discriminate].
      destruct (threshold <=? cosine)%float eqn:Hthr.
      * destruct (IH _ _ H) as (added & -> & Hall).
        eexists (_ :: added). split.
        -- rewrite <- app_assoc. reflexivity.
        -- constructor; [|auto].
           exists entry, cosine. simpl. repeat split; auto; left; reflexivity.
      * destruct (IH _ _ H) as (added & -> & Hall). exists added. split; auto.
Qed.

Lemma cosineSimilarity_returns (a b : list float) :
  List.length a = List.length b -> exists cosine, cosineSimilarity a b = Returned cosine.
Proof.
  intros Hlen. rewrite (cosineSimilarity_value a b Hlen). eexists; reflexivity.
Qed.

(** On an index whose vectors have the length of the query the loop ends
    with a result. *)
Lemma collectResults_returns (entries : JSMap (EmbeddingEntry float)) :
  Forall (fun kv => List.length (embedding (snd kv)) = List.length queryEmbedding) entries ->
  forall results, exists collected,
    collectResults nodePath queryEmbedding threshold excludePath entries results
    = Returned collected.
Proof.
  induction 1 as [|[notePath entry] entries Hlen Hall IH]; intros results; simpl.
  - eexists; reflexivity.
  - destruct (isExcluded excludePath notePath); [apply IH|].
    simpl in Hlen.
    destruct (cosineSimilarity_returns queryEmbedding (embedding entry) (eq_sym Hlen))
      as [cosine ->].
    destruct (threshold <=? cosine)%float; apply IH.
Qed.

End FindSimilar.

(** C6, as the engine does it. On an index whose vectors have the length of
    the query and for a limit that is not negative, [findSimilar] returns a
    list of at most [limit] hits; every hit stands for an entry whose
    cosine with the query, before rounding, is at least the threshold, and
    shows that cosine rounded to three decimals; and no hit has the path of
    an exclude identifier that is not the empty string. *)
Theorem findSimilar_respects_options
    (nodePath : PathModule) (queryEmbedding : list float)
    (entries : JSMap (EmbeddingEntry float))
    (limit : Z) (threshold : float) (excludePath : option string) :
  (0 <= limit)%Z ->
  Forall (fun kv => List.length (embedding (snd kv)) = List.length queryEmbedding) entries ->
  exists results,
    findSimilar nodePath queryEmbedding entries limit threshold excludePath
    = Returned results
    /\ (Z.of_nat (List.length results) <= limit)%Z
    /\ Forall (hitOf nodePath queryEmbedding threshold excludePath entries) results
    /\ (forall e, excludePath = Some e -> e <> ""%string -> ~ In e (map path results)).
Proof.
  intros Hlimit Hlen. unfold findSimilar.
  destruct (collectResults_returns nodePath queryEmbedding threshold excludePath
              entries Hlen []) as [collected Hc].
  rewrite Hc. eexists. split; [reflexivity|].
  destruct (collectResults_hits nodePath queryEmbedding threshold excludePath
              entries [] collected Hc) as (added & Heq & Hall).
  simpl in Heq. subst added.
  assert (Hhits : Forall (hitOf nodePath queryEmbedding threshold excludePath entries)
                    (Array_slice0 limit (Array_sort byScoreDescending collected))).
  { rewrite Forall_forall in *. intros hit Hin. apply Hall.
    apply Array_slice0_incl in Hin.
    eapply Permutation_in; [|exact Hin].
    apply Permutation_sym, Array_sort_permutation. }
  split; [apply Array_slice0_length; exact Hlimit|].
  split; [exact Hhits|].
  intros e He Hne Hin. apply in_map_iff in Hin. destruct Hin as (hit & Hpath & Hin).
  rewrite Forall_forall in Hhits.
  destruct (Hhits hit Hin) as (entry & cosine & _ & Hex & _).
  subst excludePath. unfold isExcluded in Hex. rewrite Hpath, String.eqb_refl in Hex.
  destruct (String.eqb_spec e ""); [contradiction | discriminate].
Qed.

Lemma findSimilar_respects_options_witness :
  exists results,
    findSimilar posix [1; 0]%float smallIndex 2 0.3%float (Some "C.md") = Returned results
    /\ (Z.of_nat (List.length results) <= 2)%Z
    /\ ~ In "C.md"%string (map path results).
Proof.
  destruct (findSimilar_respects_options posix [1; 0]%float smallIndex 2 0.3%float
              (Some "C.md"%string))
    as (results & Hres & Hlen & _ & Hexcl).
  - lia.
  - repeat constructor.
  - exists results. repeat split; [exact Hres | exact Hlen |].
    apply (Hexcl "C.md"%string); [reflexivity | discriminate].
Defined.

(** C6 fails as stated: with the threshold 0.92305 the note of cosine
    0.92307... is returned, and the score it shows, 0.923, is below the
    threshold. *)
Lemma presented_score_below_threshold :
  findSimilar posix [1; 0]%float steepIndex 10 0.92305%float None
  = Returned [searchHit "A.md" "A" 0.923%float]
  /\ (0.923 <? 0.92305)%float = true.
Proof. split; vm_compute; reflexivity. Qed.

(** The empty string as exclude identifier excludes nothing: the test of
    the loop, [excludePath && ...], reads it as absent. *)
Lemma empty_exclude_identifier_excludes_nothing :
  findSimilar posix [1; 0]%float [entryOf "" [1; 0]%float] 10 0.3%float (Some ""%string)
  = Returned [searchHit "" "" 1%float].
Proof. vm_compute. reflexivity. Qed.

Lemma byScoreDescending_asym (a b : SearchResult) :
  (0 <? byScoreDescending a b)%float = true ->
  (0 <? byScoreDescending b a)%float = false.
Proof. unfold byScoreDescending. apply float_sub_positive_asym. Qed.

Lemma byScoreDescending_tied (s : float) (a b : SearchResult) :
  PrimFloat.Leibniz.eqb (score a) s = true ->
  PrimFloat.Leibniz.eqb (score b) s = true ->
  (0 <? byScoreDescending a b)%float = false.
Proof.
  intros Ha Hb. apply FloatAxioms.Leibniz.eqb_spec in Ha, Hb.
  unfold byScoreDescending. rewrite Ha, Hb. apply float_sub_self_not_positive.
Qed.

(** C5, as the engine does it. The hits the loop collected, in the
    iteration order of the index, are sorted on the score they show, the
    rounded one: the sorted list is a rearrangement of the collected hits in
    which no hit is followed by one the comparator ranks strictly before it,
    and the hits that show one and the same score stay in the order of the
    index, whatever their cosines were before rounding. The result is the
    slice of that list. *)
Theorem findSimilar_orders_by_presented_score
    (nodePath : PathModule) (queryEmbedding : list float)
    (entries : JSMap (EmbeddingEntry float))
    (limit : Z) (threshold : float) (excludePath : option string)
    (collected : list SearchResult) :
  collectResults nodePath queryEmbedding threshold excludePath entries []
  = Returned collected ->
  exists sorted,
    findSimilar nodePath queryEmbedding entries limit threshold excludePath
    = Returned (Array_slice0 limit sorted)
    /\ Permutation collected sorted
    /\ Sorted notRankedBefore sorted
    /\ forall s, showing s sorted = showing s collected.
Proof.
  intros Hc. exists (Array_sort byScoreDescending collected).
  unfold findSimilar. rewrite Hc.
  split; [reflexivity|].
  split; [apply Array_sort_permutation|].
  split.
  - apply Array_sort_sorted. exact byScoreDescending_asym.
  - intros s. unfold showing. apply Array_sort_filter.
    apply byScoreDescending_tied.
Qed.

(** On the two notes of [closeIndex], which both show 0.999: the result
    keeps them in the order of the index. *)
Lemma findSimilar_orders_by_presented_score_witness :
  exists sorted,
    findSimilar posix [1; 0]%float closeIndex 10 0.3%float None
    = Returned (Array_slice0 10 sorted)
    /\ showing 0.999%float sorted
       = [searchHit "A.md" "A" 0.999%float; searchHit "B.md" "B" 0.999%float].
Proof.
  destruct (findSimilar_orders_by_presented_score posix [1; 0]%float closeIndex 10
              0.3%float None
              [searchHit "A.md" "A" 0.999%float; searchHit "B.md" "B" 0.999%float])
    as (sorted & Hres & _ & _ & Hshow).
  - vm_compute. reflexivity.
  - exists sorted. split; [exact Hres|].
    rewrite Hshow. vm_compute. reflexivity.
Defined.

(** C5 fails as stated: the cosine of [B.md] is strictly greater than the
    cosine of [A.md], both round to 0.999, and [A.md] comes first. *)
Lemma equal_rounded_scores_keep_index_order :
  cosineSimilarity [1; 0]%float [25; 1]%float = Returned 0.99920095872178938%float
  /\ cosineSimilarity [1; 0]%float [30; 1]%float = Returned 0.99944490697915433%float
  /\ (0.99920095872178938 <? 0.99944490697915433)%float = true
  /\ findSimilar posix [1; 0]%float closeIndex 10 0.3%float None
     = Returned [searchHit "A.md" "A" 0.999%float; searchHit "B.md" "B" 0.999%float].
Proof. repeat split; vm_compute; reflexivity. Qed.

(* ------------------------------------------------------------------ *)
(** * Cosine similarity *)
(* ------------------------------------------------------------------ *)

Section CosineLaws.

Local Open Scope float_scope.

(** C7, as binary64 arithmetic has it. On vectors of one length
    [cosineSimilarity] returns a number and never throws, and the number is
    the same in both orders. The similarity of a vector with itself is the
    quotient n / (sqrt n * sqrt n) of its computed sum of squares n, and 0
    when sqrt n * sqrt n is zero. Whenever the computed denominator is zero
    the result is 0: so it is when the computed norm of one vector is zero,
    as for a vector of zeros, and the computed norm of the other is
    finite. *)
Theorem cosineSimilarity_symmetric_zero_safe (a b : list float) :
  List.length a = List.length b ->
  cosineSimilarity a b = cosineSimilarity b a
  /\ (exists cosine, cosineSimilarity a b = Returned cosine)
  /\ cosineSimilarity a a
     = Returned (let n := squaresFrom 0 a in
                 if sqrt n * sqrt n =? 0 then 0 else n / (sqrt n * sqrt n))
  /\ ((computedNorm a * computedNorm b =? 0) = true ->
      cosineSimilarity a b = Returned 0)
  /\ ((computedNorm a =? 0) = true -> is_finite (computedNorm b) = true ->
      cosineSimilarity a b = Returned 0 /\ cosineSimilarity b a = Returned 0)
  /\ (isZeroVector a -> computedNorm a = 0).
Proof.
  intros Hlen.
  assert (Hsym : cosineSimilarity a b = cosineSimilarity b a).
  { rewrite (cosineSimilarity_value a b Hlen), (cosineSimilarity_value b a (eq_sym Hlen)).
    rewrite (float_mul_comm (computedNorm b) (computedNorm a)), (dotFrom_comm b a).
    reflexivity. }
  split; [exact Hsym|].
  split; [apply cosineSimilarity_returns; exact Hlen|].
  split.
  { rewrite (cosineSimilarity_value a a eq_refl), dotFrom_self. reflexivity. }
  split.
  { intros Hden. rewrite (cosineSimilarity_value a b Hlen), Hden. reflexivity. }
  split.
  { intros Hzero Hfin.
    assert (Hab : cosineSimilarity a b = Returned 0).
    { rewrite (cosineSimilarity_value a b Hlen).
      rewrite (float_zero_mul_finite _ _ Hzero Hfin). reflexivity. }
    split; [exact Hab | rewrite <- Hsym; exact Hab]. }
  apply computedNorm_zero_vector.
Qed.

Lemma cosineSimilarity_symmetric_zero_safe_witness :
  cosineSimilarity [0; -0] [3; 4] = cosineSimilarity [3; 4] [0; -0]
  /\ cosineSimilarity [0; -0] [3; 4] = Returned 0
  /\ cosineSimilarity [3; 4] [3; 4] = Returned 1.
Proof.
  destruct (cosineSimilarity_symmetric_zero_safe [0; -0] [3; 4] eq_refl)
    as (Hsym & _ & _ & _ & Hzero & Hnorm).
  destruct (cosineSimilarity_symmetric_zero_safe [3; 4] [3; 4] eq_refl)
    as (_ & _ & Hself & _).
  split; [exact Hsym|]. split.
  - apply Hzero.
    + rewrite Hnorm; [reflexivity | repeat constructor].
    + vm_compute. reflexivity.
  - rewrite Hself. vm_compute. reflexivity.
Defined.

(** C7 fails as stated. The similarity of [(1, 1)] with itself is
    0.9999999999999998, as sqrt 2 * sqrt 2 is 2.0000000000000004; the
    similarity of [(2^-600)] with itself is 0, as its square underflows to
    zero; and the similarity of the zero vector with [(2^600)], whose square
    overflows, is NaN. *)
Lemma cosineSimilarity_self_not_one :
  cosineSimilarity [1; 1] [1; 1] = Returned 0.99999999999999978
  /\ (0.99999999999999978 =? 1) = false
  /\ cosineSimilarity [0x1p-600] [0x1p-600] = Returned 0
  /\ (0x1p-600 =? 0) = false
  /\ cosineSimilarity [0] [0x1p600] = Returned nan
  /\ is_finite 0x1p600 = true.
Proof. repeat split; vm_compute; reflexivity. Qed.

End CosineLaws.

(* ------------------------------------------------------------------ *)
(** * Vectors of different lengths *)
(* ------------------------------------------------------------------ *)

Local Open Scope string_scope.

Lemma cosineSimilarity_throws (a b : list float) :
  List.length a <> List.length b ->
  cosineSimilarity a b = Thrown (dimensionMismatch (List.length a) (List.length b)).
Proof.
  intros Hne. unfold cosineSimilarity.
  apply Nat.eqb_neq in Hne. rewrite Hne. reflexivity.
Qed.

(** The loop of [findSimilar] throws at the first entry it compares whose
    vector has not the length of the query. *)
Lemma collectResults_throws
    (nodePath : PathModule) (queryEmbedding : list float) (threshold : float)
    (excludePath : option string) (entries : JSMap (EmbeddingEntry float)) :
  Exists (mismatches queryEmbedding excludePath) entries ->
  forall results,
  exists kv,
    In kv entries
    /\ mismatches queryEmbedding excludePath kv
    /\ collectResults nodePath queryEmbedding threshold excludePath entries results
       = Thrown (dimensionMismatch (List.length queryEmbedding)
                   (List.length (embedding (snd kv)))).
Proof.
  induction entries as [|[notePath entry] entries IH]; intros Hex results.
  - inversion Hex.
  - simpl.
    destruct (isExcluded excludePath notePath) eqn:Hexcl.
    + assert (Hrest : Exists (mismatches queryEmbedding excludePath) entries).
      { inversion Hex as [kv l [Hk _]|kv l Hl]; subst; [|exact Hl].
        simpl in Hk. congruence. }
      destruct (IH Hrest results) as (kv & Hin & Hm & Heq).
      exists kv. split; [right; exact Hin | split; [exact Hm | exact Heq]].
    + destruct (Nat.eq_dec (List.length queryEmbedding) (List.length (embedding entry)))
        as [Heq|Hne].
      * assert (Hrest : Exists (mismatches queryEmbedding excludePath) entries).
        { inversion Hex as [kv l [_ Hk]|kv l Hl]; subst; [|exact Hl].
          simpl in Hk. congruence. }
        destruct (cosineSimilarity_returns _ _ Heq) as [cosine ->].
        destruct (threshold <=? cosine)%float;
          match goal with
          | |- context [collectResults _ _ _ _ entries ?acc] =>
              destruct (IH Hrest acc) as (kv & Hin & Hm & Hthrow)
          end;
          exists kv; (split; [right; exact Hin | split; [exact Hm | exact Hthrow]]).
      * exists (notePath, entry). split; [left; reflexivity|]. split.
        -- split; [exact Hexcl | simpl; congruence].
        -- rewrite (cosineSimilarity_throws _ _ Hne). reflexivity.
Qed.

Lemma findSimilar_throws
    (nodePath : PathModule) (queryEmbedding : list float)
    (entries : JSMap (EmbeddingEntry float))
    (limit : Z) (threshold : float) (excludePath : option string) :
  Exists (mismatches queryEmbedding excludePath) entries ->
  exists kv,
    In kv entries
    /\ mismatches queryEmbedding excludePath kv
    /\ findSimilar nodePath queryEmbedding entries limit threshold excludePath
       = Thrown (dimensionMismatch (List.length queryEmbedding)
                   (List.length (embedding (snd kv)))).
Proof.
  intros Hex.
  destruct (collectResults_throws nodePath queryEmbedding threshold excludePath
              entries Hex []) as (kv & Hin & Hm & Hthrow).
  exists kv. split; [exact Hin|]. split; [exact Hm|].
  unfold findSimilar. rewrite Hthrow. reflexivity.
Qed.

(** C4, as the handlers do it. A query whose length is not the
    dimensionality of the model is answered by [handleSearchByEmbedding]
    with an error result that says so. A query that passes validation
    against an index that holds a vector of another length makes
    [cosineSimilarity] throw [Vector dimension mismatch: a vs b] at such an
    entry, and the error leaves [findSimilar] and the handler as a thrown
    error: no list of hits is returned, and no vector is cut or padded.
    The same happens in [handleSearchSimilar] when a note other than the
    query note has a vector of another length. *)
Theorem search_dimension_mismatch_is_thrown (nodePath : PathModule) (ctx : ToolContext) :
  let index := entries (data ctx) in
  let dims := dimensions (modelInfo (data ctx)) in
  let cap := maxResults (limits (config ctx)) in
  (forall parsed,
      List.length (queryEmbedding parsed) <> dims ->
      handleSearchByEmbedding nodePath (ParseSuccess parsed) ctx
      = ([], Returned (errorResult
               ("Embedding must have " ++ showNat dims ++ " dimensions, got "
                ++ showNat (List.length (queryEmbedding parsed))))))
  /\ (forall parsed limit,
        valid (validateEmbedding (JSArray (map JSNumber (queryEmbedding parsed))) dims) = true ->
        validateLimit (Some (queryLimit parsed)) 1 cap "limit" = Returned limit ->
        Exists (mismatches (queryEmbedding parsed) None) index ->
        exists kv,
          In kv index
          /\ handleSearchByEmbedding nodePath (ParseSuccess parsed) ctx
             = ([], Thrown (dimensionMismatch (List.length (queryEmbedding parsed))
                              (List.length (embedding (snd kv))))))
  /\ (forall parsed limit entry,
        let notePath := stripLeadingSlashes (similarNotePath parsed) in
        Map_get notePath index = Some entry ->
        validateLimit (Some (similarLimit parsed)) 1 cap "limit" = Returned limit ->
        Exists (mismatches (embedding entry) (Some notePath)) index ->
        exists kv,
          In kv index
          /\ handleSearchSimilar nodePath (ParseSuccess parsed) ctx
             = ([], Thrown (dimensionMismatch (List.length (embedding entry))
                              (List.length (embedding (snd kv)))))).
Proof.
  intros index dims cap. split; [|split].
  - intros parsed Hne. unfold handleSearchByEmbedding, validateEmbedding.
    rewrite length_map. fold dims.
    apply Nat.eqb_neq in Hne. rewrite Hne. reflexivity.
  - intros parsed limit Hvalid Hlimit Hex.
    destruct (findSimilar_throws nodePath (queryEmbedding parsed) index limit
                (queryThreshold parsed) None Hex) as (kv & Hin & _ & Hthrow).
    exists kv. split; [exact Hin|].
    unfold handleSearchByEmbedding. fold dims. rewrite Hvalid.
    fold cap. rewrite Hlimit. fold index.
    simpl. rewrite Hthrow. reflexivity.
  - intros parsed limit entry notePath Hget Hlimit Hex.
    destruct (findSimilar_throws nodePath (embedding entry) index limit
                (similarThreshold parsed) (Some notePath) Hex) as (kv & Hin & _ & Hthrow).
    exists kv. split; [exact Hin|].
    unfold handleSearchSimilar. fold notePath. fold index.
    unfold Map_has. rewrite Hget.
    fold cap. rewrite Hlimit.
    simpl. unfold findSimilarToNote. rewrite Hget, Hthrow. reflexivity.
Qed.

(** On the contexts of the examples. *)
Lemma search_dimension_mismatch_is_thrown_witness :
  (exists kv,
      In kv steepIndex
      /\ handleSearchByEmbedding posix (ParseSuccess onesQuery) staleContext
         = ([], Thrown (dimensionMismatch 384 (List.length (embedding (snd kv))))))
  /\ handleSearchByEmbedding posix
       (ParseSuccess {| queryEmbedding := [1; 0]%float;
                        queryLimit := 10%float;
                        queryThreshold := 0.3%float |}) staleContext
     = ([], Returned (errorResult "Embedding must have 384 dimensions, got 2")).
Proof.
  split.
  - apply (proj1 (proj2 (search_dimension_mismatch_is_thrown posix staleContext))
             onesQuery 10%Z).
    + vm_compute. reflexivity.
    + vm_compute. reflexivity.
    + constructor. split; [reflexivity|]. vm_compute. discriminate.
  - apply (proj1 (search_dimension_mismatch_is_thrown posix staleContext)
             {| queryEmbedding := [1; 0]%float;
                queryLimit := 10%float;
                queryThreshold := 0.3%float |}).
    vm_compute. discriminate.
Defined.

(** C4 fails as stated: a query of the right length against an index that
    holds a vector of two coordinates, and a query note against a note of
    another length, end the handlers with a thrown error. *)
Lemma stale_vector_throws_across_handler :
  valid (validateEmbedding (JSArray (map JSNumber (queryEmbedding onesQuery)))
           (dimensions (modelInfo (data staleContext)))) = true
  /\ handleSearchByEmbedding posix (ParseSuccess onesQuery) staleContext
     = ([], Thrown "Vector dimension mismatch: 384 vs 2")
  /\ handleSearchSimilar posix
       (ParseSuccess {| similarNotePath := "A.md";
                        similarLimit := 10%float;
                        similarThreshold := 0.3%float |}) mixedContext
     = ([], Thrown "Vector dimension mismatch: 2 vs 3").
Proof. repeat split; vm_compute; reflexivity. Qed.

(* ------------------------------------------------------------------ *)
(** * The append-log loader *)
(* ------------------------------------------------------------------ *)

Local Open Scope string_scope.

Lemma outcome_bind {A B} (m : Eff A) (k : A -> Eff B) :
  outcome (bind m k)
  = match outcome m with
    | Returned a => outcome (k a)
    | Thrown e => Thrown e
    end.
Proof.
  destruct m as [t [a|e]]; simpl; [|reflexivity].
  destruct (k a) as [t' r]. reflexivity.
Qed.

(** ** The repair of a fragment *)

Lemma string_append_assoc (s t u : string) : (s ++ t) ++ u = s ++ (t ++ u).
Proof.
  induction s as [|c s IH]; simpl; [reflexivity | rewrite IH; reflexivity].
Qed.

Lemma string_append_empty (s : string) : s ++ "" = s.
Proof.
  induction s as [|c s IH]; simpl; [reflexivity | rewrite IH; reflexivity].
Qed.

Lemma rev_string_onto_append (s acc : string) :
  rev_string_onto s acc = rev_string_onto s "" ++ acc.
Proof.
  revert acc. induction s as [|c s IH]; intros acc; simpl.
  - reflexivity.
  - rewrite (IH (String c acc)), (IH (String c "")).
    rewrite string_append_assoc. reflexivity.
Qed.

Lemma rev_string_append (s t : string) :
  rev_string (s ++ t) = rev_string t ++ rev_string s.
Proof.
  unfold rev_string. induction s as [|c s IH]; simpl.
  - rewrite string_append_empty. reflexivity.
  - rewrite (rev_string_onto_append (s ++ t)), (rev_string_onto_append s), IH.
    rewrite string_append_assoc. reflexivity.
Qed.



Lemma length_append (s t : string) :
  String.length (s ++ t) = String.length s + String.length t.
Proof.
  induction s as [|c s IH]; simpl; [reflexivity | rewrite IH; reflexivity].
Qed.




(** ** The map *)



Lemma Map_set_keys {V} (k : string) (v : V) (m : JSMap V) :
  map fst (Map_set k v m)
  = if Map_has k m then map fst m else (map fst m ++ [k])%list.
Proof.
  unfold Map_has. induction m as [|[k' v'] m IH]; simpl.
  - reflexivity.
  - destruct (String.eqb_spec k' k) as [->|Hne]; simpl.
    + reflexivity.
    + rewrite IH. destruct (Map_get k m); reflexivity.
Qed.

Lemma Map_get_absent {V} (k : string) (m : JSMap V) :
  Map_get k m = None -> ~ In k (map fst m).
Proof.
  induction m as [|[k' v'] m IH]; simpl; intros H.
  - intros [].
  - destruct (String.eqb_spec k' k) as [->|Hne]; [discriminate|].
    intros [Heq | Hin]; [contradiction | exact (IH H Hin)].
Qed.

(** [set] keeps the keys of a map distinct. *)
Lemma Map_set_nodup {V} (k : string) (v : V) (m : JSMap V) :
  NoDup (map fst m) -> NoDup (map fst (Map_set k v m)).
Proof.
  intros Hnd. rewrite Map_set_keys. unfold Map_has.
  destruct (Map_get k m) eqn:Hget; [exact Hnd|].
  apply NoDup_app; [exact Hnd | repeat constructor; intros [] |].
  intros x Hx [<- | []]. exact (Map_get_absent k m Hget Hx).
Qed.



(** ** The records of a fragment *)

Lemma startsWith_sliceFrom (s p : string) :
  startsWith s p = true -> s = p ++ sliceFrom (String.length p) s.
Proof.
  revert s. induction p as [|a p IH]; intros s H; simpl.
  - reflexivity.
  - destruct s as [|b s]; simpl in H; [discriminate|].
    apply andb_true_iff in H. destruct H as [Hab Hs].
    apply Ascii.eqb_eq in Hab. subst b. simpl. rewrite <- (IH s Hs). reflexivity.
Qed.






(** ** Fragments *)

Section Fragments.

Variable nodePath : PathModule.
Variable fs : FileSystem.
Variable JSON_parse : string -> Outcome JSValue.
Variable modelKey : string.

(** What [parseAjsonFile] returns on a fragment that can be read. *)
Lemma parseAjsonFile_outcome (filePath raw : string) :
  fs_readFile fs filePath = Returned raw ->
  outcome (parseAjsonFile fs JSON_parse filePath modelKey)
  = if trim raw =? "" then Returned []
    else match JSON_parse (wrapFragment (trim raw)) with
         | Thrown _ => Returned []
         | Returned parsed =>
             match Object_entries parsed with
             | Returned records => parseAjsonRecords modelKey records []
             | Thrown e => Thrown e
             end
         end.
Proof.
  intros Hread. unfold parseAjsonFile, readFileSync. rewrite Hread.
  unfold bind at 1.
  destruct (trim raw =? ""); [reflexivity|].
  destruct (JSON_parse (wrapFragment (trim raw))) as [parsed|e]; [|reflexivity].
  destruct (Object_entries parsed) as [records|e]; [|reflexivity].
  simpl. destruct (parseAjsonRecords modelKey records []); reflexivity.
Qed.

(** The loop over the fragments always ends with an index: each fragment
    adds its entries or, when it throws, nothing. *)
Lemma loadFragments_outcome (multiPath : string) (files : list string) :
  forall entries,
    outcome (loadFragments nodePath fs JSON_parse multiPath modelKey files entries)
    = Returned (fold_left (afterFragment nodePath fs JSON_parse multiPath modelKey)
                  files entries).
Proof.
  induction files as [|file files IH]; intros entries; cbn [loadFragments fold_left].
  - reflexivity.
  - rewrite outcome_bind.
    assert (Hstep :
      outcome (tryCatch
                 (bind (parseAjsonFile fs JSON_parse (join nodePath multiPath file) modelKey)
                    (fun fileEntries => ret (mergeEntries fileEntries entries)))
                 (fun _ => bind (log "WARN" "ajson_parse_error") (fun _ => ret entries)))
      = Returned (afterFragment nodePath fs JSON_parse multiPath modelKey entries file)).
    { unfold afterFragment.
      destruct (parseAjsonFile fs JSON_parse (join nodePath multiPath file) modelKey)
        as [t [fileEntries|e]]; reflexivity. }
    rewrite Hstep. apply IH.
Qed.


End Fragments.



(* ------------------------------------------------------------------ *)
(** * More on the path guard *)
(* ------------------------------------------------------------------ *)

Local Open Scope string_scope.

(** What the file-system checks do and answer, case by case. *)
Lemma resolveCandidate_eff
    (nodePath : PathModule) (fs : FileSystem) (config : Config) (relativePath : string) :
  let c := candidatePath nodePath config relativePath in
  let line := SecurityLog "security:path_traversal_blocked" "symlink_escape"
                (sanitizeForLog (trim relativePath)) in
  resolveCandidate nodePath fs config relativePath
  = match fs_exists fs c with
    | Thrown _ => ([FsExists c], Returned (invalid "Cannot resolve path"))
    | Returned false => ([FsExists c], Returned (invalid "Note not found"))
    | Returned true =>
        match fs_realpath fs c with
        | Thrown _ => ([FsExists c; FsRealpath c], Returned (invalid "Cannot resolve path"))
        | Returned rp =>
            if insideVault nodePath config rp then
              match fs_stat fs rp with
              | Thrown e => ([FsExists c; FsRealpath c; FsStat rp], Thrown e)
              | Returned st =>
                  ([FsExists c; FsRealpath c; FsStat rp],
                   Returned (if isFile st then validAt rp else invalid "Path is not a file"))
              end
            else ([FsExists c; FsRealpath c; line],
                  Returned (invalid "Path resolves outside vault"))
        end
    end.
Proof.
  unfold resolveCandidate, existsSync, realpathSync, statSync; simpl.
  destruct (fs_exists fs (candidatePath nodePath config relativePath)) as [[|]|e]; simpl;
    try reflexivity.
  destruct (fs_realpath fs (candidatePath nodePath config relativePath)) as [rp|e]; simpl;
    try reflexivity.
  destruct (insideVault nodePath config rp); simpl; try reflexivity.
  destruct (fs_stat fs rp) as [st|e]; simpl; try reflexivity.
  destruct (isFile st); reflexivity.
Qed.

(** X1. The guard asks the file system at most three things, in this
    order: whether the candidate path exists, what it resolves to, and what
    kind of file the resolved path is; the last only for a resolved path
    inside the vault. It never reads a file and never lists a directory. *)
Theorem validateNotePath_consults_only_candidate
    (nodePath : PathModule) (fs : FileSystem) (config : Config) (relativePath : string) :
  let c := candidatePath nodePath config relativePath in
  let calls := fsCalls (trace (validateNotePath nodePath fs config relativePath)) in
  calls = []
  \/ calls = [FsExists c]
  \/ calls = [FsExists c; FsRealpath c]
  \/ exists rp,
       fs_realpath fs c = Returned rp
       /\ insideVault nodePath config rp = true
       /\ calls = [FsExists c; FsRealpath c; FsStat rp].
Proof.
  intros c calls. subst calls.
  destruct (passesStringChecks nodePath relativePath) eqn:Hlex.
  - rewrite (validateNotePath_lexical_pass nodePath fs config relativePath Hlex).
    rewrite resolveCandidate_eff. cbv zeta. fold c.
    destruct (fs_exists fs c) as [[|]|e]; try (right; left; reflexivity).
    destruct (fs_realpath fs c) as [rp|e] eqn:Hrp; try (right; right; left; reflexivity).
    destruct (insideVault nodePath config rp) eqn:Hin.
    + right; right; right. exists rp.
      destruct (fs_stat fs rp); repeat split; auto.
    + right; right; left. reflexivity.
  - destruct (validateNotePath_lexical_rejection nodePath fs config relativePath Hlex)
      as (t & message & Heq & Hcalls).
    rewrite Heq. left. exact Hcalls.
Qed.

(** X2. The guard's answer is never half valid: it is valid with a
    resolved path and no error, or invalid with an error and no path. *)
Theorem validateNotePath_answer_is_whole
    (nodePath : PathModule) (fs : FileSystem) (config : Config)
    (relativePath : string) (r : ValidationResult) :
  outcome (validateNotePath nodePath fs config relativePath) = Returned r ->
  (valid r = true /\ error r = None /\ exists p, resolvedPath r = Some p)
  \/ (valid r = false /\ resolvedPath r = None /\ exists message, error r = Some message).
Proof.
  intros Hr.
  assert (Hshape : (exists p, r = validAt p) \/ (exists message, r = invalid message)).
  { destruct (passesStringChecks nodePath relativePath) eqn:Hlex.
    - rewrite (validateNotePath_lexical_pass nodePath fs config relativePath Hlex) in Hr.
      pose proof (resolveCandidate_cases nodePath fs config relativePath) as Hc.
      cbv zeta in Hc.
      destruct (fs_exists fs (candidatePath nodePath config relativePath)) as [[|]|e];
        try (rewrite Hc in Hr; inversion Hr; right; eexists; reflexivity).
      destruct (fs_realpath fs (candidatePath nodePath config relativePath)) as [rp|e];
        try (rewrite Hc in Hr; inversion Hr; right; eexists; reflexivity).
      destruct (insideVault nodePath config rp);
        try (rewrite Hc in Hr; inversion Hr; right; eexists; reflexivity).
      destruct (fs_stat fs rp) as [st|e]; rewrite Hc in Hr; [|discriminate].
      inversion Hr. destruct (isFile st); [left | right]; eexists; reflexivity.
    - destruct (validateNotePath_lexical_rejection nodePath fs config relativePath Hlex)
        as (t & message & Heq & _).
      rewrite Heq in Hr. inversion Hr. right. eexists; reflexivity. }
  destruct Hshape as [[p ->] | [message ->]].
  - left. repeat split. exists p. reflexivity.
  - right. repeat split. exists message. reflexivity.
Qed.

Lemma validateNotePath_answer_is_whole_witness :
  (exists p, resolvedPath (validAt "/vault/b.md") = Some p)
  /\ exists message, error (invalid "Note not found") = Some message.
Proof.
  split.
  - destruct (validateNotePath_answer_is_whole posix vaultFs vaultConfig "b.md"
                (validAt "/vault/b.md") eq_refl)
      as [(_ & _ & H) | (H & _)]; [exact H | discriminate].
  - destruct (validateNotePath_answer_is_whole posix vaultFs vaultConfig "nope.md"
                (invalid "Note not found") eq_refl)
      as [(H & _) | (_ & _ & H)]; [discriminate | exact H].
Defined.

(** X3. A candidate one of whose parts, in normal form, is hidden (it
    starts with a dot and is not the dot alone), or whose normal form does
    not end in [.md] in any letter case, is rejected and no call to the
    file system is made. *)
Theorem validateNotePath_hidden_or_foreign_rejected_unseen
    (nodePath : PathModule) (fs : FileSystem) (config : Config) (relativePath : string) :
  existsb isHiddenPart
    (split (sep nodePath) (normalize nodePath (trim relativePath))) = true
  \/ endsWith (toLowerCase (normalize nodePath (trim relativePath))) ".md" = false ->
  rejectedUnseen (validateNotePath nodePath fs config relativePath).
Proof.
  intros H. apply validateNotePath_lexical_rejection.
  unfold passesStringChecks.
  destruct H as [H | H]; rewrite H;
    repeat rewrite ?andb_false_r, ?andb_false_l; simpl;
    repeat rewrite ?andb_false_r, ?andb_false_l; reflexivity.
Qed.

Lemma validateNotePath_hidden_or_foreign_rejected_unseen_witness :
  rejectedUnseen (validateNotePath posix vaultFs vaultConfig ".secret/x.md")
  /\ rejectedUnseen (validateNotePath posix vaultFs vaultConfig "notes")
  /\ rejectedUnseen (validateNotePath posix vaultFs vaultConfig "notes/.git/a.md").
Proof.
  repeat split; apply validateNotePath_hidden_or_foreign_rejected_unseen.
  - left; reflexivity.
  - right; reflexivity.
  - left; reflexivity.
Defined.

(** ** White space around the candidate *)

Lemma rev_string_cons (c : ascii) (s : string) :
  rev_string (String c s) = rev_string s ++ String c "".
Proof.
  change (String c s) with (String c "" ++ s). rewrite rev_string_append. reflexivity.
Qed.

Lemma rev_string_involutive (s : string) : rev_string (rev_string s) = s.
Proof.
  induction s as [|c s IH].
  - reflexivity.
  - rewrite rev_string_cons, rev_string_append, IH. reflexivity.
Qed.

Lemma trimStart_startsInk (s : string) : startsInk (trimStart s).
Proof.
  induction s as [|c s IH]; simpl.
  - exact I.
  - destruct (isWhiteSpace c) eqn:Hc; [exact IH | simpl; exact Hc].
Qed.

Lemma trimStart_fixed (s : string) : startsInk s -> trimStart s = s.
Proof.
  destruct s as [|c s]; simpl; intros H; [reflexivity|]. rewrite H. reflexivity.
Qed.

Lemma trimStart_suffix (s : string) : exists w, s = w ++ trimStart s.
Proof.
  induction s as [|c s [w IH]]; simpl.
  - exists "". reflexivity.
  - destruct (isWhiteSpace c).
    + exists (String c w). simpl. rewrite <- IH. reflexivity.
    + exists "". reflexivity.
Qed.

Lemma trim_startsInk (s : string) : startsInk (trim s).
Proof.
  unfold trim.
  pose proof (trimStart_startsInk s) as Hu.
  destruct (trimStart_suffix (rev_string (trimStart s))) as [w Hw].
  set (v := trimStart (rev_string (trimStart s))) in *.
  assert (Hsplit : trimStart s = rev_string v ++ rev_string w).
  { rewrite <- (rev_string_involutive (trimStart s)), Hw, rev_string_append. reflexivity. }
  destruct (rev_string v) as [|c r]; [exact I|].
  rewrite Hsplit in Hu. exact Hu.
Qed.

(** Trimming twice is trimming once. *)
Lemma trim_idempotent (s : string) : trim (trim s) = trim s.
Proof.
  unfold trim at 1. rewrite (trimStart_fixed _ (trim_startsInk s)).
  unfold trim. rewrite rev_string_involutive.
  rewrite (trimStart_fixed _ (trimStart_startsInk _)). reflexivity.
Qed.

Lemma trim_empty_input (s : string) : trim s <> "" -> s <> "".
Proof. intros H ->. apply H. reflexivity. Qed.

(** X4. White space around a candidate changes nothing: the guard does the
    same calls and gives the same answer for the candidate and for the
    candidate trimmed, unless trimming leaves nothing. *)
Theorem validateNotePath_ignores_surrounding_space
    (nodePath : PathModule) (fs : FileSystem) (config : Config) (relativePath : string) :
  trim relativePath <> "" ->
  validateNotePath nodePath fs config (trim relativePath)
  = validateNotePath nodePath fs config relativePath.
Proof.
  intros Hne. unfold validateNotePath. rewrite trim_idempotent.
  destruct (String.eqb_spec (trim relativePath) "") as [Heq|_]; [contradiction|].
  destruct (String.eqb_spec relativePath "") as [Heq|_];
    [exfalso; exact (trim_empty_input _ Hne Heq)|].
  reflexivity.
Qed.

Lemma validateNotePath_ignores_surrounding_space_witness :
  validateNotePath posix vaultFs vaultConfig "../../etc/passwd"
  = validateNotePath posix vaultFs vaultConfig "  ../../etc/passwd ".
Proof.
  apply (validateNotePath_ignores_surrounding_space posix vaultFs vaultConfig
           "  ../../etc/passwd ").
  discriminate.
Defined.

(** ** The security log *)

Lemma slice0_length (n : nat) (s : string) : String.length (slice0 n s) <= n.
Proof.
  revert s. induction n as [|n IH]; intros [|c s]; simpl; try lia.
  specialize (IH s). lia.
Qed.

Lemma slice0_chars (n : nat) (s : string) (c : ascii) :
  In c (list_ascii_of_string (slice0 n s)) -> In c (list_ascii_of_string s).
Proof.
  revert s. induction n as [|n IH]; intros [|d s]; simpl; try tauto.
  intros [H | H]; [left; exact H | right; apply IH; exact H].
Qed.

Lemma stripControl_chars (s : string) (c : ascii) :
  In c (list_ascii_of_string (stripControl s)) -> isControl c = false.
Proof.
  unfold isControl. induction s as [|d s IH]; simpl.
  - intros [].
  - destruct ((nat_of_ascii d <=? 31) || (nat_of_ascii d =? 127))%nat eqn:Hd.
    + exact IH.
    + simpl. intros [<- | H]; [exact Hd | exact (IH H)].
Qed.

(** X5. [sanitizeForLog] returns at most 100 code units, none of them a
    control character, so a logged candidate cannot start a new log line. *)
Theorem sanitizeForLog_bounded_and_clean (value : string) :
  String.length (sanitizeForLog value) <= 100
  /\ forall c, In c (list_ascii_of_string (sanitizeForLog value)) -> isControl c = false.
Proof.
  unfold sanitizeForLog. split.
  - apply slice0_length.
  - intros c H. apply (stripControl_chars value). apply (slice0_chars 100). exact H.
Qed.

(** X6. Besides its calls to the file system the guard does nothing but
    write to the security log, and each line it writes is a blocked
    traversal with the sanitized candidate: the candidate itself is never
    logged as it came. *)
Theorem validateNotePath_logs_sanitized
    (nodePath : PathModule) (fs : FileSystem) (config : Config) (relativePath : string) :
  Forall (fun ev => isFsEvent ev = true \/ securityLine relativePath ev)
    (trace (validateNotePath nodePath fs config relativePath)).
Proof.
  assert (Hline : forall reason,
            In reason ["absolute_path"; "dot_dot"; "hidden_path"; "symlink_escape"] ->
            securityLine relativePath
              (SecurityLog "security:path_traversal_blocked" reason
                 (sanitizeForLog (trim relativePath)))).
  { intros reason Hin. exists reason. split; [exact Hin | reflexivity]. }
  unfold validateNotePath.
  set (trimmed := trim relativePath).
  set (normalized := normalize nodePath trimmed).
  destruct (relativePath =? ""); [constructor|].
  destruct (String.length trimmed =? 0)%nat; [constructor|].
  destruct (isAbsolute nodePath trimmed).
  { constructor; [|constructor]. right. apply Hline. simpl; tauto. }
  destruct (startsWith normalized ".." || includes normalized (".." ++ sepString nodePath)).
  { constructor; [|constructor]. right. apply Hline. simpl; tauto. }
  destruct (existsb isHiddenPart (split (sep nodePath) normalized)).
  { constructor; [|constructor]. right. apply Hline. simpl; tauto. }
  destruct (endsWith (toLowerCase normalized) ".md"); [|constructor].
  fold (candidatePath nodePath config relativePath).
  change (Forall (fun ev => isFsEvent ev = true \/ securityLine relativePath ev)
            (trace (resolveCandidate nodePath fs config relativePath))).
  rewrite resolveCandidate_eff. cbv zeta.
  destruct (fs_exists fs _) as [[|]|e]; try (repeat constructor; left; reflexivity).
  destruct (fs_realpath fs _) as [rp|e]; try (repeat constructor; left; reflexivity).
  destruct (insideVault nodePath config rp).
  + destruct (fs_stat fs rp); repeat constructor; left; reflexivity.
  + constructor; [left; reflexivity|]. constructor; [left; reflexivity|].
    constructor; [|constructor]. right. apply Hline. simpl; tauto.
Qed.

(* ------------------------------------------------------------------ *)
(** * The configuration and the arguments *)
(* ------------------------------------------------------------------ *)

(** X7. [validateConfig] has no default: without a vault path, or with the
    empty one, it throws before it consults the file system. When it
    returns a configuration, the vault path is the absolute form of the
    path given; that path exists, is a directory, is neither [/] nor the
    home directory, and holds [.smart-env]; the resolved vault path is what
    the file system resolves it to; and the limits are 1000, 50 and
    10240. *)
Theorem validateConfig_checks_root
    (nodePath : PathModule) (fs : FileSystem) (cwd : string) (home : option string) :
  validateConfig nodePath fs cwd home None
  = ([], Thrown "VAULT_PATH environment variable is required")
  /\ validateConfig nodePath fs cwd home (Some "")
     = ([], Thrown "VAULT_PATH environment variable is required")
  /\ forall given config,
       outcome (validateConfig nodePath fs cwd home given) = Returned config ->
       exists raw,
         given = Some raw /\ raw <> ""
         /\ vaultPath config = resolve nodePath cwd raw
         /\ fs_exists fs (vaultPath config) = Returned true
         /\ (exists stats, fs_stat fs (vaultPath config) = Returned stats
                           /\ isDirectory stats = true)
         /\ vaultPath config <> "/"
         /\ vaultPath config <> homeDirectory home
         /\ fs_exists fs (join nodePath (vaultPath config) ".smart-env") = Returned true
         /\ fs_realpath fs (vaultPath config) = Returned (resolvedVaultPath config)
         /\ limits config
            = {| maxQueryLength := 1000; maxResults := 50; maxContentLength := 10240 |}.
Proof.
  split; [reflexivity|]. split; [reflexivity|].
  intros given config H.
  destruct given as [raw|]; [|discriminate].
  destruct raw as [|c raw]; [discriminate|].
  exists (String c raw). split; [reflexivity|]. split; [discriminate|].
  unfold validateConfig in H.
  set (absolutePath := resolve nodePath cwd (String c raw)) in *.
  fold (homeDirectory home) in H.
  unfold existsSync, statSync, realpathSync in H.
  rewrite outcome_bind in H. unfold outcome at 1 in H. simpl snd in H.
  destruct (fs_exists fs absolutePath) as [[|]|e] eqn:Hex; try discriminate.
  simpl negb in H. cbv iota in H.
  rewrite outcome_bind in H. unfold outcome at 1 in H. simpl snd in H.
  destruct (fs_stat fs absolutePath) as [stats|e] eqn:Hst; try discriminate.
  destruct (isDirectory stats) eqn:Hdir; try discriminate.
  simpl negb in H. cbv iota in H.
  destruct (String.eqb_spec absolutePath "/") as [|Hroot]; [discriminate|].
  destruct (String.eqb_spec absolutePath (homeDirectory home)) as [|Hhome]; [discriminate|].
  simpl orb in H. cbv iota in H.
  rewrite outcome_bind in H. unfold outcome at 1 in H. simpl snd in H.
  destruct (fs_exists fs (join nodePath absolutePath ".smart-env")) as [[|]|e] eqn:Henv;
    try discriminate.
  simpl negb in H. cbv iota in H.
  rewrite outcome_bind in H.
  destruct (fs_realpath fs absolutePath) as [resolved|e] eqn:Hreal;
    unfold tryCatch, outcome in H; simpl in H; try discriminate.
  inversion H; subst config; simpl.
  repeat split; auto. exists stats. split; auto.
Qed.

Lemma validateConfig_checks_root_witness :
  exists raw,
    Some "vault/" = Some raw
    /\ vaultPath vaultConfig = resolve posix "/" raw
    /\ fs_realpath vaultFs (vaultPath vaultConfig) = Returned (resolvedVaultPath vaultConfig).
Proof.
  destruct (proj2 (proj2 (validateConfig_checks_root posix vaultFs "/" (Some "/home/user")))
              (Some "vault/") vaultConfig eq_refl)
    as (raw & Hgiven & _ & Hpath & _ & _ & _ & _ & _ & Hreal & _).
  exists raw. repeat split; assumption.
Defined.

(** X8. [validateQuery] measures the query after trimming: it accepts a
    query only if, trimmed, it has between 1 and [maxLength] code units,
    it answers the same for a query and for the query trimmed, and its
    answer never carries a path. *)
Theorem validateQuery_measures_trimmed (query : string) (maxLength : nat) :
  (valid (validateQuery query maxLength) = true <->
     1 <= String.length (trim query) <= maxLength)
  /\ (trim query <> "" ->
      validateQuery (trim query) maxLength = validateQuery query maxLength)
  /\ resolvedPath (validateQuery query maxLength) = None.
Proof.
  split; [|split].
  - unfold validateQuery.
    destruct (String.eqb_spec query "") as [->|Hq].
    + simpl. split; [discriminate | lia].
    + destruct (String.length (trim query) =? 0)%nat eqn:Hz.
      * apply Nat.eqb_eq in Hz. simpl. split; [discriminate | lia].
      * apply Nat.eqb_neq in Hz.
        destruct (maxLength <? String.length (trim query))%nat eqn:Hm.
        -- apply Nat.ltb_lt in Hm. simpl. split; [discriminate | lia].
        -- apply Nat.ltb_ge in Hm. simpl. split; [lia | reflexivity].
  - intros Hne. unfold validateQuery. rewrite trim_idempotent.
    destruct (String.eqb_spec (trim query) "") as [Heq|_]; [contradiction|].
    destruct (String.eqb_spec query "") as [Heq|_];
      [exfalso; exact (trim_empty_input _ Hne Heq)|].
    reflexivity.
  - unfold validateQuery.
    destruct (query =? ""); [reflexivity|].
    destruct (String.length (trim query) =? 0)%nat; [reflexivity|].
    destruct (maxLength <? String.length (trim query))%nat; reflexivity.
Qed.

Lemma validateQuery_measures_trimmed_witness :
  validateQuery "notes on Rocq" 13 = validateQuery "   notes on Rocq   " 13
  /\ valid (validateQuery "   notes on Rocq   " 13) = true.
Proof.
  destruct (validateQuery_measures_trimmed "   notes on Rocq   " 13)
    as (Hiff & Hsame & _).
  split.
  - apply Hsame. discriminate.
  - apply Hiff. vm_compute. split; apply Nat.leb_le; reflexivity.
Defined.

(* ------------------------------------------------------------------ *)
(** * More on the handlers *)
(* ------------------------------------------------------------------ *)

Local Open Scope string_scope.

(** A limit that was given and validated lies between the bounds. *)
Lemma validateLimit_bounds (value : float) (min max n : Z) (name : string) :
  validateLimit (Some value) min max name = Returned n -> (min <= n <= max)%Z.
Proof.
  unfold validateLimit. destruct (integerValue value) as [i|]; [|discriminate].
  destruct ((i <? min) || (max <? i))%Z eqn:Hb; [discriminate|].
  intros H. inversion H; subst n.
  apply orb_false_iff in Hb. destruct Hb as [H1 H2].
  apply Z.ltb_ge in H1, H2. lia.
Qed.

Lemma findSimilar_length
    (nodePath : PathModule) (queryEmbedding : list float)
    (entries : JSMap (EmbeddingEntry float)) (limit : Z) (threshold : float)
    (excludePath : option string) (results : list SearchResult) :
  (0 <= limit)%Z ->
  findSimilar nodePath queryEmbedding entries limit threshold excludePath = Returned results ->
  (Z.of_nat (List.length results) <= limit)%Z.
Proof.
  intros Hlimit. unfold findSimilar.
  destruct (collectResults _ _ _ _ _ _); [|discriminate].
  intros H. inversion H. apply Array_slice0_length. exact Hlimit.
Qed.

(** What [handleSearchSimilar] has done when it answers with hits. *)
Lemma handleSearchSimilar_success
    (nodePath : PathModule) (args : SafeParse SearchSimilarArgs) (ctx : ToolContext)
    (query : option string) (results : list SearchResult) :
  outcome (handleSearchSimilar nodePath args ctx)
  = Returned (successResult (SearchPayload query results)) ->
  exists parsed limit entry,
    args = ParseSuccess parsed
    /\ query = Some (similarNotePath parsed)
    /\ validateLimit (Some (similarLimit parsed)) 1 (maxResults (limits (config ctx))) "limit"
       = Returned limit
    /\ Map_get (stripLeadingSlashes (similarNotePath parsed)) (entries (data ctx)) = Some entry
    /\ findSimilar nodePath (embedding entry) (entries (data ctx)) limit
         (similarThreshold parsed) (Some (stripLeadingSlashes (similarNotePath parsed)))
       = Returned results.
Proof.
  unfold handleSearchSimilar.
  destruct args as [parsed|message]; [|discriminate].
  unfold Map_has, findSimilarToNote.
  destruct (Map_get (stripLeadingSlashes (similarNotePath parsed)) (entries (data ctx)))
    as [entry|] eqn:Hget; [|discriminate].
  simpl negb. cbv iota.
  destruct (validateLimit (Some (similarLimit parsed)) 1
              (maxResults (limits (config ctx))) "limit") as [limit|e] eqn:Hlimit;
    [|discriminate].
  unfold liftOutcome, bind.
  destruct (findSimilar nodePath (embedding entry) (entries (data ctx)) limit
              (similarThreshold parsed)
              (Some (stripLeadingSlashes (similarNotePath parsed))))
    as [found|e] eqn:Hfind; [|discriminate].
  simpl. intros H. inversion H; subst.
  exists parsed, limit, entry. repeat split; auto.
Qed.

(** What [handleSearchByEmbedding] has done when it answers with hits. *)
Lemma handleSearchByEmbedding_success
    (nodePath : PathModule) (args : SafeParse SearchByEmbeddingArgs) (ctx : ToolContext)
    (query : option string) (results : list SearchResult) :
  outcome (handleSearchByEmbedding nodePath args ctx)
  = Returned (successResult (SearchPayload query results)) ->
  exists parsed limit,
    args = ParseSuccess parsed
    /\ query = None
    /\ valid (validateEmbedding (JSArray (map JSNumber (queryEmbedding parsed)))
                (dimensions (modelInfo (data ctx)))) = true
    /\ validateLimit (Some (queryLimit parsed)) 1 (maxResults (limits (config ctx))) "limit"
       = Returned limit
    /\ findSimilar nodePath (queryEmbedding parsed) (entries (data ctx)) limit
         (queryThreshold parsed) None
       = Returned results.
Proof.
  unfold handleSearchByEmbedding.
  destruct args as [parsed|message]; [|discriminate].
  destruct (valid (validateEmbedding (JSArray (map JSNumber (queryEmbedding parsed)))
                     (dimensions (modelInfo (data ctx))))) eqn:Hvalid; [|discriminate].
  simpl negb. cbv iota.
  destruct (validateLimit (Some (queryLimit parsed)) 1
              (maxResults (limits (config ctx))) "limit") as [limit|e] eqn:Hlimit;
    [|discriminate].
  unfold liftOutcome, bind.
  destruct (findSimilar nodePath (queryEmbedding parsed) (entries (data ctx)) limit
              (queryThreshold parsed) None) as [found|e] eqn:Hfind; [|discriminate].
  simpl. intros H. inversion H; subst.
  exists parsed, limit. repeat split; auto.
Qed.

(** X9. A search never answers with more hits than the configured
    maximum, whatever limit the caller asks for: both search handlers
    answer a successful request with at least no and at most
    [maxResults] hits. *)
Theorem search_results_bounded (nodePath : PathModule) (ctx : ToolContext) :
  (forall args query results,
      outcome (handleSearchSimilar nodePath args ctx)
      = Returned (successResult (SearchPayload query results)) ->
      (Z.of_nat (List.length results) <= maxResults (limits (config ctx)))%Z)
  /\ (forall args query results,
        outcome (handleSearchByEmbedding nodePath args ctx)
        = Returned (successResult (SearchPayload query results)) ->
        (Z.of_nat (List.length results) <= maxResults (limits (config ctx)))%Z).
Proof.
  split; intros args query results H.
  - destruct (handleSearchSimilar_success _ _ _ _ _ H)
      as (parsed & limit & entry & _ & _ & Hlimit & _ & Hfind).
    apply validateLimit_bounds in Hlimit.
    apply findSimilar_length in Hfind; lia.
  - destruct (handleSearchByEmbedding_success _ _ _ _ _ H)
      as (parsed & limit & _ & _ & _ & Hlimit & Hfind).
    apply validateLimit_bounds in Hlimit.
    apply findSimilar_length in Hfind; lia.
Qed.

Lemma search_results_bounded_witness :
  exists results,
    outcome (handleSearchSimilar posix (ParseSuccess similarToA) smallContext)
    = Returned (successResult (SearchPayload (Some "A.md") results))
    /\ (Z.of_nat (List.length results) <= 50)%Z.
Proof.
  eexists. split.
  - vm_compute. reflexivity.
  - apply (proj1 (search_results_bounded posix smallContext)
             (ParseSuccess similarToA) (Some "A.md")).
    vm_compute. reflexivity.
Defined.

(** X10. The search handlers never touch the file system: whatever the
    arguments and the index, no call to the file system is among the things
    they do. *)
Theorem search_handlers_leave_fs_alone (nodePath : PathModule) (ctx : ToolContext) :
  (forall args, fsCalls (trace (handleSearchSimilar nodePath args ctx)) = [])
  /\ (forall args, fsCalls (trace (handleSearchByEmbedding nodePath args ctx)) = []).
Proof.
  split; intros [parsed|message]; try reflexivity.
  - unfold handleSearchSimilar.
    destruct (negb (Map_has _ _)); [reflexivity|].
    destruct (validateLimit _ _ _ _) as [limit|e]; [|reflexivity].
    unfold liftOutcome, bind.
    destruct (findSimilarToNote _ _ _ _ _) as [[found|]|e]; reflexivity.
  - unfold handleSearchByEmbedding.
    destruct (negb (valid _)); [reflexivity|].
    destruct (validateLimit _ _ _ _) as [limit|e]; [|reflexivity].
    unfold liftOutcome, bind.
    destruct (findSimilar _ _ _ _ _ _) as [found|e]; reflexivity.
Qed.

(** ** Reading a note, continued *)

(** X11. [handleGetNote] opens at most the one file the guard resolved
    the candidate to: a file it reads is the real path of the candidate,
    lies inside the vault and is a regular file. Without parsed arguments it
    does nothing at all. *)
Theorem handleGetNote_reads_only_inside
    (nodePath : PathModule) (fs : FileSystem) (ctx : ToolContext) :
  (forall message, trace (handleGetNote nodePath fs (ParseFailure message) ctx) = [])
  /\ forall notePath p,
       In (FsReadFile p) (trace (handleGetNote nodePath fs (ParseSuccess notePath) ctx)) ->
       fs_realpath fs (candidatePath nodePath (config ctx) notePath) = Returned p
       /\ insideVault nodePath (config ctx) p = true
       /\ exists stats, fs_stat fs p = Returned stats /\ isFile stats = true.
Proof.
  split; [reflexivity|].
  intros notePath p Hin. unfold handleGetNote in Hin.
  destruct (passesStringChecks nodePath notePath) eqn:Hlex.
  - rewrite (validateNotePath_lexical_pass nodePath fs (config ctx) notePath Hlex) in Hin.
    rewrite resolveCandidate_eff in Hin. cbv zeta in Hin.
    set (c := candidatePath nodePath (config ctx) notePath) in *.
    destruct (fs_exists fs c) as [[|]|e];
      try (simpl in Hin; intuition discriminate).
    destruct (fs_realpath fs c) as [rp|e];
      try (simpl in Hin; intuition discriminate).
    destruct (insideVault nodePath (config ctx) rp) eqn:Hinside;
      try (simpl in Hin; intuition discriminate).
    destruct (fs_stat fs rp) as [stats|e] eqn:Hstat;
      try (simpl in Hin; intuition discriminate).
    destruct (isFile stats) eqn:Hfile;
      try (simpl in Hin; intuition discriminate).
    assert (Hp : p = rp).
    { unfold bind, tryCatch, readFileSync in Hin. simpl in Hin.
      destruct (fs_readFile fs rp); simpl in Hin;
        repeat (destruct Hin as [Hin | Hin]; try discriminate; try (inversion Hin; reflexivity));
        contradiction. }
    subst p. repeat split; auto. exists stats. split; auto.
  - destruct (validateNotePath_lexical_rejection nodePath fs (config ctx) notePath Hlex)
      as (t & message & Heq & Hcalls).
    rewrite Heq in Hin. simpl in Hin. rewrite app_nil_r in Hin.
    exfalso.
    assert (Hfs : In (FsReadFile p) (fsCalls t)).
    { unfold fsCalls. apply filter_In. split; [exact Hin | reflexivity]. }
    rewrite Hcalls in Hfs. exact Hfs.
Qed.

Lemma handleGetNote_reads_only_inside_witness :
  fs_realpath vaultFs (candidatePath posix vaultConfig "link.md") = Returned "/vault/notes/a.md"
  /\ insideVault posix vaultConfig "/vault/notes/a.md" = true.
Proof.
  destruct (proj2 (handleGetNote_reads_only_inside posix vaultFs vaultContext)
              "link.md" "/vault/notes/a.md") as (Hreal & Hinside & _).
  - vm_compute. tauto.
  - split; assumption.
Defined.

(** X12. The content [handleGetNote] returns is bounded: it never holds
    more code units than the configured maximum plus the marker. *)
Theorem handleGetNote_content_bounded
    (nodePath : PathModule) (fs : FileSystem) (ctx : ToolContext)
    (args : SafeParse string) (notePath noteTitle content : string) :
  outcome (handleGetNote nodePath fs args ctx)
  = Returned (successResult (NotePayload notePath noteTitle content)) ->
  String.length content
  <= maxContentLength (limits (config ctx)) + String.length truncationMarker.
Proof.
  unfold handleGetNote. generalize truncationMarker. intros marker.
  destruct args as [path|message]; [|discriminate].
  rewrite outcome_bind.
  destruct (outcome (validateNotePath nodePath fs (config ctx) path)) as [v|e];
    [|discriminate].
  destruct (valid v); simpl negb; cbv iota; [|discriminate].
  rewrite outcome_bind. unfold readFileSync, tryCatch, bind, outcome at 1. simpl.
  destruct (fs_readFile fs _) as [text|e]; simpl; [|discriminate].
  intros H. inversion H; subst.
  destruct (maxContentLength (limits (config ctx)) <? String.length text)%nat eqn:Hlen.
  - rewrite length_append.
    pose proof (slice0_length (maxContentLength (limits (config ctx))) text). lia.
  - apply Nat.ltb_ge in Hlen. lia.
Qed.

Lemma handleGetNote_content_bounded_witness :
  String.length (slice0 10240 longText ++ truncationMarker)
  <= 10240 + String.length truncationMarker.
Proof.
  apply (handleGetNote_content_bounded posix vaultFs vaultContext
           (ParseSuccess "long.md") "long.md" (extractTitle posix "long.md")).
  vm_compute. reflexivity.
Defined.

(** ** Searching, continued *)

Lemma findSimilar_hits
    (nodePath : PathModule) (queryEmbedding : list float)
    (entries : JSMap (EmbeddingEntry float)) (limit : Z) (threshold : float)
    (excludePath : option string) (results : list SearchResult) :
  findSimilar nodePath queryEmbedding entries limit threshold excludePath = Returned results ->
  Forall (hitOf nodePath queryEmbedding threshold excludePath entries) results.
Proof.
  unfold findSimilar.
  destruct (collectResults nodePath queryEmbedding threshold excludePath entries [])
    as [collected|e] eqn:Hc; [|discriminate].
  intros H. inversion H; subst results.
  destruct (collectResults_hits nodePath queryEmbedding threshold excludePath
              entries [] collected Hc) as (added & Heq & Hall).
  simpl in Heq. subst added.
  rewrite Forall_forall in *. intros found Hin. apply Hall.
  apply Array_slice0_incl in Hin.
  eapply Permutation_in; [|exact Hin].
  apply Permutation_sym, Array_sort_permutation.
Qed.

(** X13. A search for the notes similar to a note answers with indexed
    notes other than that note: the query is echoed as it came, it is
    looked up without its leading slashes, and, unless what is left of it
    is empty, no hit has its path. *)
Theorem search_similar_skips_query_note
    (nodePath : PathModule) (ctx : ToolContext) (parsed : SearchSimilarArgs)
    (query : option string) (results : list SearchResult) :
  outcome (handleSearchSimilar nodePath (ParseSuccess parsed) ctx)
  = Returned (successResult (SearchPayload query results)) ->
  stripLeadingSlashes (similarNotePath parsed) <> "" ->
  query = Some (similarNotePath parsed)
  /\ Map_has (stripLeadingSlashes (similarNotePath parsed)) (entries (data ctx)) = true
  /\ ~ In (stripLeadingSlashes (similarNotePath parsed)) (map path results)
  /\ Forall (fun found => In (path found) (map fst (entries (data ctx)))) results.
Proof.
  intros H Hne.
  destruct (handleSearchSimilar_success _ _ _ _ _ H)
    as (parsed' & limit & entry & Hargs & Hquery & _ & Hget & Hfind).
  inversion Hargs; subst parsed'.
  pose proof (findSimilar_hits _ _ _ _ _ _ _ Hfind) as Hhits.
  rewrite Forall_forall in Hhits.
  split; [exact Hquery|]. split; [unfold Map_has; rewrite Hget; reflexivity|]. split.
  - intros Hin. apply in_map_iff in Hin. destruct Hin as (found & Hpath & Hin).
    destruct (Hhits found Hin) as (e & cosine & _ & Hex & _).
    unfold isExcluded in Hex. rewrite Hpath, String.eqb_refl in Hex.
    destruct (String.eqb_spec (stripLeadingSlashes (similarNotePath parsed)) "");
      [contradiction | discriminate].
  - apply Forall_forall. intros found Hin.
    destruct (Hhits found Hin) as (e & cosine & Hentry & _).
    apply in_map_iff. exists (path found, e). split; [reflexivity | exact Hentry].
Qed.

Lemma search_similar_skips_query_note_witness :
  exists results,
    outcome (handleSearchSimilar posix (ParseSuccess similarToA) smallContext)
    = Returned (successResult (SearchPayload (Some "A.md") results))
    /\ ~ In "A.md" (map path results).
Proof.
  eexists. split; [vm_compute; reflexivity|].
  apply (search_similar_skips_query_note posix smallContext similarToA (Some "A.md")).
  - vm_compute. reflexivity.
  - discriminate.
Defined.

Lemma collectResults_distinct
    (nodePath : PathModule) (queryEmbedding : list float) (threshold : float)
    (excludePath : option string) (entries : JSMap (EmbeddingEntry float)) :
  forall results collected,
    collectResults nodePath queryEmbedding threshold excludePath entries results
    = Returned collected ->
    NoDup (map path results ++ map fst entries) ->
    NoDup (map path collected).
Proof.
  induction entries as [|[notePath entry] entries IH]; intros results collected H Hnd;
    simpl in H.
  - inversion H; subst. simpl in Hnd. rewrite app_nil_r in Hnd. exact Hnd.
  - simpl in Hnd.
    assert (Hskip : NoDup (map path results ++ map fst entries))
      by (eapply NoDup_remove_1; exact Hnd).
    destruct (isExcluded excludePath notePath); [apply (IH _ _ H Hskip)|].
    destruct (cosineSimilarity queryEmbedding (embedding entry)) as [cosine|e];
      [|discriminate].
    destruct (threshold <=? cosine)%float; [|apply (IH _ _ H Hskip)].
    apply (IH _ _ H). rewrite map_app. simpl. rewrite <- app_assoc. exact Hnd.
Qed.

Lemma NoDup_firstn {A} (n : nat) (l : list A) : NoDup l -> NoDup (firstn n l).
Proof.
  intros H. rewrite <- (firstn_skipn n l) in H. eapply NoDup_app_remove_r; exact H.
Qed.

(** X14. No note is returned twice: on an index whose keys are distinct,
    as the keys of a map are, the hits of [findSimilar] have distinct
    paths. *)
Theorem findSimilar_hits_distinct
    (nodePath : PathModule) (queryEmbedding : list float)
    (entries : JSMap (EmbeddingEntry float)) (limit : Z) (threshold : float)
    (excludePath : option string) (results : list SearchResult) :
  NoDup (map fst entries) ->
  findSimilar nodePath queryEmbedding entries limit threshold excludePath = Returned results ->
  NoDup (map path results).
Proof.
  intros Hnd. unfold findSimilar.
  destruct (collectResults nodePath queryEmbedding threshold excludePath entries [])
    as [collected|e] eqn:Hc; [|discriminate].
  intros H. inversion H; subst results.
  pose proof (collectResults_distinct _ _ _ _ _ _ _ Hc Hnd) as Hcollected.
  assert (Hsorted : NoDup (map path (Array_sort byScoreDescending collected))).
  { eapply Permutation_NoDup; [|exact Hcollected].
    apply Permutation_map, Array_sort_permutation. }
  unfold Array_slice0.
  destruct (limit <? 0)%Z; rewrite <- firstn_map; apply NoDup_firstn; exact Hsorted.
Qed.

Lemma findSimilar_hits_distinct_witness :
  NoDup (map path [searchHit "C.md" "C" 1%float; searchHit "B_x.md" "B x" 0.8%float]).
Proof.
  apply (findSimilar_hits_distinct posix [1; 0]%float smallIndex 2 0.3%float None).
  - repeat constructor; simpl; intuition discriminate.
  - vm_compute. reflexivity.
Defined.

(** X25. Leading slashes of the note path do not count: two searches
    whose paths differ in their leading slashes only, with the same limit
    and threshold, answer with the same hits, each echoing the path it was
    given. *)
Theorem search_similar_ignores_leading_slashes
    (nodePath : PathModule) (ctx : ToolContext) (a b : SearchSimilarArgs)
    (results : list SearchResult) :
  stripLeadingSlashes (similarNotePath a) = stripLeadingSlashes (similarNotePath b) ->
  similarLimit a = similarLimit b ->
  similarThreshold a = similarThreshold b ->
  outcome (handleSearchSimilar nodePath (ParseSuccess a) ctx)
  = Returned (successResult (SearchPayload (Some (similarNotePath a)) results)) ->
  outcome (handleSearchSimilar nodePath (ParseSuccess b) ctx)
  = Returned (successResult (SearchPayload (Some (similarNotePath b)) results)).
Proof.
  intros Hpath Hlimit Hthreshold H.
  destruct (handleSearchSimilar_success _ _ _ _ _ H)
    as (parsed & limit & entry & Hargs & _ & Hvalid & Hget & Hfind).
  inversion Hargs; subst parsed.
  rewrite Hpath in Hget, Hfind. rewrite Hlimit in Hvalid. rewrite Hthreshold in Hfind.
  unfold handleSearchSimilar, Map_has, findSimilarToNote.
  rewrite Hget. simpl negb. cbv iota.
  rewrite Hvalid. unfold liftOutcome, bind. rewrite Hfind. reflexivity.
Qed.

Lemma search_similar_ignores_leading_slashes_witness :
  exists results,
    outcome (handleSearchSimilar posix (ParseSuccess similarToSlashedA) smallContext)
    = Returned (successResult (SearchPayload (Some "//A.md") results)).
Proof.
  eexists.
  apply (search_similar_ignores_leading_slashes posix smallContext similarToA
           similarToSlashedA);
    [reflexivity | reflexivity | reflexivity | vm_compute; reflexivity].
Defined.
(* ------------------------------------------------------------------ *)
(** * The listing *)
(* ------------------------------------------------------------------ *)

Lemma collectNotes_filter {V} (nodePath : PathModule) (pattern : option string)
    (entries : JSMap V) :
  forall notes,
    collectNotes nodePath pattern entries notes
    = (notes ++ map (fun notePath => {| listedPath := notePath;
                                        listedTitle := extractTitle nodePath notePath |})
                    (filter (listedUnder pattern) (map fst entries)))%list.
Proof.
  induction entries as [|[notePath entry] entries IH]; intros notes; simpl.
  - rewrite app_nil_r. reflexivity.
  - unfold listedUnder at 1. destruct (filteredOut pattern notePath); simpl.
    + apply IH.
    + rewrite IH, <- app_assoc. reflexivity.
Qed.

Lemma filter_all {A} (f : A -> bool) (l : list A) :
  (forall x, f x = true) -> filter f l = l.
Proof.
  intros H. induction l as [|x l IH]; simpl; [reflexivity|].
  rewrite H, IH. reflexivity.
Qed.

(** X15. The listing holds each indexed note whose path starts with the
    pattern, once for each of its entries in the index and no other: its
    paths are a rearrangement of the matching keys, each note carries the
    title of its path, and the count is the number of notes listed. *)
Theorem handleListIndexed_lists_matching
    (nodePath : PathModule) (localeCompare : string -> string -> float)
    (pattern : option string) (ctx : ToolContext) :
  exists notes,
    handleListIndexed nodePath localeCompare (ParseSuccess pattern) ctx
    = Listing (List.length notes) notes
    /\ Permutation (map listedPath notes)
         (filter (listedUnder pattern) (map fst (entries (data ctx))))
    /\ Forall (titled nodePath) notes.
Proof.
  unfold handleListIndexed. eexists. split; [reflexivity|].
  set (compareFn := fun a b : ListedNote => localeCompare (listedPath a) (listedPath b)).
  rewrite collectNotes_filter. simpl app.
  set (kept := filter (listedUnder pattern) (map fst (entries (data ctx)))).
  set (mk := fun notePath => {| listedPath := notePath;
                                listedTitle := extractTitle nodePath notePath |}).
  pose proof (Array_sort_permutation compareFn (map mk kept)) as Hperm.
  split.
  - apply Permutation_sym.
    eapply perm_trans; [|apply Permutation_map; exact Hperm].
    rewrite map_map. simpl. rewrite map_id. apply Permutation_refl.
  - apply Forall_forall. intros note Hin.
    eapply Permutation_in in Hin; [|apply Permutation_sym; exact Hperm].
    apply in_map_iff in Hin. destruct Hin as (notePath & Hnote & _).
    subst note. reflexivity.
Qed.

(** X16. A listing without a pattern, or with the empty pattern, holds the
    whole index: as many notes as the index has entries, their paths a
    rearrangement of its keys. *)
Theorem handleListIndexed_without_pattern_lists_all
    (nodePath : PathModule) (localeCompare : string -> string -> float)
    (pattern : option string) (ctx : ToolContext) :
  pattern = None \/ pattern = Some "" ->
  exists notes,
    handleListIndexed nodePath localeCompare (ParseSuccess pattern) ctx
    = Listing (List.length (entries (data ctx))) notes
    /\ Permutation (map listedPath notes) (map fst (entries (data ctx))).
Proof.
  intros Hpattern.
  assert (Hall : forall notePath, listedUnder pattern notePath = true)
    by (intros notePath; destruct Hpattern; subst pattern; reflexivity).
  unfold handleListIndexed.
  set (compareFn := fun a b : ListedNote => localeCompare (listedPath a) (listedPath b)).
  rewrite collectNotes_filter. simpl app. rewrite (filter_all _ _ Hall).
  set (mk := fun notePath => {| listedPath := notePath;
                                listedTitle := extractTitle nodePath notePath |}).
  pose proof (Array_sort_permutation compareFn (map mk (map fst (entries (data ctx)))))
    as Hperm.
  eexists. split.
  - f_equal. rewrite <- (Permutation_length Hperm), !length_map. reflexivity.
  - apply Permutation_sym.
    eapply perm_trans; [|apply Permutation_map; exact Hperm].
    rewrite map_map. simpl. rewrite map_id. apply Permutation_refl.
Qed.

Lemma handleListIndexed_without_pattern_lists_all_witness :
  exists notes,
    handleListIndexed posix codeUnitCompare (ParseSuccess (Some "")) smallContext
    = Listing 4 notes
    /\ Permutation (map listedPath notes) ["A.md"; "B_x.md"; "C.md"; "D.md"].
Proof.
  apply (handleListIndexed_without_pattern_lists_all posix codeUnitCompare (Some "")
           smallContext).
  right. reflexivity.
Defined.

(** X17. The listing is in the order of the comparison: for a comparison
    that never puts each of two paths after the other, no note of the
    listing is put after the note that follows it. *)
Theorem handleListIndexed_sorted
    (nodePath : PathModule) (localeCompare : string -> string -> float)
    (pattern : option string) (ctx : ToolContext) (count : nat) (notes : list ListedNote) :
  (forall a b, (0 <? localeCompare a b)%float = true ->
               (0 <? localeCompare b a)%float = false) ->
  handleListIndexed nodePath localeCompare (ParseSuccess pattern) ctx = Listing count notes ->
  Sorted (fun a b => (0 <? localeCompare (listedPath a) (listedPath b))%float = false) notes.
Proof.
  intros Hasym H. unfold handleListIndexed in H. inversion H; subst.
  apply (Array_sort_sorted
           (fun a b : ListedNote => localeCompare (listedPath a) (listedPath b))).
  intros a b. apply Hasym.
Qed.

Lemma codeUnitCompare_asym (a b : string) :
  (0 <? codeUnitCompare a b)%float = true -> (0 <? codeUnitCompare b a)%float = false.
Proof.
  unfold codeUnitCompare. rewrite (String.compare_antisym b a).
  destruct (String.compare a b); simpl CompOpp; cbv iota; intros H;
    vm_compute in H |- *; congruence.
Qed.

Lemma handleListIndexed_sorted_witness :
  Sorted (fun a b => (0 <? codeUnitCompare (listedPath a) (listedPath b))%float = false)
    [ {| listedPath := "A.md"; listedTitle := "A" |};
      {| listedPath := "B_x.md"; listedTitle := "B x" |};
      {| listedPath := "C.md"; listedTitle := "C" |};
      {| listedPath := "D.md"; listedTitle := "D" |} ].
Proof.
  apply (handleListIndexed_sorted posix codeUnitCompare None smallContext 4).
  - exact codeUnitCompare_asym.
  - vm_compute. reflexivity.
Defined.

(* ------------------------------------------------------------------ *)
(** * The command line *)
(* ------------------------------------------------------------------ *)

Lemma indexOf_absent (x : string) (args : list string) :
  ~ In x args -> indexOf x args = None.
Proof.
  induction args as [|a args IH]; intros Hnot; simpl; [reflexivity|].
  destruct (String.eqb_spec a x) as [->|_].
  - exfalso. apply Hnot. left. reflexivity.
  - rewrite IH; [reflexivity|]. intros Hin. apply Hnot. right. exact Hin.
Qed.

Lemma indexOf_first (x : string) (before after : list string) :
  ~ In x before -> indexOf x (before ++ x :: after)%list = Some (List.length before).
Proof.
  induction before as [|a before IH]; intros Hnot; simpl.
  - rewrite String.eqb_refl. reflexivity.
  - destruct (String.eqb_spec a x) as [->|_].
    + exfalso. apply Hnot. left. reflexivity.
    + rewrite IH; [reflexivity|]. intros Hin. apply Hnot. right. exact Hin.
Qed.

Lemma nth_error_after {A} (before : list A) (x : A) (after : list A) :
  nth_error (before ++ x :: after)%list (S (List.length before)) = nth_error after 0.
Proof.
  induction before as [|a before IH]; simpl; [reflexivity | exact IH].
Qed.

(** X18. The vault path of the command line: the first [--vault] among the
    arguments decides. The argument after it is the vault path, whatever
    it is and whatever the environment holds, unless it is empty or
    missing; then, as when there is no [--vault] at all, the answer is the
    variable of the environment, and a later [--vault] is not looked at. *)
Theorem getVaultPath_first_flag_decides
    (node script : string) (before : list string) (envVaultPath : option string) :
  ~ In "--vault" before ->
  getVaultPath (node :: script :: before) envVaultPath = envVaultPath
  /\ getVaultPath (node :: script :: before ++ ["--vault"])%list envVaultPath = envVaultPath
  /\ forall value after,
       getVaultPath (node :: script :: before ++ "--vault" :: value :: after)%list
         envVaultPath
       = if value =? "" then envVaultPath else Some value.
Proof.
  intros Hnot. unfold getVaultPath. simpl skipn. split; [|split].
  - rewrite (indexOf_absent _ _ Hnot). reflexivity.
  - rewrite (indexOf_first _ _ [] Hnot), nth_error_after. reflexivity.
  - intros value after.
    rewrite (indexOf_first _ _ (value :: after) Hnot), nth_error_after. reflexivity.
Qed.

Lemma getVaultPath_first_flag_decides_witness :
  getVaultPath ["node"; "index.js"; "--verbose"; "--vault"; "/vault"; "--vault"; "/other"]
    (Some "/env")
  = Some "/vault".
Proof.
  apply (getVaultPath_first_flag_decides "node" "index.js" ["--verbose"] (Some "/env")).
  simpl. intuition discriminate.
Defined.
(* ------------------------------------------------------------------ *)
(** * More on the loader *)
(* ------------------------------------------------------------------ *)

(** ** One record *)

(** The index of an element is written in digits. *)
Lemma showNat_starts_with_digit (n : nat) :
  exists c rest,
    showNat n = String c rest
    /\ ((48 <=? nat_of_ascii c) && (nat_of_ascii c <=? 57))%nat = true.
Proof.
  unfold showNat. destruct (Nat.to_uint n); simpl; eexists; eexists; split; reflexivity.
Qed.

Lemma lookupProperty_indexed_word (c : ascii) (rest : string) (items : list JSValue) :
  ((48 <=? nat_of_ascii c) && (nat_of_ascii c <=? 57))%nat = false ->
  forall i, lookupProperty (String c rest) (indexed i items) = None.
Proof.
  intros Hword. induction items as [|x items IH]; intros i; simpl; [reflexivity|].
  destruct (String.eqb_spec (showNat i) (String c rest)) as [Heq|_]; [|apply IH].
  destruct (showNat_starts_with_digit i) as (d & tail & Hshow & Hdigit).
  rewrite Hshow in Heq. inversion Heq; subst d. congruence.
Qed.

(** An array and a string have no property [embeddings]. *)
Lemma lookupElement_embeddings (items : list JSValue) :
  lookupElement "embeddings" items = None.
Proof.
  unfold lookupElement. change ("embeddings" =? "length") with false. cbv iota.
  apply lookupProperty_indexed_word. reflexivity.
Qed.

(** What a turn of the loop does with any record: nothing, or it sets the
    path of a record that holds a vector for the model, or it throws, and
    this on a [null] record only. *)
Lemma parseAjsonRecord_shape (modelKey fullKey : string) (value : JSValue)
    (entries : JSMap (EmbeddingEntry JSValue)) :
  parseAjsonRecord modelKey entries fullKey value = Returned entries
  \/ (exists entry,
        vectorRecord modelKey fullKey value (sliceFrom 14 fullKey) (embedding entry)
        /\ entryPath entry = sliceFrom 14 fullKey
        /\ parseAjsonRecord modelKey entries fullKey value
           = Returned (Map_set (sliceFrom 14 fullKey) entry entries))
  \/ (value = JSNull
      /\ exists e, parseAjsonRecord modelKey entries fullKey value = Thrown e).
Proof.
  unfold parseAjsonRecord.
  destruct (startsWith fullKey "smart_sources:") eqn:Hpre; simpl negb; cbv iota;
    [|left; reflexivity].
  destruct (includes (sliceFrom 14 fullKey) "#") eqn:Hhash; [left; reflexivity|].
  destruct value as [|b|x|s|items|properties].
  - right; right. split; [reflexivity | eexists; reflexivity].
  - left; reflexivity.
  - left; reflexivity.
  - left. change (getProperty (JSString s) "embeddings")
      with (Returned (A := option JSValue) (lookupElement "embeddings" (charsOf s))).
    rewrite lookupElement_embeddings. reflexivity.
  - left. change (getProperty (JSArray items) "embeddings")
      with (Returned (A := option JSValue) (lookupElement "embeddings" items)).
    rewrite lookupElement_embeddings. reflexivity.
  - change (getProperty (JSObject properties) "embeddings")
      with (Returned (A := option JSValue) (lookupProperty "embeddings" properties)).
    change (getProperty (JSObject properties) "blocks")
      with (Returned (A := option JSValue) (lookupProperty "blocks" properties)).
    cbv beta iota.
    destruct (lookupProperty "embeddings" properties) as [ev|] eqn:Hemb;
      [|left; reflexivity].
    destruct (isTruthy (Some ev)) eqn:Htruthy; simpl negb; cbv iota; [|left; reflexivity].
    destruct (getProperty ev modelKey) as [read|e] eqn:Hmodel;
      [|destruct ev; simpl in Htruthy, Hmodel; discriminate].
    destruct read as [modelData|]; [|left; reflexivity].
    destruct modelData as [|b|x|s|items|modelData]; try (left; reflexivity).
    unfold optionalVec.
    destruct (lookupProperty "vec" modelData) as [vec|] eqn:Hvec; [|left; reflexivity].
    destruct vec as [|b|x|s|items|fields];
      try (left; cbn [isArray negb]; rewrite Bool.orb_true_r; reflexivity).
    right; left. eexists. split; [|split; [|reflexivity]]; [|reflexivity].
    split; [exact (startsWith_sliceFrom fullKey "smart_sources:" Hpre)|].
    split; [exact Hhash|].
    exists properties, ev, modelData. simpl. repeat split; assumption.
Qed.

(** An array under [embeddings] is read at the index the model key
    writes: with the model key [0] the record is indexed with the vector
    of the first element. *)
Lemma parseAjsonRecord_array_embeddings :
  parseAjsonRecord "0" [] "smart_sources:A.md" arrayRecord = Returned [loadedA].
Proof. reflexivity. Qed.

(** ** The map, continued *)

Lemma Map_set_In {V} (k : string) (v : V) (m : JSMap V) (kv : string * V) :
  In kv (Map_set k v m) -> kv = (k, v) \/ In kv m.
Proof.
  induction m as [|[k' v'] m IH]; simpl.
  - intros [<- | []]. left. reflexivity.
  - destruct (k' =? k); simpl.
    + intros [<- | Hin]; [left; reflexivity | right; right; exact Hin].
    + intros [<- | Hin]; [right; left; reflexivity|].
      destruct (IH Hin) as [-> | Hin']; [left; reflexivity | right; right; exact Hin'].
Qed.

Lemma Map_set_Forall {V} (P : string * V -> Prop) (k : string) (v : V) (m : JSMap V) :
  P (k, v) -> Forall P m -> Forall P (Map_set k v m).
Proof.
  intros Hkv Hm. apply Forall_forall. intros kv Hin.
  destruct (Map_set_In k v m kv Hin) as [-> | Hin']; [exact Hkv|].
  rewrite Forall_forall in Hm. exact (Hm kv Hin').
Qed.

Lemma mergeEntries_Forall {V} (P : string * V -> Prop) (fileEntries : JSMap V) :
  Forall P fileEntries ->
  forall entries, Forall P entries -> Forall P (mergeEntries fileEntries entries).
Proof.
  unfold mergeEntries.
  induction 1 as [|[k v] fileEntries Hkv Hall IH]; intros entries Hentries; simpl.
  - exact Hentries.
  - apply IH. apply Map_set_Forall; assumption.
Qed.

Lemma mergeEntries_nodup {V} (fileEntries : JSMap V) :
  forall entries, NoDup (map fst entries) ->
                  NoDup (map fst (mergeEntries fileEntries entries)).
Proof.
  unfold mergeEntries.
  induction fileEntries as [|[k v] fileEntries IH]; intros entries Hnd; simpl.
  - exact Hnd.
  - apply IH. apply Map_set_nodup. exact Hnd.
Qed.

(** ** The records of a fragment, continued *)

(** The loop keeps the map well keyed, whatever the records. *)
Lemma parseAjsonRecords_keyed (modelKey : string) (records : list (string * JSValue)) :
  forall entries entries',
    NoDup (map fst entries) -> Forall keyedByPath entries ->
    parseAjsonRecords modelKey records entries = Returned entries' ->
    NoDup (map fst entries') /\ Forall keyedByPath entries'.
Proof.
  induction records as [|[fullKey value] records IH];
    intros entries entries' Hnd Hkeyed Hrun; simpl in Hrun.
  - inversion Hrun; subst. split; assumption.
  - destruct (parseAjsonRecord_shape modelKey fullKey value entries)
      as [Hsame | [(entry & Hdoc & Hpath & Hset) | (_ & e & Hthrow)]].
    + rewrite Hsame in Hrun. apply (IH _ _ Hnd Hkeyed Hrun).
    + rewrite Hset in Hrun.
      apply (IH _ _ (Map_set_nodup (sliceFrom 14 fullKey) entry _ Hnd)); [|exact Hrun].
      apply Map_set_Forall; [|exact Hkeyed].
      split; [exact Hpath|]. destruct Hdoc as (_ & Hhash & _). exact Hhash.
    + rewrite Hthrow in Hrun. discriminate.
Qed.

(** Every entry of the map after the loop was there before or comes from a
    record that holds its vector. *)
Lemma parseAjsonRecords_sound (modelKey : string) (records : list (string * JSValue)) :
  forall entries entries',
    parseAjsonRecords modelKey records entries = Returned entries' ->
    forall notePath entry,
      In (notePath, entry) entries' ->
      In (notePath, entry) entries
      \/ exists value,
           In ("smart_sources:" ++ notePath, value) records
           /\ vectorRecord modelKey ("smart_sources:" ++ notePath) value notePath
                (embedding entry).
Proof.
  induction records as [|[fullKey value] records IH];
    intros entries entries' Hrun notePath entry Hin; simpl in Hrun.
  - inversion Hrun; subst. left. exact Hin.
  - destruct (parseAjsonRecord_shape modelKey fullKey value entries)
      as [Hsame | [(entry0 & Hdoc & Hpath & Hset) | (_ & e & Hthrow)]].
    + rewrite Hsame in Hrun.
      destruct (IH _ _ Hrun notePath entry Hin) as [Hold | (v & Hv & Hd)];
        [left; exact Hold|].
      right. exists v. split; [right; exact Hv | exact Hd].
    + rewrite Hset in Hrun.
      destruct (IH _ _ Hrun notePath entry Hin) as [Hold | (v & Hv & Hd)].
      * destruct (Map_set_In _ _ _ _ Hold) as [Heq | Hold']; [|left; exact Hold'].
        pose proof (f_equal fst Heq) as Hn. pose proof (f_equal snd Heq) as He.
        cbn [fst snd] in Hn, He. subst notePath entry.
        assert (Hkey : fullKey = "smart_sources:" ++ sliceFrom 14 fullKey)
          by (destruct Hdoc; assumption).
        right. exists value. rewrite <- Hkey. split; [left; reflexivity | exact Hdoc].
      * right. exists v. split; [right; exact Hv | exact Hd].
    + rewrite Hthrow in Hrun. discriminate.
Qed.

(** A [null] record under a document-level key makes the loop throw: the
    loop reads [embeddings] off it. *)
Lemma parseAjsonRecords_null (modelKey notePath : string)
    (before after : list (string * JSValue)) :
  includes notePath "#" = false ->
  forall entries, exists e,
    parseAjsonRecords modelKey
      (before ++ (("smart_sources:" ++ notePath)%string, JSNull) :: after)%list entries
    = Thrown e.
Proof.
  intros Hhash. induction before as [|[fullKey value] before IH]; intros entries.
  - cbn [app parseAjsonRecords]. unfold parseAjsonRecord.
    change (startsWith ("smart_sources:" ++ notePath) "smart_sources:") with true.
    change (sliceFrom 14 ("smart_sources:" ++ notePath)) with notePath.
    simpl negb. cbv iota. rewrite Hhash. simpl. eexists. reflexivity.
  - cbn [app parseAjsonRecords].
    destruct (parseAjsonRecord modelKey entries fullKey value) as [entries1|e].
    + apply IH.
    + exists e. reflexivity.
Qed.

(** ** Fragments, continued *)

Lemma parseAjsonFile_unreadable (fs : FileSystem) (JSON_parse : string -> Outcome JSValue)
    (filePath modelKey e : string) :
  fs_readFile fs filePath = Thrown e ->
  outcome (parseAjsonFile fs JSON_parse filePath modelKey) = Thrown e.
Proof.
  intros Hread. unfold parseAjsonFile, readFileSync. rewrite Hread. reflexivity.
Qed.

(** The records [parseAjsonFile] runs its loop on, when it returns
    entries. *)
Lemma parseAjsonFile_records (fs : FileSystem) (JSON_parse : string -> Outcome JSValue)
    (filePath modelKey : string) (fileEntries : JSMap (EmbeddingEntry JSValue)) :
  outcome (parseAjsonFile fs JSON_parse filePath modelKey) = Returned fileEntries ->
  fileEntries = []
  \/ exists raw parsed records,
       fs_readFile fs filePath = Returned raw
       /\ JSON_parse (wrapFragment (trim raw)) = Returned parsed
       /\ Object_entries parsed = Returned records
       /\ parseAjsonRecords modelKey records [] = Returned fileEntries.
Proof.
  intros Hout.
  destruct (fs_readFile fs filePath) as [raw|e] eqn:Hread;
    [|rewrite (parseAjsonFile_unreadable _ _ _ _ e Hread) in Hout; discriminate].
  rewrite (parseAjsonFile_outcome fs JSON_parse modelKey _ raw Hread) in Hout.
  destruct (trim raw =? ""); [left; congruence|].
  destruct (JSON_parse (wrapFragment (trim raw))) as [parsed|e] eqn:Hparse;
    [|left; congruence].
  destruct (Object_entries parsed) as [records|e] eqn:Hentries; [|discriminate].
  right. exists raw, parsed, records. repeat split; assumption.
Qed.

(** X19. A fragment gives the index nothing of its own making: the
    entries [parseAjsonFile] returns have distinct keys, and each of them
    sits under the path of a record of the parsed text whose key is
    [smart_sources:] followed by that path, without [#], carries that
    path, and holds the array the record has under
    [embeddings[modelKey].vec], where [embeddings[modelKey]] is the own
    property of an object or, for an array, its element at the index the
    model key writes. *)
Theorem parseAjsonFile_entries_come_from_records
    (fs : FileSystem) (JSON_parse : string -> Outcome JSValue)
    (filePath modelKey : string) (fileEntries : JSMap (EmbeddingEntry JSValue)) :
  outcome (parseAjsonFile fs JSON_parse filePath modelKey) = Returned fileEntries ->
  NoDup (map fst fileEntries)
  /\ forall notePath entry,
       In (notePath, entry) fileEntries ->
       entryPath entry = notePath
       /\ exists raw parsed records value,
            fs_readFile fs filePath = Returned raw
            /\ JSON_parse (wrapFragment (trim raw)) = Returned parsed
            /\ Object_entries parsed = Returned records
            /\ In ("smart_sources:" ++ notePath, value) records
            /\ vectorRecord modelKey ("smart_sources:" ++ notePath) value notePath
                 (embedding entry).
Proof.
  intros Hout.
  destruct (parseAjsonFile_records _ _ _ _ _ Hout)
    as [-> | (raw & parsed & records & Hread & Hparse & Hentries & Hrun)].
  - split; [constructor | intros ? ? []].
  - destruct (parseAjsonRecords_keyed modelKey records [] fileEntries
                (NoDup_nil _) (Forall_nil _) Hrun) as [Hnd Hkeyed].
    split; [exact Hnd|]. intros notePath entry Hin.
    rewrite Forall_forall in Hkeyed. destruct (Hkeyed _ Hin) as [Hpath _].
    split; [exact Hpath|].
    destruct (parseAjsonRecords_sound modelKey records [] fileEntries Hrun
                notePath entry Hin) as [[] | (value & Hvalue & Hdoc)].
    exists raw, parsed, records, value. repeat split; assumption || apply Hdoc.
Qed.

Lemma parseAjsonFile_entries_come_from_records_witness :
  NoDup (map fst [loadedA])
  /\ forall notePath entry,
       In (notePath, entry) [loadedA] ->
       entryPath entry = notePath
       /\ exists raw parsed records value,
            fs_readFile fragmentFs "/vault/.smart-env/multi/a.ajson" = Returned raw
            /\ fragmentParse (wrapFragment (trim raw)) = Returned parsed
            /\ Object_entries parsed = Returned records
            /\ In ("smart_sources:" ++ notePath, value) records
            /\ vectorRecord "TaylorAI/bge-micro-v2" ("smart_sources:" ++ notePath)
                 value notePath (embedding entry).
Proof.
  apply (parseAjsonFile_entries_come_from_records fragmentFs fragmentParse
           "/vault/.smart-env/multi/a.ajson" "TaylorAI/bge-micro-v2" [loadedA]).
  vm_compute. reflexivity.
Defined.

Section FragmentsMore.

Variable nodePath : PathModule.
Variable fs : FileSystem.
Variable JSON_parse : string -> Outcome JSValue.
Variable multiPath modelKey : string.

Lemma afterFragment_keyed (file : string) (entries : JSMap (EmbeddingEntry JSValue)) :
  NoDup (map fst entries) /\ Forall keyedByPath entries ->
  NoDup (map fst (afterFragment nodePath fs JSON_parse multiPath modelKey entries file))
  /\ Forall keyedByPath (afterFragment nodePath fs JSON_parse multiPath modelKey entries file).
Proof.
  intros [Hnd Hkeyed]. unfold afterFragment.
  destruct (outcome (parseAjsonFile fs JSON_parse (join nodePath multiPath file) modelKey))
    as [fileEntries|e] eqn:Hout; [|split; assumption].
  split; [apply mergeEntries_nodup; exact Hnd|].
  apply mergeEntries_Forall; [|exact Hkeyed].
  destruct (parseAjsonFile_records _ _ _ _ _ Hout)
    as [-> | (raw & parsed & records & _ & _ & _ & Hrun)]; [constructor|].
  apply (parseAjsonRecords_keyed modelKey records [] fileEntries
           (NoDup_nil _) (Forall_nil _) Hrun).
Qed.

Lemma fold_afterFragment_keyed (files : list string) :
  forall entries,
    NoDup (map fst entries) /\ Forall keyedByPath entries ->
    NoDup (map fst (fold_left (afterFragment nodePath fs JSON_parse multiPath modelKey)
                      files entries))
    /\ Forall keyedByPath (fold_left (afterFragment nodePath fs JSON_parse multiPath modelKey)
                             files entries).
Proof.
  induction files as [|file files IH]; intros entries H; simpl.
  - exact H.
  - apply IH. apply afterFragment_keyed. exact H.
Qed.

End FragmentsMore.

Lemma loadEmbeddings_cases (nodePath : PathModule) (fs : FileSystem)
    (JSON_parse : string -> Outcome JSValue) (smartEnvPath modelKey : string) :
  let multiPath := join nodePath smartEnvPath "multi" in
  outcome (loadEmbeddings nodePath fs JSON_parse smartEnvPath modelKey)
  = match fs_exists fs multiPath with
    | Thrown e => Thrown e
    | Returned false => Returned []
    | Returned true =>
        match fs_readdir fs multiPath with
        | Thrown e => Thrown e
        | Returned names =>
            Returned (fold_left (afterFragment nodePath fs JSON_parse multiPath modelKey)
                        (filter (fun f => endsWith f ".ajson") names) [])
        end
    end.
Proof.
  intros multiPath. unfold loadEmbeddings. fold multiPath.
  rewrite outcome_bind. unfold existsSync at 1. unfold outcome at 1. simpl snd.
  destruct (fs_exists fs multiPath) as [[|]|e]; simpl negb; cbv iota;
    [|reflexivity|reflexivity].
  rewrite outcome_bind. unfold readdirSync at 1. unfold outcome at 1. simpl snd.
  destruct (fs_readdir fs multiPath) as [names|e]; [|reflexivity].
  apply loadFragments_outcome.
Qed.

(** X20. The index [loadEmbeddings] returns is a map of notes: its keys
    are distinct, each entry carries the path it sits under, and no key
    names a block (none holds [#]). *)
Theorem loadEmbeddings_index_well_keyed
    (nodePath : PathModule) (fs : FileSystem) (JSON_parse : string -> Outcome JSValue)
    (smartEnvPath modelKey : string) (entries : JSMap (EmbeddingEntry JSValue)) :
  outcome (loadEmbeddings nodePath fs JSON_parse smartEnvPath modelKey) = Returned entries ->
  NoDup (map fst entries) /\ Forall keyedByPath entries.
Proof.
  rewrite loadEmbeddings_cases.
  destruct (fs_exists fs _) as [[|]|e]; [| |discriminate].
  - destruct (fs_readdir fs _) as [names|e]; [|discriminate].
    intros H. inversion H; subst entries.
    apply fold_afterFragment_keyed. split; constructor.
  - intros H. inversion H; subst entries. split; constructor.
Qed.

Lemma loadEmbeddings_index_well_keyed_witness :
  NoDup (map fst [loadedA]) /\ Forall keyedByPath [loadedA].
Proof.
  apply (loadEmbeddings_index_well_keyed posix fragmentFs fragmentParse
           "/vault/.smart-env" "TaylorAI/bge-micro-v2").
  vm_compute. reflexivity.
Defined.

(** X21. A [null] record under the key of a note makes the loader lose the
    whole fragment: [parseAjsonFile] throws on it, whatever records come
    before and after, and the index stays as it was before the fragment,
    without the entries of the records that came first. *)
Theorem null_record_discards_fragment
    (nodePath : PathModule) (fs : FileSystem) (JSON_parse : string -> Outcome JSValue)
    (multiPath modelKey file raw notePath : string) (parsed : JSValue)
    (before after : list (string * JSValue)) :
  fs_readFile fs (join nodePath multiPath file) = Returned raw ->
  (trim raw =? "") = false ->
  JSON_parse (wrapFragment (trim raw)) = Returned parsed ->
  Object_entries parsed
  = Returned (before ++ (("smart_sources:" ++ notePath)%string, JSNull) :: after)%list ->
  includes notePath "#" = false ->
  (exists e, outcome (parseAjsonFile fs JSON_parse (join nodePath multiPath file) modelKey)
             = Thrown e)
  /\ forall index,
       afterFragment nodePath fs JSON_parse multiPath modelKey index file = index.
Proof.
  intros Hread Hne Hparse Hentries Hhash.
  destruct (parseAjsonRecords_null modelKey notePath before after Hhash []) as [e Hthrow].
  assert (Hout : outcome (parseAjsonFile fs JSON_parse (join nodePath multiPath file) modelKey)
                 = Thrown e).
  { rewrite (parseAjsonFile_outcome fs JSON_parse modelKey _ raw Hread).
    rewrite Hne, Hparse, Hentries. exact Hthrow. }
  split; [exists e; exact Hout|].
  intros index. unfold afterFragment. rewrite Hout. reflexivity.
Qed.

Lemma null_record_discards_fragment_witness :
  (exists e, outcome (parseAjsonFile tombstoneFs tombstoneParse
                        (join posix "/vault/.smart-env/multi" "a.ajson")
                        "TaylorAI/bge-micro-v2") = Thrown e)
  /\ forall index,
       afterFragment posix tombstoneFs tombstoneParse "/vault/.smart-env/multi"
         "TaylorAI/bge-micro-v2" index "a.ajson" = index.
Proof.
  apply (null_record_discards_fragment posix tombstoneFs tombstoneParse
           "/vault/.smart-env/multi" "TaylorAI/bge-micro-v2" "a.ajson"
           tombstoneText "Gone.md" parsedTombstone
           [("smart_sources:A.md",
             JSObject [("embeddings",
                        JSObject [("TaylorAI/bge-micro-v2",
                                   JSObject [("vec", JSArray [JSNumber 1; JSNumber 0])])])])]
           []); vm_compute; reflexivity.
Defined.

(** ** What the loader reads *)

Lemma trace_bind {A B} (m : Eff A) (k : A -> Eff B) :
  trace (bind m k)
  = (trace m ++ match outcome m with
                | Returned a => trace (k a)
                | Thrown _ => []
                end)%list.
Proof.
  destruct m as [t [a|e]]; simpl.
  - destruct (k a); reflexivity.
  - rewrite app_nil_r. reflexivity.
Qed.

Lemma fsCalls_app (t u : list Event) : fsCalls (t ++ u) = (fsCalls t ++ fsCalls u)%list.
Proof. apply filter_app. Qed.

Lemma parseAjsonFile_calls (fs : FileSystem) (JSON_parse : string -> Outcome JSValue)
    (filePath modelKey : string) :
  fsCalls (trace (parseAjsonFile fs JSON_parse filePath modelKey)) = [FsReadFile filePath].
Proof.
  unfold parseAjsonFile, readFileSync.
  destruct (fs_readFile fs filePath) as [raw|e]; [|reflexivity].
  unfold bind at 1.
  destruct (trim raw =? ""); [reflexivity|].
  destruct (JSON_parse (wrapFragment (trim raw))) as [parsed|e]; [|reflexivity].
  destruct (Object_entries parsed) as [records|e]; [|reflexivity].
  simpl. destruct (parseAjsonRecords modelKey records []); reflexivity.
Qed.

Lemma loadFragments_calls (nodePath : PathModule) (fs : FileSystem)
    (JSON_parse : string -> Outcome JSValue) (multiPath modelKey : string)
    (files : list string) :
  forall entries,
    fsCalls (trace (loadFragments nodePath fs JSON_parse multiPath modelKey files entries))
    = map (fragmentRead nodePath multiPath) files.
Proof.
  induction files as [|file files IH]; intros entries; cbn [loadFragments map].
  - reflexivity.
  - rewrite trace_bind, fsCalls_app.
    pose proof (parseAjsonFile_calls fs JSON_parse (join nodePath multiPath file) modelKey)
      as Hcalls.
    destruct (parseAjsonFile fs JSON_parse (join nodePath multiPath file) modelKey)
      as [t [fileEntries|e]]; cbn [trace fst] in Hcalls.
    + cbn [bind ret tryCatch trace outcome fst snd]. rewrite app_nil_r, Hcalls, IH.
      reflexivity.
    + cbn [bind ret tryCatch trace outcome fst snd log emit].
      rewrite fsCalls_app, Hcalls, IH. reflexivity.
Qed.

(** X22. What [loadEmbeddings] asks of the file system: whether the
    directory [multi] exists; when it does not, nothing more, and the index
    is empty; when it does, its listing and then one read for each listed
    name that ends in [.ajson], in the order of the listing, and no other
    file. It throws only when the directory cannot be tested or listed:
    no fragment can make the load fail. *)
Theorem loadEmbeddings_reads_fragments_only
    (nodePath : PathModule) (fs : FileSystem) (JSON_parse : string -> Outcome JSValue)
    (smartEnvPath modelKey : string) :
  let multiPath := join nodePath smartEnvPath "multi" in
  let load := loadEmbeddings nodePath fs JSON_parse smartEnvPath modelKey in
  (fs_exists fs multiPath = Returned false ->
   fsCalls (trace load) = [FsExists multiPath] /\ outcome load = Returned [])
  /\ (forall names,
        fs_exists fs multiPath = Returned true ->
        fs_readdir fs multiPath = Returned names ->
        fsCalls (trace load)
        = FsExists multiPath :: FsReaddir multiPath
          :: map (fragmentRead nodePath multiPath)
               (filter (fun f => endsWith f ".ajson") names)
        /\ exists entries, outcome load = Returned entries)
  /\ (forall e,
        outcome load = Thrown e ->
        fs_exists fs multiPath = Thrown e
        \/ (fs_exists fs multiPath = Returned true /\ fs_readdir fs multiPath = Thrown e)).
Proof.
  intros multiPath load. split; [|split].
  - intros Hex. split.
    + unfold load, loadEmbeddings. fold multiPath. unfold existsSync.
      rewrite Hex. reflexivity.
    + unfold load. rewrite loadEmbeddings_cases. fold multiPath. rewrite Hex. reflexivity.
  - intros names Hex Hdir. split.
    + unfold load, loadEmbeddings. fold multiPath.
      rewrite trace_bind. unfold existsSync at 1 2.
      cbn [trace outcome fst snd]. rewrite Hex. simpl negb. cbv iota.
      rewrite trace_bind. unfold readdirSync at 1 2.
      cbn [trace outcome fst snd]. rewrite Hdir.
      rewrite !fsCalls_app, loadFragments_calls. reflexivity.
    + unfold load. rewrite loadEmbeddings_cases. fold multiPath. rewrite Hex, Hdir.
      eexists. reflexivity.
  - intros e. unfold load. rewrite loadEmbeddings_cases. fold multiPath.
    destruct (fs_exists fs multiPath) as [[|]|e']; [| discriminate |].
    + destruct (fs_readdir fs multiPath) as [names|e']; [discriminate|].
      intros H. inversion H; subst. right. split; reflexivity.
    + intros H. inversion H; subst. left. reflexivity.
Qed.

Lemma loadEmbeddings_reads_fragments_only_witness :
  fsCalls (trace (loadEmbeddings posix fragmentFs fragmentParse "/vault/.smart-env"
                    "TaylorAI/bge-micro-v2"))
  = [FsExists "/vault/.smart-env/multi"; FsReaddir "/vault/.smart-env/multi";
     FsReadFile "/vault/.smart-env/multi/a.ajson";
     FsReadFile "/vault/.smart-env/multi/broken.ajson"]
  /\ exists entries,
       outcome (loadEmbeddings posix fragmentFs fragmentParse "/vault/.smart-env"
                  "TaylorAI/bge-micro-v2") = Returned entries.
Proof.
  apply (proj1 (proj2 (loadEmbeddings_reads_fragments_only posix fragmentFs fragmentParse
                         "/vault/.smart-env" "TaylorAI/bge-micro-v2"))
           ["a.ajson"; "broken.ajson"; "README.txt"]); reflexivity.
Defined.
(* ------------------------------------------------------------------ *)
(** * The model descriptor *)
(* ------------------------------------------------------------------ *)

Lemma outcome_tryCatch {A} (m : Eff A) (h : string -> Eff A) :
  outcome (tryCatch m h)
  = match outcome m with
    | Returned a => Returned a
    | Thrown e => outcome (h e)
    end.
Proof. destruct m as [t [a|e]]; simpl; [reflexivity | destruct (h e); reflexivity]. Qed.

Lemma trace_tryCatch {A} (m : Eff A) (h : string -> Eff A) :
  trace (tryCatch m h)
  = (trace m ++ match outcome m with
                | Returned _ => []
                | Thrown e => trace (h e)
                end)%list.
Proof.
  destruct m as [t [a|e]]; simpl; [rewrite app_nil_r; reflexivity|].
  destruct (h e); reflexivity.
Qed.

Lemma extractModelKey_some (config : JSValue) (key : string) :
  extractModelKey config = Some key ->
  exists properties smartSources embedModel transformers,
    config = JSObject properties
    /\ lookupProperty "smart_sources" properties = Some (JSObject smartSources)
    /\ lookupProperty "embed_model" smartSources = Some (JSObject embedModel)
    /\ lookupProperty "transformers" embedModel = Some (JSObject transformers)
    /\ lookupProperty "model_key" transformers = Some (JSString key).
Proof.
  unfold extractModelKey.
  destruct config as [|b|x|s|items|properties]; simpl isObjectTyped;
    try (rewrite Bool.orb_true_r; discriminate);
    try (simpl; discriminate).
  cbn [isTruthy negb orb optionalProperty].
  destruct (lookupProperty "smart_sources" properties) as [smartSources|] eqn:Hss;
    cbn [isTruthy optionalProperty]; [|discriminate].
  destruct smartSources as [|b|x|s|items|smartSources];
    cbn [isTruthy optionalProperty]; try discriminate.
  destruct (lookupProperty "embed_model" smartSources) as [embedModel|] eqn:Hem;
    cbn [isTruthy optionalProperty]; [|discriminate].
  destruct embedModel as [|b|x|s|items|embedModel];
    cbn [isTruthy optionalProperty];
    try discriminate;
    try (match goal with |- context [if ?c then _ else _] => destruct c end; discriminate).
  destruct (lookupProperty "transformers" embedModel) as [transformers|] eqn:Htr;
    cbn [isTruthy optionalProperty]; [|discriminate].
  destruct transformers as [|b|x|s|items|transformers];
    cbn [isTruthy optionalProperty];
    try discriminate;
    try (match goal with |- context [if ?c then _ else _] => destruct c end; discriminate).
  destruct (lookupProperty "model_key" transformers) as [modelKey|] eqn:Hmk;
    [|discriminate].
  destruct modelKey as [|b|x|s|items|fields]; try discriminate.
  intros H. inversion H; subst key.
  exists properties, smartSources, embedModel, transformers. repeat split; assumption.
Qed.

Lemma getModelDimensions_returns (modelKey : string) :
  exists dimensions, outcome (getModelDimensions modelKey) = Returned dimensions.
Proof.
  unfold getModelDimensions.
  repeat match goal with
         | |- context [if ?b then _ else _] => destruct b; [eexists; reflexivity|]
         end.
  eexists. reflexivity.
Qed.

Lemma getModelDimensions_calls (modelKey : string) :
  fsCalls (trace (getModelDimensions modelKey)) = [].
Proof.
  unfold getModelDimensions.
  repeat match goal with
         | |- context [if ?b then _ else _] => destruct b; [reflexivity|]
         end.
  reflexivity.
Qed.

(** The outcome of [loadModelInfo], case by case. *)
Lemma loadModelInfo_cases (nodePath : PathModule) (fs : FileSystem)
    (JSON_parse : string -> Outcome JSValue) (smartEnvPath : string) :
  let configPath := join nodePath smartEnvPath "smart_env.json" in
  outcome (loadModelInfo nodePath fs JSON_parse smartEnvPath)
  = match fs_exists fs configPath with
    | Thrown e => Thrown e
    | Returned false => Thrown ("Smart env config not found: " ++ configPath)
    | Returned true =>
        match fs_readFile fs configPath with
        | Thrown e => Thrown ("Failed to parse smart_env.json: " ++ e)
        | Returned content =>
            match JSON_parse content with
            | Thrown e => Thrown ("Failed to parse smart_env.json: " ++ e)
            | Returned config =>
                match extractModelKey config with
                | None | Some "" =>
                    Thrown "Could not determine embedding model from smart_env.json"
                | Some key =>
                    match outcome (getModelDimensions key) with
                    | Thrown e => Thrown e
                    | Returned n =>
                        Returned {| modelKey := key; dimensions := n;
                                    adapter := "transformers" |}
                    end
                end
            end
        end
    end.
Proof.
  intros configPath. unfold loadModelInfo. fold configPath.
  rewrite outcome_bind. unfold existsSync at 1. unfold outcome at 1. simpl snd.
  destruct (fs_exists fs configPath) as [[|]|e]; simpl negb; cbv iota;
    [|reflexivity|reflexivity].
  rewrite outcome_bind, outcome_tryCatch, outcome_bind.
  change (outcome (readFileSync fs configPath)) with (fs_readFile fs configPath).
  destruct (fs_readFile fs configPath) as [content|e]; [|reflexivity].
  cbv beta iota.
  change (outcome (liftOutcome (JSON_parse content))) with (JSON_parse content).
  destruct (JSON_parse content) as [config|e]; [|reflexivity].
  cbv beta iota.
  destruct (extractModelKey config) as [[|c key]|]; [reflexivity| |reflexivity].
  rewrite outcome_bind.
  destruct (outcome (getModelDimensions (String c key))); reflexivity.
Qed.

(** X23. [loadModelInfo] looks at one file, [smart_env.json] of the
    directory it is given: it tests whether the file exists and reads it at
    most once. Without the file it throws before any read. The model
    information it returns has the adapter [transformers] and a model key
    that is not empty and is the string the parsed file holds under
    [smart_sources.embed_model.transformers.model_key]. *)
Theorem loadModelInfo_reads_model_key
    (nodePath : PathModule) (fs : FileSystem) (JSON_parse : string -> Outcome JSValue)
    (smartEnvPath : string) :
  let configPath := join nodePath smartEnvPath "smart_env.json" in
  let load := loadModelInfo nodePath fs JSON_parse smartEnvPath in
  (fsCalls (trace load) = [FsExists configPath]
   \/ fsCalls (trace load) = [FsExists configPath; FsReadFile configPath])
  /\ (fs_exists fs configPath = Returned false ->
      fsCalls (trace load) = [FsExists configPath]
      /\ outcome load = Thrown ("Smart env config not found: " ++ configPath))
  /\ (forall info,
        outcome load = Returned info ->
        adapter info = "transformers"
        /\ modelKey info <> ""
        /\ exists content properties smartSources embedModel transformers,
             fs_readFile fs configPath = Returned content
             /\ JSON_parse content = Returned (JSObject properties)
             /\ lookupProperty "smart_sources" properties = Some (JSObject smartSources)
             /\ lookupProperty "embed_model" smartSources = Some (JSObject embedModel)
             /\ lookupProperty "transformers" embedModel = Some (JSObject transformers)
             /\ lookupProperty "model_key" transformers
                = Some (JSString (modelKey info))).
Proof.
  intros configPath load.
  assert (Hcalls : fs_exists fs configPath <> Returned true ->
                   fsCalls (trace load) = [FsExists configPath]).
  { intros Hex. unfold load, loadModelInfo. fold configPath. unfold existsSync.
    destruct (fs_exists fs configPath) as [[|]|e]; [congruence | reflexivity | reflexivity]. }
  split; [|split].
  - destruct (fs_exists fs configPath) as [[|]|e] eqn:Hex;
      [|left; apply Hcalls; congruence|left; apply Hcalls; congruence].
    right. unfold load, loadModelInfo. fold configPath.
    rewrite trace_bind. unfold existsSync at 1 2. cbn [trace outcome fst snd].
    rewrite Hex. simpl negb. cbv iota.
    rewrite trace_bind, trace_tryCatch, outcome_tryCatch, trace_bind, outcome_bind.
    change (outcome (readFileSync fs configPath)) with (fs_readFile fs configPath).
    change (trace (readFileSync fs configPath)) with [FsReadFile configPath].
    destruct (fs_readFile fs configPath) as [content|e]; [|reflexivity].
    cbv beta iota.
    change (outcome (liftOutcome (JSON_parse content))) with (JSON_parse content).
    change (trace (liftOutcome (JSON_parse content))) with (@nil Event).
    destruct (JSON_parse content) as [config|e]; [|reflexivity].
    cbv beta iota.
    destruct (extractModelKey config) as [[|c key]|]; [reflexivity| |reflexivity].
    rewrite trace_bind, !fsCalls_app, getModelDimensions_calls.
    destruct (outcome (getModelDimensions (String c key))); reflexivity.
  - intros Hex. split; [apply Hcalls; congruence|].
    unfold load. rewrite loadModelInfo_cases. fold configPath. rewrite Hex. reflexivity.
  - intros info. unfold load. rewrite loadModelInfo_cases. fold configPath.
    destruct (fs_exists fs configPath) as [[|]|e]; try discriminate.
    destruct (fs_readFile fs configPath) as [content|e]; [|discriminate].
    destruct (JSON_parse content) as [config|e] eqn:Hparse; [|discriminate].
    destruct (extractModelKey config) as [[|c key]|] eqn:Hkey; try discriminate.
    destruct (outcome (getModelDimensions (String c key))) as [n|e]; [|discriminate].
    intros H. inversion H; subst info. cbn [adapter modelKey].
    split; [reflexivity|]. split; [discriminate|].
    destruct (extractModelKey_some config _ Hkey)
      as (properties & smartSources & embedModel & transformers & -> & Hchain).
    exists content, properties, smartSources, embedModel, transformers.
    split; [reflexivity|]. split; [exact Hparse | exact Hchain].
Qed.

Lemma loadModelInfo_reads_model_key_witness :
  adapter microModel = "transformers"
  /\ modelKey microModel <> ""
  /\ exists content properties smartSources embedModel transformers,
       fs_readFile envFs (join posix "/vault/.smart-env" "smart_env.json")
       = Returned content
       /\ envParse content = Returned (JSObject properties)
       /\ lookupProperty "smart_sources" properties = Some (JSObject smartSources)
       /\ lookupProperty "embed_model" smartSources = Some (JSObject embedModel)
       /\ lookupProperty "transformers" embedModel = Some (JSObject transformers)
       /\ lookupProperty "model_key" transformers
          = Some (JSString (modelKey microModel)).
Proof.
  apply (proj2 (proj2 (loadModelInfo_reads_model_key posix envFs envParse
                         "/vault/.smart-env")) microModel).
  vm_compute. reflexivity.
Defined.

(** X24. [loadSmartConnectionsData] loads the model information first,
    from [.smart-env] under the resolved vault path, and the index next,
    for the model key it found. Without [smart_env.json] it throws after
    one test of existence: no directory is listed and no fragment is read.
    When it throws, the model information or the index failed to load with
    that error; when it returns, both loaded and it returns them. *)
Theorem loadSmartConnectionsData_model_first
    (nodePath : PathModule) (fs : FileSystem) (JSON_parse : string -> Outcome JSValue)
    (config : Config) :
  let smartEnvPath := join nodePath (resolvedVaultPath config) ".smart-env" in
  let configPath := join nodePath smartEnvPath "smart_env.json" in
  let load := loadSmartConnectionsData nodePath fs JSON_parse config in
  (fs_exists fs configPath = Returned false ->
   fsCalls (trace load) = [FsExists configPath]
   /\ outcome load = Thrown ("Smart env config not found: " ++ configPath))
  /\ (forall loaded,
        outcome load = Returned loaded ->
        outcome (loadModelInfo nodePath fs JSON_parse smartEnvPath)
        = Returned (loadedModelInfo loaded)
        /\ outcome (loadEmbeddings nodePath fs JSON_parse smartEnvPath
                      (modelKey (loadedModelInfo loaded)))
           = Returned (loadedEntries loaded))
  /\ (forall e,
        outcome load = Thrown e ->
        outcome (loadModelInfo nodePath fs JSON_parse smartEnvPath) = Thrown e
        \/ exists info,
             outcome (loadModelInfo nodePath fs JSON_parse smartEnvPath) = Returned info
             /\ outcome (loadEmbeddings nodePath fs JSON_parse smartEnvPath (modelKey info))
                = Thrown e).
Proof.
  intros smartEnvPath configPath load.
  assert (Hout : outcome load
                 = match outcome (loadModelInfo nodePath fs JSON_parse smartEnvPath) with
                   | Thrown e => Thrown e
                   | Returned info =>
                       match outcome (loadEmbeddings nodePath fs JSON_parse smartEnvPath
                                        (modelKey info)) with
                       | Thrown e => Thrown e
                       | Returned entries =>
                           Returned {| loadedEntries := entries; loadedModelInfo := info |}
                       end
                   end).
  { unfold load, loadSmartConnectionsData. fold smartEnvPath.
    rewrite outcome_bind.
    destruct (outcome (loadModelInfo nodePath fs JSON_parse smartEnvPath)) as [info|e];
      [|reflexivity].
    rewrite outcome_bind. cbn [log emit outcome snd].
    rewrite outcome_bind.
    destruct (outcome (loadEmbeddings nodePath fs JSON_parse smartEnvPath (modelKey info)));
      reflexivity. }
  split; [|split].
  - intros Hex. split.
    + unfold load, loadSmartConnectionsData. fold smartEnvPath.
      unfold loadModelInfo. fold configPath. unfold existsSync. rewrite Hex. reflexivity.
    + rewrite Hout, loadModelInfo_cases. fold configPath. rewrite Hex. reflexivity.
  - intros loaded. rewrite Hout.
    destruct (outcome (loadModelInfo nodePath fs JSON_parse smartEnvPath)) as [info|e];
      [|discriminate].
    destruct (outcome (loadEmbeddings nodePath fs JSON_parse smartEnvPath (modelKey info)))
      as [entries|e] eqn:Hentries; [|discriminate].
    intros H. inversion H; subst loaded. split; [reflexivity | exact Hentries].
  - intros e. rewrite Hout.
    destruct (outcome (loadModelInfo nodePath fs JSON_parse smartEnvPath)) as [info|e'].
    + destruct (outcome (loadEmbeddings nodePath fs JSON_parse smartEnvPath (modelKey info)))
        as [entries|e''] eqn:Hentries; [discriminate|].
      intros H. inversion H; subst. right. exists info. split; [reflexivity | exact Hentries].
    + intros H. inversion H; subst. left. reflexivity.
Qed.

Lemma loadSmartConnectionsData_model_first_witness :
  outcome (loadModelInfo posix envFs envParse "/vault/.smart-env")
  = Returned microModel
  /\ outcome (loadEmbeddings posix envFs envParse "/vault/.smart-env"
                "TaylorAI/bge-micro-v2")
     = Returned [loadedA].
Proof.
  apply (proj1 (proj2 (loadSmartConnectionsData_model_first posix envFs envParse
                         vaultConfig))
           {| loadedEntries := [loadedA]; loadedModelInfo := microModel |}).
  vm_compute. reflexivity.
Defined.
